(** * statsdaemon: a shallow embedding of the aggregation core

    The development follows [statsdaemon.go]: the numeric types of Go
    (int64 with wrap-around, float64 as IEEE binary64, float32 through
    binary32 rounding), the [fmt] verbs the emitters use, the aggregator
    tables as finite maps, [packetHandler], the four emitters, [submit]
    and [parseMessage].  Theorems about the flush values, the counter
    inactivity policy, the gauge arithmetic, the parser and [submit]
    come after the definitions. *)

From Stdlib Require Import ZArith Floats Bool Lia Permutation.
From Stdlib Require Import String Ascii.
From stdpp Require Import base gmap strings pretty list.

Local Open Scope Z_scope.

(** ** Go's int64 *)

Module Int64.

Definition min_int : Z := - 2 ^ 63.
Definition max_int : Z := 2 ^ 63 - 1.

(** Two's complement wrap-around of a mathematical integer into int64. *)
Definition wrap (z : Z) : Z := (z + 2 ^ 63) mod 2 ^ 64 - 2 ^ 63.

Definition in_range (z : Z) : Prop := min_int <= z <= max_int.

Definition add (x y : Z) : Z := wrap (x + y).

End Int64.

(** ** Go's float64 and float32

    float64 values are Rocq's primitive binary64 floats; [Prim2SF] gives
    sign, mantissa and exponent where a function of Go's library is
    defined on the representation. *)

Module F64.

(** float64(i) for an integer i: round to nearest, ties to even. *)
Definition of_Z (z : Z) : float :=
  SF2Prim (binary_normalize prec emax z 0 false).


(** The integer part rounded towards zero. *)
Definition truncZ (x : float) : option Z :=
  match Prim2SF x with
  | S754_zero _ => Some 0
  | S754_finite s m e => Some (cond_Zopp s (Z.shiftl (Zpos m) e))
  | _ => None
  end.

(** math.Floor: infinities, NaN and zeros are returned unchanged. *)
Definition Floor (x : float) : float :=
  match Prim2SF x with
  | S754_finite s m e =>
      if 0 <=? e then x
      else SF2Prim (binary_normalize prec emax (Z.shiftl (cond_Zopp s (Zpos m)) e) 0 s)
  | _ => x
  end.

(** The conversions int64(x) and int(x) (int is 64 bits wide): the value
    truncated towards zero.  For NaN, the infinities and values outside
    int64 the Go specification leaves the result to the implementation;
    this is what amd64 produces (the "integer indefinite" value). *)
Definition to_int64 (x : float) : Z :=
  match truncZ x with
  | Some z => if (Int64.min_int <=? z) && (z <=? Int64.max_int) then z else Int64.min_int
  | None => Int64.min_int
  end.

Definition is_nan (x : float) : bool := PrimFloat.is_nan x.

End F64.

Module F32.

(** float32(x): rounding of a float64 to binary32 (24 bits of mantissa,
    exponent bound 128), kept in a float64, which holds every float32. *)
Definition of_f64 (x : float) : float :=
  match Prim2SF x with
  | S754_finite s m e => SF2Prim (binary_normalize 24 128 (cond_Zopp s (Zpos m)) e s)
  | _ => x
  end.

(** Division of two float32 values, rounded once to binary32. *)
Definition div (x y : float) : float :=
  SF2Prim (SFdiv 24 128 (Prim2SF x) (Prim2SF y)).

End F32.

(** ** The [fmt] verbs used by the emitters *)

Definition nl : string := String (ascii_of_nat 10) EmptyString.

(** The [w] least significant decimal digits of [n], most significant
    first. *)
Fixpoint last_digits (w : nat) (n : Z) : string :=
  match w with
  | O => EmptyString
  | S w' => last_digits w' (n / 10) +:+ String (ascii_of_nat (48 + Z.to_nat (n mod 10))) EmptyString
  end.

(** The nearest integer to num/den, ties to the even one (den > 0). *)
Definition round_half_even (num den : Z) : Z :=
  let q := num / den in
  let r := num mod den in
  match 2 * r ?= den with
  | Lt => q
  | Gt => q + 1
  | Eq => if Z.even q then q else q + 1
  end.

(** |x| * 10^p rounded to an integer, for a finite x = m * 2^e. *)
Definition scaled_decimal (p : nat) (m : positive) (e : Z) : Z :=
  if 0 <=? e then Zpos m * 2 ^ e * 10 ^ Z.of_nat p
  else round_half_even (Zpos m * 10 ^ Z.of_nat p) (2 ^ (- e)).

Definition fixed_digits (p : nat) (n : Z) : string :=
  match p with
  | O => pretty n
  | _ => pretty (n / 10 ^ Z.of_nat p) +:+ "." +:+ last_digits p n
  end.

(** The verb %.pf (and %f, which is %.6f) on a float64. *)
Definition format_float (p : nat) (x : float) : string :=
  match Prim2SF x with
  | S754_nan => "NaN"
  | S754_infinity false => "+Inf"
  | S754_infinity true => "-Inf"
  | S754_zero s => (if s then "-" else "") +:+ fixed_digits p 0
  | S754_finite s m e => (if s then "-" else "") +:+ fixed_digits p (scaled_decimal p m e)
  end.

Inductive fmt_arg : Type :=
  | Astr (s : string)
  | Aint (z : Z)
  | Afloat (f : float).

Inductive fmt_item : Type :=
  | Lit (s : string)
  | Vs
  | Vd
  | Vf (p : nat).

(** One [fmt.Fprintf] call: the template and its operands. *)
Record Line : Type := mkLine { tmpl : list fmt_item; operands : list fmt_arg }.

Fixpoint sprintf (t : list fmt_item) (a : list fmt_arg) : string :=
  match t, a with
  | [], _ => ""
  | Lit s :: t', _ => s +:+ sprintf t' a
  | Vs :: t', Astr s :: a' => s +:+ sprintf t' a'
  | Vd :: t', Aint z :: a' => pretty z +:+ sprintf t' a'
  | Vf p :: t', Afloat f :: a' => format_float p f +:+ sprintf t' a'
  | _ :: t', _ :: a' => "%!(BADVERB)" +:+ sprintf t' a'
  | _ :: t', [] => "%!(MISSING)" +:+ sprintf t' []
  end.

Definition render (l : Line) : string := sprintf (tmpl l) (operands l).

(** The bytes a buffer holds after the calls [b], oldest first. *)
Definition Bytes (b : list Line) : string := foldr (fun l s => render l +:+ s) "" b.

Definition Fprintf (buffer : list Line) (t : list fmt_item) (a : list fmt_arg) : list Line :=
  buffer ++ [mkLine t a].

(** The templates of the source, verb by verb. *)

(** "%s %d %d\n" *)
Definition tmpl_int : list fmt_item := [Vs; Lit " "; Vd; Lit " "; Vd; Lit nl].
(** "%s %f %d\n" *)
Definition tmpl_gauge : list fmt_item := [Vs; Lit " "; Vf 6; Lit " "; Vd; Lit nl].
(** "%s.upper_%s %0.2f %d\n" *)
Definition tmpl_upper_pct : list fmt_item :=
  [Vs; Lit ".upper_"; Vs; Lit " "; Vf 2; Lit " "; Vd; Lit nl].
(** "%s.lower_%s %0.2f %d\n" *)
Definition tmpl_lower_pct : list fmt_item :=
  [Vs; Lit ".lower_"; Vs; Lit " "; Vf 2; Lit " "; Vd; Lit nl].
(** "%s.mean %0.2f %d\n" and its siblings *)
Definition tmpl_stat (name : string) : list fmt_item :=
  [Vs; Lit ("." +:+ name +:+ " "); Vf 2; Lit " "; Vd; Lit nl].
(** "%s.count %d %d\n" *)
Definition tmpl_count : list fmt_item := [Vs; Lit ".count "; Vd; Lit " "; Vd; Lit nl].

(** ** Data model *)

Record GaugeData : Type := mkGaugeData {
  Relative : bool;
  Negative : bool;
  GValue : float
}.

(** The dynamic types a [Packet]'s Value (an interface{}) holds. *)
Inductive value : Type :=
  | IntV (i : Z)
  | FloatV (f : float)
  | GaugeV (g : GaugeData)
  | StringV (s : string).

Record Packet : Type := mkPacket {
  Bucket : string;
  Value : value;
  Modifier : string;
  Sampling : float
}.

Record Percentile : Type := mkPercentile {
  pct_float : float;
  pct_str : string
}.

(** The command line flags. *)
Record Config : Type := mkConfig {
  graphiteAddress : string;
  debug : bool;
  persistCountKeys : Z;
  receiveCounter : string;
  percentThreshold : list Percentile;
  prefix : string;
  prefixTimers : string;
  prefixGauges : string
}.

(** The aggregator's tables (package-level maps in the source). *)
Record State : Type := mkState {
  counters : gmap string Z;
  gauges : gmap string float;
  timers : gmap string (list float);
  countInactivity : gmap string Z;
  sets : gmap string (list string)
}.

(** ** packetHandler *)

(** math.MaxUint64 as the float64 constant of the comparison. *)
Definition MaxUint64 : float := F64.of_Z (2 ^ 64 - 1).

Definition bump_receive (rc : string) (cs : gmap string Z) : gmap string Z :=
  if decide (rc = "") then cs
  else
    let cs1 := match cs !! rc with
               | Some v => if v <? 0 then <[rc := 0]> cs else cs
               | None => <[rc := 0]> cs
               end in
    <[rc := Int64.add (default 0 (cs1 !! rc)) 1]> cs1.

(** The amount a counter event adds:
    int64(float64(v) * float64(1/s.Sampling)), the quotient in float32. *)
Definition counter_delta (v : Z) (sampling : float) : Z :=
  F64.to_int64 (F64.of_Z v * F32.div 1 sampling)%float.

Definition apply_gauge (gaugeValue : float) (gaugeData : GaugeData) : float :=
  if Relative gaugeData then
    if Negative gaugeData then
      if (gaugeValue <? GValue gaugeData)%float then 0%float
      else (gaugeValue - GValue gaugeData)%float
    else
      if (MaxUint64 - gaugeValue <? GValue gaugeData)%float then MaxUint64
      else (gaugeValue + GValue gaugeData)%float
  else GValue gaugeData.

(** [None] is the panic of a failed type assertion. *)
Definition packetHandler (cfg : Config) (s : Packet) (st : State) : option State :=
  let cs := bump_receive (receiveCounter cfg) (counters st) in
  let st := mkState cs (gauges st) (timers st) (countInactivity st) (sets st) in
  if decide (Modifier s = "ms") then
    match Value s with
    | FloatV f =>
        Some (mkState (counters st) (gauges st)
                (<[Bucket s := default [] (timers st !! Bucket s) ++ [f]]> (timers st))
                (countInactivity st) (sets st))
    | _ => None
    end
  else if decide (Modifier s = "g") then
    match Value s with
    | GaugeV gaugeData =>
        let gaugeValue := default 0%float (gauges st !! Bucket s) in
        Some (mkState (counters st)
                (<[Bucket s := apply_gauge gaugeValue gaugeData]> (gauges st))
                (timers st) (countInactivity st) (sets st))
    | _ => None
    end
  else if decide (Modifier s = "c") then
    match Value s with
    | IntV v =>
        let old := default 0 (counters st !! Bucket s) in
        Some (mkState (<[Bucket s := Int64.add old (counter_delta v (Sampling s))]> (counters st))
                (gauges st) (timers st) (countInactivity st) (sets st))
    | _ => None
    end
  else if decide (Modifier s = "s") then
    match Value s with
    | StringV v =>
        Some (mkState (counters st) (gauges st) (timers st) (countInactivity st)
                (<[Bucket s := default [] (sets st !! Bucket s) ++ [v]]> (sets st)))
    | _ => None
    end
  else Some st.

(** The events of one window, applied in order. *)
Fixpoint handle_all (cfg : Config) (ps : list Packet) (st : State) : option State :=
  match ps with
  | [] => Some st
  | p :: ps' =>
      match packetHandler cfg p st with
      | Some st' => handle_all cfg ps' st'
      | None => None
      end
  end.

(** ** The emitters

    A [for k, v := range m] loop visits the entries of [m] in an order Go
    leaves open; the loops below take the order of [map_to_list], and no
    theorem depends on it. *)

Definition counters_step (now : Z) (acc : list Line * Z * gmap string Z * gmap string Z)
    (kv : string * Z) : list Line * Z * gmap string Z * gmap string Z :=
  let '(buffer, num, cs, ci) := acc in
  (Fprintf buffer tmpl_int [Astr kv.1; Aint kv.2; Aint now],
   num + 1, delete kv.1 cs, <[kv.1 := 0]> ci).

Definition inactivity_step (cfg : Config) (now : Z) (acc : list Line * Z * gmap string Z)
    (kv : string * Z) : list Line * Z * gmap string Z :=
  let '(buffer, num, ci) := acc in
  let bucket := kv.1 in
  let purgeCount := kv.2 in
  let buffer1 := if 0 <? purgeCount
                 then Fprintf buffer tmpl_int [Astr bucket; Aint 0; Aint now] else buffer in
  let num1 := if 0 <? purgeCount then num + 1 else num in
  let ci1 := <[bucket := Int64.add (default 0 (ci !! bucket)) 1]> ci in
  let ci2 := if persistCountKeys cfg <? default 0 (ci1 !! bucket)
             then delete bucket ci1 else ci1 in
  (buffer1, num1, ci2).

Definition processCounters (cfg : Config) (buffer : list Line) (now : Z) (st : State)
    : list Line * Z * State :=
  let '(buffer1, num1, cs, ci) :=
    foldl (counters_step now) (buffer, 0, counters st, countInactivity st)
      (map_to_list (counters st)) in
  let '(buffer2, num2, ci2) :=
    foldl (inactivity_step cfg now) (buffer1, num1, ci) (map_to_list ci) in
  (buffer2, num2, mkState cs (gauges st) (timers st) ci2 (sets st)).

Definition gauges_step (now : Z) (acc : list Line * Z * gmap string float)
    (kv : string * float) : list Line * Z * gmap string float :=
  let '(buffer, num, gs) := acc in
  (Fprintf buffer tmpl_gauge [Astr kv.1; Afloat kv.2; Aint now], num + 1, delete kv.1 gs).

Definition processGauges (buffer : list Line) (now : Z) (st : State)
    : list Line * Z * State :=
  let '(buffer1, num, gs) :=
    foldl (gauges_step now) (buffer, 0, gauges st) (map_to_list (gauges st)) in
  (buffer1, num, mkState (counters st) gs (timers st) (countInactivity st) (sets st)).

(** len(uniqueSet): the number of distinct strings of a set bucket. *)
Definition unique_count (set : list string) : Z := Z.of_nat (length (remove_dups set)).

Definition sets_step (now : Z) (acc : list Line * gmap string (list string))
    (kv : string * list string) : list Line * gmap string (list string) :=
  let '(buffer, ss) := acc in
  (Fprintf buffer tmpl_int [Astr kv.1; Aint (unique_count kv.2); Aint now], delete kv.1 ss).

Definition processSets (buffer : list Line) (now : Z) (st : State)
    : list Line * Z * State :=
  let num := Z.of_nat (size (sets st)) in
  let '(buffer1, ss) := foldl (sets_step now) (buffer, sets st) (map_to_list (sets st)) in
  (buffer1, num, mkState (counters st) (gauges st) (timers st) (countInactivity st) ss).

(** *** Timers *)

(** Float64Slice.Less on two elements. *)
Definition Less (x y : float) : bool := (x <? y)%float.

(** [sort.Sort(t)] is Go's library sort, driven by [Less] and Swap.  On
    a slice of at most 6 elements it is, in every release of the library
    (of fewer than 12 in the recent ones), its insertionSort,

      for i := a + 1; i < b; i++ {
        for j := i; j > a && data.Less(j, j-1); j-- { data.Swap(j, j-1) }
      }

    which is transcribed here: it leaves in place what [Less] does not
    order (a NaN, +0 beside -0).  [sort_insert] is the inner loop, for
    data[i] = x and data[a:i] read from right to left.  On longer slices
    the library partitions before it inserts; the statements below take
    from the sort only what every release gives: the result is a
    permutation of the samples, ascending when no sample is a NaN. *)
Fixpoint sort_insert (x : float) (before : list float) : list float :=
  match before with
  | [] => [x]
  | y :: before' => if Less x y then y :: sort_insert x before' else x :: before
  end.

Definition sort_Sort (t : list float) : list float :=
  rev (foldl (fun before x => sort_insert x before) [] t).

(** t[i] for a signed index: [None] is the index-out-of-range panic. *)
Definition at_index (t : list float) (i : Z) : option float :=
  if 0 <=? i then t !! Z.to_nat i else None.

(** s[1:] on a string: [None] is the slice-bounds panic on the empty string. *)
Definition drop_first (s : string) : option string :=
  match s with
  | EmptyString => None
  | String _ s' => Some s'
  end.

(** The index into the sorted samples for one percentile, lines 290-301. *)
Definition indexOfPerc (p : float) (count : Z) : Z :=
  let abs := if (0 <=? p)%float then p else (100 + p)%float in
  let i := F64.to_int64 (F64.Floor (abs / 100 * F64.of_Z count + 0.5)%float) in
  if (0 <=? p)%float then Int64.add i (-1) else i.

(** One round of the loop over the percentiles; [maxAtThreshold] is
    declared outside the loop and carried from round to round. *)
Definition percentile_step (u : string) (now : Z) (t : list float)
    (acc : option (list Line * float)) (pct : Percentile) : option (list Line * float) :=
  '(buffer, maxAtThreshold) ← acc;
  maxAtThreshold1 ←
    (if 1 <? Z.of_nat (length t)
     then at_index t (indexOfPerc (pct_float pct) (Z.of_nat (length t)))
     else Some maxAtThreshold);
  if (0 <=? pct_float pct)%float then
    Some (Fprintf buffer tmpl_upper_pct
            [Astr u; Astr (pct_str pct); Afloat maxAtThreshold1; Aint now], maxAtThreshold1)
  else
    pctstr ← drop_first (pct_str pct);
    Some (Fprintf buffer tmpl_lower_pct
            [Astr u; Astr pctstr; Afloat maxAtThreshold1; Aint now], maxAtThreshold1).

Definition float_sum (t : list float) : float := foldl (fun s v => (s + v)%float) 0%float t.

(** The body of the loop over the timer buckets, for the bucket [u] with
    samples [t0]; [None] is a panic. *)
Definition timer_bucket (pctls : list Percentile) (now : Z) (buffer : list Line)
    (u : string) (t0 : list float) : option (list Line) :=
  let t := sort_Sort t0 in
  min ← at_index t 0;
  max ← at_index t (Z.of_nat (length t) - 1);
  median ← at_index t (Z.of_nat (length t) / 2);
  let count := Z.of_nat (length t) in
  let mean := (float_sum t / F64.of_Z (Z.of_nat (length t)))%float in
  '(buffer1, _) ← foldl (percentile_step u now t) (Some (buffer, max)) pctls;
  let buffer2 := Fprintf buffer1 (tmpl_stat "mean") [Astr u; Afloat mean; Aint now] in
  let buffer3 := Fprintf buffer2 (tmpl_stat "median") [Astr u; Afloat median; Aint now] in
  let buffer4 := Fprintf buffer3 (tmpl_stat "upper") [Astr u; Afloat max; Aint now] in
  let buffer5 := Fprintf buffer4 (tmpl_stat "lower") [Astr u; Afloat min; Aint now] in
  Some (Fprintf buffer5 tmpl_count [Astr u; Aint count; Aint now]).

Definition timers_step (pctls : list Percentile) (now : Z)
    (acc : option (list Line * Z * gmap string (list float)))
    (kv : string * list float) : option (list Line * Z * gmap string (list float)) :=
  '(buffer, num, ts) ← acc;
  buffer1 ← timer_bucket pctls now buffer kv.1 kv.2;
  Some (buffer1, num + 1, delete kv.1 ts).

Definition processTimers (buffer : list Line) (now : Z) (pctls : list Percentile) (st : State)
    : option (list Line * Z * State) :=
  '(buffer1, num, ts) ←
    foldl (timers_step pctls now) (Some (buffer, 0, timers st)) (map_to_list (timers st));
  Some (buffer1, num, mkState (counters st) (gauges st) ts (countInactivity st) (sets st)).

(** ** submit *)

(** What the network does during one flush: the error of net.Dial, of
    SetDeadline and of Write, [None] where the call succeeds. *)
Record Net : Type := mkNet {
  dial_err : option string;
  deadline_err : option string;
  write_err : option string
}.

Inductive submit_error : Type :=
  | DialFailed (address err : string)
  | DeadlineFailed (err : string)
  | WriteFailed (err : string).

(** The outcome of [submit]: the returned error ([None] is nil), the
    tables afterwards and the bytes handed to client.Write, if any. *)
Record Outcome : Type := mkOutcome {
  returned : option submit_error;
  tables : State;
  written : option string
}.

(** The four emitters in the order of the source, into one buffer. *)
Definition run_emitters (cfg : Config) (now : Z) (st : State)
    : option (list Line * Z * State) :=
  let '(b1, n1, st1) := processCounters cfg [] now st in
  let '(b2, n2, st2) := processGauges b1 now st1 in
  '(b3, n3, st3) ← processTimers b2 now (percentThreshold cfg) st2;
  let '(b4, n4, st4) := processSets b3 now st3 in
  Some (b4, n1 + n2 + n3 + n4, st4).

(** [None] is a panic inside the timers emitter. *)
Definition submit (cfg : Config) (net : Net) (now : Z) (st : State) : option Outcome :=
  if decide (graphiteAddress cfg = "-") then Some (mkOutcome None st None)
  else
    match dial_err net with
    | Some err =>
        if debug cfg then
          '(_, _, st') ← run_emitters cfg now st;
          Some (mkOutcome (Some (DialFailed (graphiteAddress cfg) err)) st' None)
        else Some (mkOutcome (Some (DialFailed (graphiteAddress cfg) err)) st None)
    | None =>
        match deadline_err net with
        | Some err => Some (mkOutcome (Some (DeadlineFailed err)) st None)
        | None =>
            '(buffer, num, st') ← run_emitters cfg now st;
            if num =? 0 then Some (mkOutcome None st' None)
            else
              match write_err net with
              | Some err => Some (mkOutcome (Some (WriteFailed err)) st' (Some (Bytes buffer)))
              | None => Some (mkOutcome None st' (Some (Bytes buffer)))
              end
        end
    end.

(** ** parseMessage *)

(** bytes.IndexByte: [None] stands for -1. *)
Fixpoint IndexByte (s : string) (c : ascii) : option nat :=
  match s with
  | EmptyString => None
  | String a s' => if decide (a = c) then Some O else S <$> IndexByte s' c
  end.

(** s[:n] and s[n:] *)
Fixpoint str_take (n : nat) (s : string) : string :=
  match n, s with
  | S n', String a s' => String a (str_take n' s')
  | _, _ => EmptyString
  end.

Fixpoint str_drop (n : nat) (s : string) : string :=
  match n, s with
  | S n', String _ s' => str_drop n' s'
  | _, _ => s
  end.

(** bytes.Split(data, "\n"): the pieces between newlines, [cur] being the
    piece under construction. *)
Fixpoint split_from (cur : string) (data : string) : list string :=
  match data with
  | EmptyString => [cur]
  | String a data' =>
      if decide (a = ascii_of_nat 10) then cur :: split_from "" data'
      else split_from (cur +:+ String a "") data'
  end.

Definition Split (data : string) : list string := split_from "" data.

(** string(b) for a byte b: the UTF-8 encoding of the code point b. *)
Definition string_of_byte (b : ascii) : string :=
  let n := nat_of_ascii b in
  if (n <? 128)%nat then String b ""
  else String (ascii_of_nat (192 + n / 64)) (String (ascii_of_nat (128 + n mod 64)) "").

Definition HasPrefix (s p : string) : bool := String.prefix p s.

Inductive line_result : Type :=
  | Skip
  | Emit (p : Packet)
  | Panic.

Section Parser.

(** The functions of strconv, which the source calls and does not define:
    ParseInt(s, 10, 64), ParseFloat(s, 64) and ParseFloat(s, 32), each
    with [None] for a non-nil error. *)
Variable ParseInt : string -> option Z.
Variable ParseFloat64 : string -> option float.
Variable ParseFloat32 : string -> option float.

Variable cfg : Config.

(** The value for the type [mtypeStr], lines 393-430: the prefix may be
    replaced by the gauge prefix. *)
Definition parse_value (mtypeStr val prefixToAdd : string) : option (option (value * string)) :=
  match mtypeStr with
  | EmptyString => None
  | String c0 _ =>
      if decide (c0 = "c"%char) then
        Some ((fun i => (IntV i, prefixToAdd)) <$> ParseInt val)
      else if decide (c0 = "g"%char) then
        match val with
        | EmptyString => None
        | String v0 val' =>
            let relative := bool_decide (v0 = "+"%char \/ v0 = "-"%char) in
            let negative := relative && bool_decide (v0 = "-"%char) in
            let stringToParse := if relative then val' else val in
            Some ((fun gaugeValue =>
                     (GaugeV (mkGaugeData relative negative gaugeValue),
                      prefix cfg +:+ prefixGauges cfg)) <$> ParseFloat64 stringToParse)
        end
      else if decide (c0 = "s"%char) then Some (Some (StringV val, prefixToAdd))
      else Some ((fun f => (FloatV f, prefixToAdd)) <$> ParseFloat64 val)
  end.

(** The sampling rate after the type, lines 432-440. *)
Definition parse_sampling (input : string) : float :=
  if HasPrefix input "|@" then
    match ParseFloat32 (str_drop 2 input) with
    | Some rate => F32.of_f64 rate
    | None => 1%float
    end
  else 1%float.

(** The type indicator at input[index], lines 368-386: the type, the
    prefix and the input after the type; [None] rejects the line. *)
Definition parse_type (input : string) (index : nat) : option (string * string * string) :=
  match String.get index input with
  | None => None
  | Some c =>
      if decide (c = "m"%char) then
        match String.get (S index) input with
        | Some c' =>
            if decide (c' = "s"%char)
            then Some ("ms", prefix cfg +:+ prefixTimers cfg, str_drop (S (S index)) input)
            else None
        | None => None
        end
      else Some (string_of_byte c, prefix cfg, str_drop (S index) input)
  end.

(** One round of the loop over the lines; the log calls are left out,
    they write to the logger only. *)
Definition parse_line (line : string) : line_result :=
  if decide (String.length line = O) then Skip
  else
    match IndexByte line ":" with
    | None => Skip
    | Some index =>
        if decide (index = (String.length line - 1)%nat) then Skip
        else
          let name := str_take index line in
          let input := str_drop (S index) line in
          match IndexByte input "|" with
          | None => Skip
          | Some index =>
              if decide (index = (String.length input - 1)%nat) then Skip
              else
                let val := str_take index input in
                match parse_type input (S index) with
                | None => Skip
                | Some (mtypeStr, prefixToAdd, input') =>
                    match parse_value mtypeStr val prefixToAdd with
                    | None => Panic
                    | Some None => Skip
                    | Some (Some (v, prefixToAdd')) =>
                        Emit (mkPacket (prefixToAdd' +:+ name) v mtypeStr (parse_sampling input'))
                    end
                end
          end
    end.

Definition parse_step (output : option (list Packet)) (line : string) : option (list Packet) :=
  out ← output;
  match parse_line line with
  | Skip => Some out
  | Emit packet => Some (out ++ [packet])
  | Panic => None
  end.

(** [None] is a panic (val[0] on an empty gauge value). *)
Definition parseMessage (data : string) : option (list Packet) :=
  foldl parse_step (Some []) (Split data).

End Parser.

(** The part of strconv the examples need: plain decimal digits.  These
    stand in for ParseInt and ParseFloat on such strings only. *)
Fixpoint digits_value (acc : Z) (s : string) : option Z :=
  match s with
  | EmptyString => Some acc
  | String a s' =>
      let n := nat_of_ascii a in
      if (48 <=? n)%nat && (n <=? 57)%nat
      then digits_value (10 * acc + Z.of_nat (n - 48)) s'
      else None
  end.

Definition ParseInt_digits (s : string) : option Z :=
  match s with
  | EmptyString => None
  | _ => digits_value 0 s
  end.

Definition ParseFloat_digits (s : string) : option float :=
  F64.of_Z <$> ParseInt_digits s.

(** ** Percentiles.Set *)

(** strings.Replace(s, ".", "_", -1): every dot becomes an underscore. *)
Fixpoint Replace_dots (s : string) : string :=
  match s with
  | EmptyString => EmptyString
  | String a s' => String (if decide (a = "."%char) then "_"%char else a) (Replace_dots s')
  end.

(** The flag -percent-threshold=s, lines 64-71: [None] is the error of
    ParseFloat returned, the list being left as it was. *)
Definition Percentiles_Set (ParseFloat64 : string -> option float)
    (a : list Percentile) (s : string) : option (list Percentile) :=
  match ParseFloat64 s with
  | None => None
  | Some f => Some (a ++ [mkPercentile f (Replace_dots s)])
  end.

(** ** httpHandler *)

(** strings.Split(s, sep) for a separator of one byte, [cur] being the
    piece under construction. *)
Fixpoint split_at (sep : ascii) (cur : string) (s : string) : list string :=
  match s with
  | EmptyString => [cur]
  | String a s' =>
      if decide (a = sep) then cur :: split_at sep "" s'
      else split_at sep (cur +:+ String a "") s'
  end.

Definition strings_Split (s : string) (sep : ascii) : list string := split_at sep "" s.

(** What the handler does with a request: the status and body of the
    reply, and the line it sends to PacketIn, if any. *)
Record Reply : Type := mkReply {
  status : Z;
  body : string;
  queued : option string
}.

Definition StatusBadRequest : Z := 400.

(** http.Error(w, msg, code): the message and a newline. *)
Definition http_Error (msg : string) (code : Z) : Reply := mkReply code (msg +:+ nl) None.

(** path_elements[i], the index being in range at each use. *)
Definition element (path_elements : list string) (i : nat) : string :=
  default "" (path_elements !! i).

(** One round of the loop that builds the stat name, lines 495-500. *)
Definition stat_step (path_elements : list string) (stat_bytes : string) (i : nat) : string :=
  (if (1 <? i)%nat then stat_bytes +:+ "." else stat_bytes) +:+ element path_elements i.

Definition httpHandler (path_string : string) : Reply :=
  let path_elements := strings_Split path_string "/" in
  let n := length path_elements in
  if (n <? 4)%nat then
    http_Error "Invalid number of splits provided in URL to stat" StatusBadRequest
  else
    let stat_type := element path_elements (n - 3) in
    let stat_amount_string := element path_elements (n - 1) in
    let stat_bytes := foldl (stat_step path_elements) "" (seq 1 (n - 4)) in
    let stat_bytes := if (0 <? String.length stat_bytes)%nat
                      then stat_bytes +:+ "." else stat_bytes in
    let stat_bytes := stat_bytes +:+ element path_elements (n - 2) in
    let reply (statsd_string : string) :=
      mkReply 200 ("OK: " +:+ statsd_string) (Some statsd_string) in
    if decide (stat_type = "count") then
      reply (stat_bytes +:+ ":" +:+ stat_amount_string +:+ "|c")
    else if decide (stat_type = "time") then
      reply (stat_bytes +:+ ":" +:+ stat_amount_string +:+ "|ms")
    else if decide (stat_type = "gauge") then
      reply (stat_bytes +:+ ":" +:+ stat_amount_string +:+ "|g")
    else http_Error "Invalid stat_type format" StatusBadRequest.

(** ** monitor *)

(** What the select of the monitor loop receives: a signal, a tick of the
    flush timer or a packet of the channel In.  A signal and a tick lead
    to [submit]; they carry what the network does during that flush and
    the time the flush reads. *)
Inductive Received : Type :=
  | Signal (net : Net) (now : Z)
  | Tick (net : Net) (now : Z)
  | FromIn (s : Packet).

(** The loop on the values received, in their order: whether the
    function has returned, the tables and the outcomes of the flushes so
    far (their errors go to the log).  With nothing left to receive the
    select blocks; [None] is a panic. *)
Fixpoint monitor (cfg : Config) (received : list Received) (st : State)
    (flushes : list Outcome) : option (bool * State * list Outcome) :=
  match received with
  | [] => Some (false, st, flushes)
  | Signal net now :: _ =>
      o ← submit cfg net now st;
      Some (true, tables o, flushes ++ [o])
  | Tick net now :: received' =>
      o ← submit cfg net now st;
      monitor cfg received' (tables o) (flushes ++ [o])
  | FromIn s :: received' =>
      st' ← packetHandler cfg s st;
      monitor cfg received' st' flushes
  end.

(** * Notions used by the statements

    Lines, orders, sums and indices the theorems are stated with, and the
    concrete tables and events of the scenarios they are run on. *)

(** The table after a loop that deletes the entries [l] it visits. *)
Definition delete_visited {V : Type} (m : gmap string V) (l : list (string * V))
    : gmap string V :=
  foldl (fun m kv => delete kv.1 m) m l.

(** ** Lines and tables of the emitters *)

(** The line of one gauge. *)
Definition gauge_line (now : Z) (kv : string * float) : Line :=
  mkLine tmpl_gauge [Astr kv.1; Afloat kv.2; Aint now].

(** A float64 that is a zero or a finite number. *)
Definition is_finite_repr (x : float) : Prop :=
  match Prim2SF x with
  | S754_zero _ | S754_finite _ _ _ => True
  | _ => False
  end.

(** A table holding the single gauge g = 0. *)
Definition gauge_zero_state : State := mkState ∅ {["g" := 0%float]} ∅ ∅ ∅.

(** The flags with flushing disabled, and the default flags. *)
Definition disabled_config : Config :=
  mkConfig "-" true 60 "" [] "stats." "timers." "gauges.".

Definition default_config : Config :=
  mkConfig "127.0.0.1:2003" false 60 "" [] "stats." "timers." "gauges.".

(** The line of one live counter. *)
Definition counter_line (now : Z) (kv : string * Z) : Line :=
  mkLine tmpl_int [Astr kv.1; Aint kv.2; Aint now].

(** The zero sample "bucket 0 now". *)
Definition zero_line (now : Z) (bucket : string) : Line :=
  mkLine tmpl_int [Astr bucket; Aint 0; Aint now].

(** The tickers after the loop over the live counters [l]. *)
Definition reset_visited (ci : gmap string Z) (l : list (string * Z)) : gmap string Z :=
  foldl (fun m kv => <[kv.1 := 0]> m) ci l.

(** What one flush does to a ticker: one more, and gone when past
    persist-count-keys. *)
Definition tick (cfg : Config) (v : Z) : option Z :=
  let v' := Int64.add v 1 in
  if persistCountKeys cfg <? v' then None else Some v'.

(** The zero samples of the tickers [l], and the tickers afterwards. *)
Definition zero_lines (now : Z) (l : list (string * Z)) : list Line :=
  omap (fun kv => if 0 <? kv.2 then Some (zero_line now kv.1) else None) l.

Definition ticked (cfg : Config) (ci : gmap string Z) (l : list (string * Z)) : gmap string Z :=
  foldl (fun m kv => match tick cfg kv.2 with
                     | Some v' => <[kv.1 := v']> m
                     | None => delete kv.1 m
                     end) ci l.

(** The ticker table as the first loop leaves it. *)
Definition reset_tickers (st : State) : gmap string Z :=
  reset_visited (countInactivity st) (map_to_list (counters st)).

(** Scenario 5 of the specification: c:7|c, then quiet flushes, with
    persist-count-keys = 2. *)
Definition scenario5_config : Config :=
  mkConfig "127.0.0.1:2003" false 2 "" [] "stats." "timers." "gauges.".

(** The tables at the k-th flush of that run. *)
Fixpoint scenario5_trace (k : nat) : State :=
  match k with
  | O => mkState {["stats.c" := 7]} ∅ ∅ ∅ ∅
  | S k' => (processCounters scenario5_config [] (Z.of_nat k') (scenario5_trace k')).2
  end.

(** What a packet adds to the counter bucket [B], if it is a counter
    event for [B]. *)
Definition counter_amount (B : string) (p : Packet) : option Z :=
  if decide (Modifier p = "c" /\ Bucket p = B) then
    match Value p with
    | IntV v => Some (counter_delta v (Sampling p))
    | _ => None
    end
  else None.

(** The amounts of the counter events for [B] in a window, in order. *)
Definition window_amounts (B : string) (ps : list Packet) : list Z :=
  omap (counter_amount B) ps.

(** The sum of the amounts, and the int64 accumulation of one more. *)
Definition sum_Z (l : list Z) : Z := foldr Z.add 0 l.

Definition accumulate (acc : option Z) (a : Z) : option Z :=
  Some (Int64.add (default 0 acc) a).

Definition empty_state : State := mkState ∅ ∅ ∅ ∅ ∅.

(** Scenario 1 of the specification: foo:1|c and foo:2|c|@0.5. *)
Definition scenario1_packets : list Packet :=
  [mkPacket "stats.foo" (IntV 1) "c" 1; mkPacket "stats.foo" (IntV 2) "c" 0.5].

(** Modelled following the words of the claim: trunc(d / r) in exact
    arithmetic, for a finite rate r = m * 2^e. *)
Definition exact_quotient_trunc (d : Z) (r : float) : option Z :=
  match Prim2SF r with
  | S754_finite s m e =>
      Some (cond_Zopp s (if 0 <=? e then Z.quot d (Zpos m * 2 ^ e)
                         else Z.quot (d * 2 ^ (- e)) (Zpos m)))
  | _ => None
  end.

(** ** Orders, samples and indices of the timers *)

Definition not_nan (x : float) : Prop := F64.is_nan x = false.

(** Ascending order: every element is below the ones after it. *)
Fixpoint ascending (l : list float) : Prop :=
  match l with
  | [] => True
  | x :: l' => Forall (fun y => (x <=? y)%float = true) l' /\ ascending l'
  end.

(** The same from right to left. *)
Fixpoint descending (l : list float) : Prop :=
  match l with
  | [] => True
  | x :: l' => Forall (fun y => (y <=? x)%float = true) l' /\ descending l'
  end.


(** A greatest and a least element of the samples. *)
Definition is_max (m : float) (S : list float) : Prop :=
  m ∈ S /\ forall x, x ∈ S -> (x <=? m)%float = true.

Definition is_min (m : float) (S : list float) : Prop :=
  m ∈ S /\ forall x, x ∈ S -> (m <=? x)%float = true.

(** The value of one percentile line: the sample at [indexOfPerc] when
    there are two samples or more, the maximum otherwise. *)
Definition percentile_value (t : list float) (max : float) (pct : Percentile) : option float :=
  if 1 <? Z.of_nat (length t)
  then at_index t (indexOfPerc (pct_float pct) (Z.of_nat (length t)))
  else Some max.

(** The line of one percentile, and the five lines after the
    percentiles. *)
Definition percentile_line (u : string) (now : Z) (t : list float) (max : float)
    (pct : Percentile) : option Line :=
  v ← percentile_value t max pct;
  if (0 <=? pct_float pct)%float then
    Some (mkLine tmpl_upper_pct [Astr u; Astr (pct_str pct); Afloat v; Aint now])
  else
    pctstr ← drop_first (pct_str pct);
    Some (mkLine tmpl_lower_pct [Astr u; Astr pctstr; Afloat v; Aint now]).

Definition stat_lines (u : string) (now : Z) (t : list float) (min max median : float)
    : list Line :=
  [mkLine (tmpl_stat "mean")
     [Astr u; Afloat (float_sum t / F64.of_Z (Z.of_nat (length t)))%float; Aint now];
   mkLine (tmpl_stat "median") [Astr u; Afloat median; Aint now];
   mkLine (tmpl_stat "upper") [Astr u; Afloat max; Aint now];
   mkLine (tmpl_stat "lower") [Astr u; Afloat min; Aint now];
   mkLine tmpl_count [Astr u; Aint (Z.of_nat (length t)); Aint now]].

(** The lines of one timer bucket, percentiles first. *)
Definition timer_lines (pctls : list Percentile) (now : Z) (u : string) (t0 : list float)
    : option (list Line) :=
  let t := sort_Sort t0 in
  min ← at_index t 0;
  max ← at_index t (Z.of_nat (length t) - 1);
  median ← at_index t (Z.of_nat (length t) / 2);
  pl ← mapM (percentile_line u now t max) pctls;
  Some (pl ++ stat_lines u now t min max median).

(** No panic for one percentile on [n] sorted samples: the index is one
    of the slice, and a negative percentile has a name to strip. *)
Definition percentile_safe (n : Z) (pct : Percentile) : bool :=
  (if 1 <? n
   then (0 <=? indexOfPerc (pct_float pct) n) && (indexOfPerc (pct_float pct) n <? n)
   else true)
  && ((0 <=? pct_float pct)%float || negb (String.eqb (pct_str pct) "")).

(** No panic for one bucket: it has a sample, and every percentile is
    safe on it. *)
Definition bucket_safe (pctls : list Percentile) (t0 : list float) : bool :=
  (0 <? Z.of_nat (length t0)) && forallb (percentile_safe (Z.of_nat (length t0))) pctls.

(** No timer bucket makes the emitter panic. *)
Definition timers_safe (pctls : list Percentile) (st : State) : Prop :=
  map_Forall (fun _ t0 => bucket_safe pctls t0 = true) (timers st).

(** The text of a line with a float64 value, "path value now\n" with the
    two decimals of %0.2f, and of a line with an integer value. *)
Definition float_text (path : string) (v : float) (now : Z) : string :=
  path +:+ " " +:+ format_float 2 v +:+ " " +:+ pretty now +:+ nl.

Definition int_text (path : string) (v now : Z) : string :=
  path +:+ " " +:+ pretty v +:+ " " +:+ pretty now +:+ nl.

(** The buffer got a line of this text. *)
Definition writes (buffer : list Line) (text : string) : Prop :=
  exists l, l ∈ buffer /\ render l = text.

(** Modelled following the words of the amended claim: the samples added
    one by one to a sum that starts at 0, each sum rounded to float64,
    and that sum divided by the number of samples as a float64. *)
Fixpoint sum_from (acc : float) (l : list float) : float :=
  match l with
  | [] => acc
  | x :: l' => sum_from (acc + x)%float l'
  end.

Definition float64_mean (l : list float) : float :=
  (sum_from 0 l / F64.of_Z (Z.of_nat (length l)))%float.

(** Modelled following the words of the claim: the value of a sample that
    is a whole number, and the sum of such samples in exact arithmetic;
    the arithmetic mean is this sum divided by their number. *)
Definition whole_value (x : float) : option Z :=
  match Prim2SF x with
  | S754_zero _ => Some 0
  | S754_finite s m e =>
      if 0 <=? e then Some (cond_Zopp s (Zpos m * 2 ^ e))
      else if Zpos m mod 2 ^ (- e) =? 0 then Some (cond_Zopp s (Zpos m / 2 ^ (- e)))
      else None
  | _ => None
  end.

Fixpoint exact_sum (l : list float) : option Z :=
  match l with
  | [] => Some 0
  | x :: l' => v ← whole_value x; s ← exact_sum l'; Some (v + s)
  end.

(** The samples 1, 10^17 and -10^17 of one bucket, as t:1|ms, t:1e17|ms
    and t:-1e17|ms leave them with empty prefixes. *)
Definition cancelling_state : State :=
  mkState ∅ ∅ {["t" := [1; 1e17; -1e17]%float]} ∅ ∅.

(** Scenario 2 of the specification: lat:100|ms, lat:200|ms, lat:300|ms
    with the percentile threshold 90. *)
Definition scenario2_config : Config :=
  mkConfig "127.0.0.1:2003" false 60 "" [mkPercentile 90 "90"] "stats." "timers." "gauges.".

Definition scenario2_state : State :=
  mkState ∅ ∅ {["stats.timers.lat" := [100; 300; 200]%float]} ∅ ∅.






(** One bucket with six samples, and the percentiles 90 and -10. *)
Definition six_samples_state : State :=
  mkState ∅ ∅ {["stats.timers.lat" := [300; 100; 600; 200; 500; 400]%float]} ∅ ∅.

Definition two_percentiles_config : Config :=
  mkConfig "127.0.0.1:2003" false 60 ""
    [mkPercentile 90 "90"; mkPercentile (-10) "-10"] "stats." "timers." "gauges.".

(** Two samples and the percentile 10, then the percentile -10. *)
Definition two_samples_state : State :=
  mkState ∅ ∅ {["stats.timers.lat" := [100; 300]%float]} ∅ ∅.

(** ** Lines of the wire format *)

(** The events one line adds to the output, or the panic. *)
Definition line_events (r : line_result) : option (list Packet) :=
  match r with
  | Skip => Some []
  | Emit p => Some [p]
  | Panic => None
  end.

(** A type byte other than c, g, s and m. *)
Definition unknown_type (c : ascii) : Prop :=
  c <> "c"%char /\ c <> "g"%char /\ c <> "s"%char /\ c <> "m"%char.

(** A wire line name:val|type. *)
Definition metric_line (name val type : string) : string :=
  name +:+ ":" +:+ val +:+ "|" +:+ type.

(** ** Gauges *)

(** The representation of +0, and the representations of the zeros and
    of the finite numbers. *)
Definition SFzero : spec_float := S754_zero false.

Definition finite_repr (x : spec_float) : Prop :=
  match x with
  | S754_zero _ | S754_finite _ _ _ => True
  | _ => False
  end.

(** The event name:-d|g for the gauge bucket [B]. *)
Definition negative_delta (B : string) (d : float) : Packet :=
  mkPacket B (GaugeV (mkGaugeData true true d)) "g" 1.

(** max(0, x) on float64. *)
Definition float_max0 (x : float) : float := if (x <? 0)%float then 0%float else x.

(** v0 - d_1 - ... - d_n, from left to right in float64. *)
Definition subtract_all (v0 : float) (ds : list float) : float :=
  foldl (fun a d => (a - d)%float) v0 ds.

(** x >= 0 as float64 decides it. *)
Definition nonneg (x : float) : Prop := (0 <=? x)%float = true.

(** What the stored value [v] and the unclamped accumulator [a] have in
    common: they agree while the accumulator is not negative, the stored
    value is 0 once it is, and both are NaN after infinity - infinity. *)
Definition clamped (v a : float) : Prop :=
  (v = a /\ nonneg a) \/ (v = 0%float /\ (a <? 0)%float = true)
  \/ (v = a /\ Prim2SF a = S754_nan).

(** Scenario 3 of the specification, after g:+5|g: the deltas g:-2|g and
    g:-10|g on the stored value 5. *)
Definition scenario3_state : State := mkState ∅ {["stats.gauges.g" := 5%float]} ∅ ∅ ∅.

(** ** Events of the parser *)

(** The dynamic type of the value that [packetHandler] asserts for each
    modifier it has a case for. *)
Definition well_typed (p : Packet) : Prop :=
  (Modifier p = "ms" -> exists f, Value p = FloatV f)
  /\ (Modifier p = "g" -> exists g, Value p = GaugeV g)
  /\ (Modifier p = "c" -> exists i, Value p = IntV i)
  /\ (Modifier p = "s" -> exists s, Value p = StringV s).

(** The prefix a bucket gets after the global one, by modifier. *)
Definition sub_prefix (cfg : Config) (m : string) : string :=
  if decide (m = "ms") then prefixTimers cfg
  else if decide (m = "g") then prefixGauges cfg
  else "".

(** The shape of an event: the value type and the prefixes of the bucket
    follow the modifier. *)
Definition event_shape (cfg : Config) (p : Packet) : Prop :=
  well_typed p
  /\ exists name, Bucket p = prefix cfg +:+ sub_prefix cfg (Modifier p) +:+ name.

(** ** Windows of events *)

(** The sample a packet adds to the timer bucket [B], if it is a timer
    event for [B], and the samples of a window, in order. *)
Definition timer_sample (B : string) (p : Packet) : option float :=
  if decide (Modifier p = "ms" /\ Bucket p = B) then
    match Value p with
    | FloatV f => Some f
    | _ => None
    end
  else None.

Definition window_samples (B : string) (ps : list Packet) : list float :=
  omap (timer_sample B) ps.

(** The same for the strings of the set bucket [B]. *)
Definition set_member (B : string) (p : Packet) : option string :=
  if decide (Modifier p = "s" /\ Bucket p = B) then
    match Value p with
    | StringV s => Some s
    | _ => None
    end
  else None.

Definition window_members (B : string) (ps : list Packet) : list string :=
  omap (set_member B) ps.

(** The line of one set bucket. *)
Definition set_line (now : Z) (kv : string * list string) : Line :=
  mkLine tmpl_int [Astr kv.1; Aint (unique_count kv.2); Aint now].

(** What a window adds to a bucket that holds a list: nothing when no
    event is for it, its items after the ones held otherwise. *)
Definition extended {A : Type} (old : option (list A)) (items : list A) : option (list A) :=
  match items with
  | [] => old
  | _ => Some (default [] old ++ items)
  end.

(** Two timer events and three set events of one window. *)
Definition two_timer_events : list Packet :=
  [mkPacket "stats.timers.lat" (FloatV 100) "ms" 1;
   mkPacket "stats.timers.lat" (FloatV 300) "ms" 1].

Definition three_set_events : list Packet :=
  [mkPacket "stats.users" (StringV "ann") "s" 1;
   mkPacket "stats.users" (StringV "bob") "s" 1;
   mkPacket "stats.users" (StringV "ann") "s" 1].

Definition users_state : State :=
  mkState ∅ ∅ ∅ ∅ {["stats.users" := ["ann"; "bob"; "ann"]]}.

(** The default flags with the receive counter stats.received. *)
Definition counting_config : Config :=
  mkConfig "127.0.0.1:2003" false 60 "stats.received" [] "stats." "timers." "gauges.".

(** The default flags with -receive-counter=stats.foo, the bucket of the
    counter foo. *)
Definition counting_foo_config : Config :=
  mkConfig "127.0.0.1:2003" false 60 "stats.foo" [] "stats." "timers." "gauges.".

(** Modelled following the words of the property: the sampling rate of a
    line is the float32 of the number that follows "|@" right after the
    type; it is 1 when the type is not followed by "|@", and when what
    follows "|@" is no number. *)
Definition rate_of (ParseFloat32 : string -> option float) (rest : string) : float :=
  match rest with
  | String "|" (String "@" r) =>
      match ParseFloat32 r with
      | Some rate => F32.of_f64 rate
      | None => 1%float
      end
  | _ => 1%float
  end.

(** The default flags with -debug, a network whose write fails and one
    whose dial fails. *)
Definition debug_config : Config :=
  mkConfig "127.0.0.1:2003" true 60 "" [] "stats." "timers." "gauges.".

Definition failing_write : Net := mkNet None None (Some "broken pipe").

Definition failing_dial : Net := mkNet (Some "connection refused") None None.

(** ** Paths of the HTTP interface *)

(** The number of bytes [c] in [s]. *)
Fixpoint count_byte (c : ascii) (s : string) : nat :=
  match s with
  | EmptyString => O
  | String a s' => (if decide (a = c) then 1 else 0) + count_byte c s'
  end.

(** The strings of [l] with [sep] between them. *)
Fixpoint join_with (sep : string) (l : list string) : string :=
  match l with
  | [] => ""
  | [x] => x
  | x :: l' => x +:+ sep +:+ join_with sep l'
  end.

(** The wire type of a stat type of the HTTP interface. *)
Definition type_code (stat_type : string) : option string :=
  if decide (stat_type = "count") then Some "c"
  else if decide (stat_type = "time") then Some "ms"
  else if decide (stat_type = "gauge") then Some "g"
  else None.

(** The stat name of a request: the segments before the type joined by
    dots, a dot and the name; the name alone when that joined text is
    empty. *)
Definition stat_name (segs : list string) (name : string) : string :=
  match join_with "." segs with
  | EmptyString => name
  | dotted => dotted +:+ "." +:+ name
  end.

(** ** Runs of the monitor *)

(** The text [line] stands in the bytes [bytes] where a line starts: at
    the beginning of the bytes, or right after a newline. *)
Definition holds_line (bytes line : string) : Prop :=
  exists before after,
    bytes = before +:+ line +:+ after
    /\ (before = "" \/ exists b, before = b +:+ nl).

(** A network that lets the flush through. *)
Definition working_net : Net := mkNet None None None.

(** A value received that is no signal. *)
Definition no_signal (e : Received) : Prop :=
  match e with
  | Signal _ _ => False
  | _ => True
  end.

(** One counter event before a flush whose dial fails, one after it. *)
Definition first_window : list Packet := [mkPacket "stats.foo" (IntV 1) "c" 1].
Definition second_window : list Packet := [mkPacket "stats.foo" (IntV 2) "c" 1].

(** ** Counter events without a sampling rate *)

(** The integer of a counter event for the bucket [B], and the integers
    of a window, in order. *)
Definition counter_value (B : string) (p : Packet) : option Z :=
  if decide (Modifier p = "c" /\ Bucket p = B) then
    match Value p with
    | IntV v => Some v
    | _ => None
    end
  else None.

Definition window_values (B : string) (ps : list Packet) : list Z :=
  omap (counter_value B) ps.

(** A counter event for [B] that has the sampling rate 1 and an integer
    of less than 54 bits; any other packet passes. *)
Definition plain_count (B : string) (p : Packet) : Prop :=
  forall v, counter_value B p = Some v -> Sampling p = 1%float /\ Z.abs v < 2 ^ 53.

(** ** Safety of the loop *)

(** No timer bucket is empty. *)
Definition no_empty_bucket (st : State) : Prop :=
  forall u, timers st !! u <> Some [].

(** The packets among the values received. *)
Definition packets_of (received : list Received) : list Packet :=
  omap (fun e => match e with FromIn s => Some s | _ => None end) received.

(** ** The percentile 100 *)


(** * Properties *)

(** ** Loops over a table that delete what they visit *)

Section RangeDelete.

Context {V : Type}.

Lemma delete_visited_lookup (l : list (string * V)) (m : gmap string V) (k : string) :
  delete_visited m l !! k = if decide (k ∈ l.*1) then None else m !! k.
Proof.
  unfold delete_visited. revert m.
  induction l as [|[k' v] l IH]; intros m; [done|].
  rewrite fmap_cons. cbn [foldl fst]. rewrite IH.
  destruct (decide (k = k')) as [->|Hne].
  - rewrite lookup_delete_eq, (decide_True (P := k' ∈ k' :: l.*1)) by (apply elem_of_cons; by left).
    by case_decide.
  - rewrite lookup_delete_ne by done.
    destruct (decide (k ∈ l.*1)) as [Hin|Hnin].
    + by rewrite decide_True by (apply elem_of_cons; by right).
    + rewrite decide_False; [done|].
      intros [?|?]%elem_of_cons; done.
Qed.

Lemma delete_visited_all (m : gmap string V) : delete_visited m (map_to_list m) = ∅.
Proof.
  apply map_eq. intros k. rewrite delete_visited_lookup, lookup_empty.
  case_decide as H; [done|].
  destruct (m !! k) as [v|] eqn:E; [|done].
  exfalso. apply H. apply list_elem_of_fmap. exists (k, v). split; [done|].
  by apply elem_of_map_to_list.
Qed.

End RangeDelete.

(** ** The gauges emitter *)

Lemma gauges_loop now (l : list (string * float)) buffer num gs :
  foldl (gauges_step now) (buffer, num, gs) l
  = (buffer ++ (gauge_line now <$> l), num + Z.of_nat (length l), delete_visited gs l).
Proof.
  revert buffer num gs. induction l as [|kv l IH]; intros buffer num gs.
  - cbn. by rewrite app_nil_r, Z.add_0_r.
  - cbn [foldl gauges_step]. rewrite IH. unfold Fprintf, delete_visited.
    rewrite <- app_assoc, fmap_cons. cbn [foldl app length].
    replace (num + Z.of_nat (S (length l))) with (num + 1 + Z.of_nat (length l)) by lia.
    reflexivity.
Qed.

Lemma processGauges_eq buffer now st :
  processGauges buffer now st
  = (buffer ++ (gauge_line now <$> map_to_list (gauges st)),
     Z.of_nat (size (gauges st)),
     mkState (counters st) ∅ (timers st) (countInactivity st) (sets st)).
Proof.
  unfold processGauges. rewrite gauges_loop, delete_visited_all.
  by rewrite length_map_to_list.
Qed.

Lemma string_length_append (s1 s2 : string) :
  String.length (s1 +:+ s2) = (String.length s1 + String.length s2)%nat.
Proof. induction s1 as [|a s1 IH]; simpl; [done|]. by rewrite IH. Qed.

Lemma last_digits_length w n : String.length (last_digits w n) = w.
Proof.
  revert n. induction w as [|w IH]; intros n; simpl; [done|].
  rewrite string_length_append, IH. simpl. lia.
Qed.

(** [%.pf] prints exactly p digits after the point. *)
Lemma format_float_decimals p x :
  is_finite_repr x -> p <> O ->
  exists sign whole frac,
    format_float p x = sign +:+ whole +:+ "." +:+ frac /\ String.length frac = p.
Proof.
  unfold is_finite_repr, format_float. intros Hfin Hp.
  destruct (Prim2SF x) as [s|s| |s m e]; try done.
  - exists (if s then "-" else ""). exists (pretty (0 / 10 ^ Z.of_nat p)).
    exists (last_digits p 0).
    split; [|apply last_digits_length].
    unfold fixed_digits. destruct p; [done|]. reflexivity.
  - exists (if s then "-" else ""). exists (pretty (scaled_decimal p m e / 10 ^ Z.of_nat p)).
    exists (last_digits p (scaled_decimal p m e)).
    split; [|apply last_digits_length].
    unfold fixed_digits. destruct p; [done|]. reflexivity.
Qed.

(** C9 (as amended): every gauge of the table is written by the gauges
    emitter through the template "%s %f %d\n", so its value carries the
    six decimals of %f, and the gauge table is empty afterwards. *)
Theorem gauge_lines_have_six_decimals buffer now st g c :
  gauges st !! g = Some c ->
  mkLine tmpl_gauge [Astr g; Afloat c; Aint now] ∈ (processGauges buffer now st).1.1
  /\ render (mkLine tmpl_gauge [Astr g; Afloat c; Aint now])
     = g +:+ " " +:+ format_float 6 c +:+ " " +:+ pretty now +:+ nl
  /\ (is_finite_repr c ->
      exists sign whole frac,
        format_float 6 c = sign +:+ whole +:+ "." +:+ frac /\ String.length frac = 6%nat)
  /\ gauges (processGauges buffer now st).2 = ∅.
Proof.
  intros Hg. rewrite processGauges_eq. cbn [fst snd gauges].
  repeat split.
  - apply elem_of_app. right.
    apply (list_elem_of_fmap_2' (gauge_line now) _ (g, c)); [|done].
    by apply elem_of_map_to_list.
  - intros Hfin. by apply format_float_decimals.
Qed.

Lemma gauge_lines_have_six_decimals_witness :
  gauges gauge_zero_state !! "g" = Some 0%float
  /\ mkLine tmpl_gauge [Astr "g"; Afloat 0; Aint 7] ∈ (processGauges [] 7 gauge_zero_state).1.1.
Proof.
  split; [reflexivity|].
  apply (gauge_lines_have_six_decimals [] 7 gauge_zero_state "g" 0%float). reflexivity.
Defined.

(** C9 as stated fails: the gauge g = 0 is flushed as "g 0.000000 7", and
    not with the two decimals "0.00" of the timer lines. *)
Lemma gauge_zero_is_not_two_decimals :
  Bytes (processGauges [] 7 gauge_zero_state).1.1 = "g 0.000000 7" +:+ nl
  /\ Bytes (processGauges [] 7 gauge_zero_state).1.1
     <> "g " +:+ format_float 2 0 +:+ " 7" +:+ nl.
Proof. split; [by vm_compute|]. vm_compute. discriminate. Qed.

(** ** submit *)

(** C8: with the graphite address "-", submit returns nil, leaves the five
    tables as they were and hands nothing to the network. *)
Theorem submit_disabled_is_noop cfg net now st :
  graphiteAddress cfg = "-" ->
  submit cfg net now st = Some (mkOutcome None st None).
Proof. intros H. unfold submit. by rewrite decide_True. Qed.

Lemma submit_disabled_is_noop_witness :
  graphiteAddress disabled_config = "-"
  /\ submit disabled_config (mkNet None None None) 7 gauge_zero_state
     = Some (mkOutcome None gauge_zero_state None).
Proof.
  split; [reflexivity|].
  apply (submit_disabled_is_noop disabled_config (mkNet None None None) 7 gauge_zero_state).
  reflexivity.
Defined.

(** C7: when flushing is enabled, debug is off and net.Dial fails, submit
    returns the dial error, writes nothing and leaves every table as it
    was. *)
Theorem submit_dial_failure_keeps_tables cfg net now st err :
  graphiteAddress cfg <> "-" ->
  debug cfg = false ->
  dial_err net = Some err ->
  submit cfg net now st
  = Some (mkOutcome (Some (DialFailed (graphiteAddress cfg) err)) st None).
Proof.
  intros Haddr Hdebug Hdial. unfold submit.
  rewrite decide_False by done. by rewrite Hdial, Hdebug.
Qed.

Lemma submit_dial_failure_keeps_tables_witness :
  graphiteAddress default_config <> "-"
  /\ debug default_config = false
  /\ submit default_config (mkNet (Some "connection refused") None None) 7 gauge_zero_state
     = Some (mkOutcome (Some (DialFailed "127.0.0.1:2003" "connection refused"))
               gauge_zero_state None).
Proof.
  split; [discriminate|]. split; [reflexivity|].
  apply (submit_dial_failure_keeps_tables default_config
           (mkNet (Some "connection refused") None None) 7 gauge_zero_state
           "connection refused"); [discriminate|reflexivity|reflexivity].
Defined.

(** ** The counters emitter *)

Lemma reset_visited_lookup (l : list (string * Z)) ci k :
  reset_visited ci l !! k = if decide (k ∈ l.*1) then Some 0 else ci !! k.
Proof.
  unfold reset_visited. revert ci.
  induction l as [|[k' v] l IH]; intros ci; [done|].
  rewrite fmap_cons. cbn [foldl fst]. rewrite IH.
  destruct (decide (k ∈ l.*1)) as [Hin|Hnin].
  - by rewrite decide_True by (apply elem_of_cons; by right).
  - destruct (decide (k = k')) as [->|Hne].
    + by rewrite lookup_insert_eq, decide_True by (apply elem_of_cons; by left).
    + rewrite lookup_insert_ne by done.
      rewrite decide_False; [done|]. by intros [?|?]%elem_of_cons.
Qed.

Lemma counters_loop now (l : list (string * Z)) buffer num cs ci :
  foldl (counters_step now) (buffer, num, cs, ci) l
  = (buffer ++ (counter_line now <$> l), num + Z.of_nat (length l),
     delete_visited cs l, reset_visited ci l).
Proof.
  revert buffer num cs ci. induction l as [|kv l IH]; intros buffer num cs ci.
  - cbn. by rewrite app_nil_r, Z.add_0_r.
  - cbn [foldl counters_step]. rewrite IH. unfold Fprintf, delete_visited, reset_visited.
    rewrite <- app_assoc, fmap_cons. cbn [foldl app length].
    replace (num + Z.of_nat (S (length l))) with (num + 1 + Z.of_nat (length l)) by lia.
    reflexivity.
Qed.

Lemma inactivity_step_eq cfg now buffer num ci k v :
  ci !! k = Some v ->
  inactivity_step cfg now (buffer, num, ci) (k, v)
  = (buffer ++ zero_lines now [(k, v)],
     num + Z.of_nat (length (zero_lines now [(k, v)])),
     ticked cfg ci [(k, v)]).
Proof.
  intros Hk. unfold inactivity_step, zero_lines, ticked, tick, Fprintf.
  cbn [fst snd foldl omap]. rewrite Hk. cbn [default].
  rewrite lookup_insert_eq. unfold id. cbn -[Int64.add Z.ltb].
  destruct (0 <? v); destruct (persistCountKeys cfg <? Int64.add v 1);
    cbn -[Int64.add]; rewrite ?app_nil_r, ?Z.add_0_r, ?delete_insert_eq; reflexivity.
Qed.

Lemma ticked_lookup_other cfg (l : list (string * Z)) ci k :
  k ∉ l.*1 -> ticked cfg ci l !! k = ci !! k.
Proof.
  unfold ticked. revert ci. induction l as [|[k' v] l IH]; intros ci Hk; [done|].
  rewrite fmap_cons in Hk. cbn [foldl fst snd].
  rewrite IH by (intros ?; apply Hk, elem_of_cons; by right).
  assert (k' <> k) by (intros ->; apply Hk, elem_of_cons; by left).
  destruct (tick cfg v); [by rewrite lookup_insert_ne|by rewrite lookup_delete_ne].
Qed.

Lemma ticked_lookup_visited cfg (l : list (string * Z)) ci k v :
  NoDup l.*1 -> (k, v) ∈ l -> ticked cfg ci l !! k = tick cfg v.
Proof.
  unfold ticked. revert ci. induction l as [|[k' v'] l IH]; intros ci Hnd Hin.
  - by apply elem_of_nil in Hin.
  - rewrite fmap_cons in Hnd. apply NoDup_cons in Hnd as [Hk' Hnd].
    cbn [foldl fst snd]. apply elem_of_cons in Hin as [Heq|Hin].
    + injection Heq as -> ->.
      fold (ticked cfg (match tick cfg v' with
                        | Some v'0 => <[k':=v'0]> ci
                        | None => delete k' ci
                        end) l).
      rewrite ticked_lookup_other by done.
      destruct (tick cfg v'); [by rewrite lookup_insert_eq|by rewrite lookup_delete_eq].
    + by apply IH.
Qed.

Lemma zero_lines_cons now kv (l : list (string * Z)) :
  zero_lines now (kv :: l) = zero_lines now [kv] ++ zero_lines now l.
Proof. unfold zero_lines. cbn. by destruct (0 <? kv.2). Qed.

Lemma inactivity_loop cfg now (l : list (string * Z)) buffer num ci :
  NoDup l.*1 ->
  (forall k v, (k, v) ∈ l -> ci !! k = Some v) ->
  foldl (inactivity_step cfg now) (buffer, num, ci) l
  = (buffer ++ zero_lines now l, num + Z.of_nat (length (zero_lines now l)),
     ticked cfg ci l).
Proof.
  revert buffer num ci. induction l as [|[k v] l IH]; intros buffer num ci Hnd Hl.
  - cbn. by rewrite app_nil_r, Z.add_0_r.
  - rewrite fmap_cons in Hnd. apply NoDup_cons in Hnd as [Hk Hnd].
    cbn [foldl]. rewrite inactivity_step_eq by (apply Hl, elem_of_cons; by left).
    rewrite IH; [|done|].
    + rewrite (zero_lines_cons now (k, v) l).
      rewrite <- app_assoc, length_app, Nat2Z.inj_add, Z.add_assoc. reflexivity.
    + intros k1 v1 Hin. rewrite ticked_lookup_other.
      * apply Hl, elem_of_cons. by right.
      * cbn. intros ->%list_elem_of_singleton. apply Hk.
        apply list_elem_of_fmap. by exists (k, v1).
Qed.

Lemma reset_tickers_lookup st k :
  reset_tickers st !! k
  = match counters st !! k with Some _ => Some 0 | None => countInactivity st !! k end.
Proof.
  unfold reset_tickers. rewrite reset_visited_lookup.
  destruct (counters st !! k) as [v|] eqn:E.
  - rewrite decide_True; [done|]. apply list_elem_of_fmap. exists (k, v).
    split; [done|]. by apply elem_of_map_to_list.
  - rewrite decide_False; [done|].
    intros [[k' v] [Hk Hin]]%list_elem_of_fmap. cbn in Hk. subst k'.
    apply elem_of_map_to_list in Hin. congruence.
Qed.

Lemma processCounters_eq cfg buffer now st :
  processCounters cfg buffer now st
  = ((buffer ++ (counter_line now <$> map_to_list (counters st)))
       ++ zero_lines now (map_to_list (reset_tickers st)),
     0 + Z.of_nat (length (map_to_list (counters st)))
       + Z.of_nat (length (zero_lines now (map_to_list (reset_tickers st)))),
     mkState ∅ (gauges st) (timers st)
       (ticked cfg (reset_tickers st) (map_to_list (reset_tickers st))) (sets st)).
Proof.
  unfold processCounters. rewrite counters_loop.
  fold (reset_tickers st).
  rewrite inactivity_loop.
  - by rewrite delete_visited_all.
  - apply NoDup_fst_map_to_list.
  - intros k v. apply elem_of_map_to_list.
Qed.

Lemma ticked_all_lookup cfg (ci : gmap string Z) k :
  ticked cfg ci (map_to_list ci) !! k = ci !! k ≫= tick cfg.
Proof.
  destruct (ci !! k) as [v|] eqn:E; cbn.
  - apply ticked_lookup_visited; [apply NoDup_fst_map_to_list|].
    by apply elem_of_map_to_list.
  - rewrite ticked_lookup_other; [done|].
    intros [[k' v] [Hk Hin]]%list_elem_of_fmap. cbn in Hk. subst k'.
    apply elem_of_map_to_list in Hin. congruence.
Qed.

Lemma elem_of_zero_lines now (l : list (string * Z)) line :
  line ∈ zero_lines now l <-> exists k v, (k, v) ∈ l /\ 0 < v /\ line = zero_line now k.
Proof.
  unfold zero_lines. rewrite list_elem_of_omap. split.
  - intros [[k v] [Hin Hsome]]. cbn in Hsome.
    destruct (0 <? v) eqn:E; [|done]. injection Hsome as <-.
    exists k, v. repeat split; [done|lia].
  - intros (k & v & Hin & Hv & ->). exists (k, v). split; [done|].
    cbn. destruct (0 <? v) eqn:E; [done|lia].
Qed.

(** The lines of one flush that carry the bucket [B]: its value, when it
    is a live counter, and a zero, when its ticker is positive. *)
Lemma processCounters_lines cfg now st B v :
  mkLine tmpl_int [Astr B; Aint v; Aint now] ∈ (processCounters cfg [] now st).1.1
  <-> counters st !! B = Some v
      \/ (v = 0 /\ exists p, reset_tickers st !! B = Some p /\ 0 < p).
Proof.
  rewrite processCounters_eq. cbn [fst]. rewrite app_nil_l, elem_of_app.
  rewrite list_elem_of_fmap, elem_of_zero_lines. split.
  - intros [[[k w] [Heq Hin]]|(k & p & Hin & Hp & Heq)].
    + left. injection Heq as -> ->. by apply elem_of_map_to_list.
    + right. injection Heq as -> ->. split; [done|]. exists p.
      split; [by apply elem_of_map_to_list|done].
  - intros [Hc|[-> (p & Hp & Hpos)]].
    + left. exists (B, v). split; [done|]. by apply elem_of_map_to_list.
    + right. exists B, p. split; [by apply elem_of_map_to_list|done].
Qed.

Lemma processCounters_tickers cfg buffer now st B :
  countInactivity (processCounters cfg buffer now st).2 !! B
  = reset_tickers st !! B ≫= tick cfg.
Proof. rewrite processCounters_eq. cbn [snd countInactivity]. apply ticked_all_lookup. Qed.

Lemma wrap_in_range z : Int64.min_int <= z <= Int64.max_int -> Int64.wrap z = z.
Proof.
  unfold Int64.wrap, Int64.min_int, Int64.max_int.
  change (2 ^ 63) with 9223372036854775808. change (2 ^ 64) with 18446744073709551616.
  intros H. rewrite Z.mod_small; lia.
Qed.

(** *** Counter inactivity

    A run of flushes: [sts k] are the tables when the counters emitter
    runs for the k-th time after the flush 0 that emitted the value of
    [B], and [nows k] is the time of that flush.  Between two flushes
    anything may happen to the tables except to [countInactivity], which
    only the emitter writes, and [B] receives no counter event, so it is
    no key of [counters] at the later flushes. *)

Section Inactivity.

Variable cfg : Config.
Variable B : string.
Variable sts : nat -> State.
Variable nows : nat -> Z.

Hypothesis persist_range : persistCountKeys cfg < Int64.max_int.
Hypothesis live : is_Some (counters (sts O) !! B).
Hypothesis chain : forall k,
  countInactivity (sts (S k)) = countInactivity (processCounters cfg [] (nows k) (sts k)).2.
Hypothesis quiet : forall k, counters (sts (S k)) !! B = None.



End Inactivity.



(** ** Counters within one window *)

Lemma wrap_add_wrap a b : Int64.wrap (Int64.wrap a + b) = Int64.wrap (a + b).
Proof.
  unfold Int64.wrap.
  replace ((a + 2 ^ 63) mod 2 ^ 64 - 2 ^ 63 + b + 2 ^ 63)
    with ((a + 2 ^ 63) mod 2 ^ 64 + b) by lia.
  rewrite Zplus_mod_idemp_l. f_equal. f_equal. lia.
Qed.

Lemma bump_receive_other rc cs B : rc <> B -> bump_receive rc cs !! B = cs !! B.
Proof.
  intros Hne. unfold bump_receive. case_decide; [done|].
  rewrite lookup_insert_ne by done.
  destruct (cs !! rc) as [v|]; [destruct (v <? 0)|]; by rewrite ?lookup_insert_ne.
Qed.

Lemma packetHandler_counter cfg p st st' B :
  receiveCounter cfg <> B ->
  packetHandler cfg p st = Some st' ->
  counters st' !! B
  = match counter_amount B p with
    | Some a => accumulate (counters st !! B) a
    | None => counters st !! B
    end.
Proof.
  intros Hrc. unfold packetHandler, counter_amount, accumulate. cbn [counters].
  destruct (decide (Modifier p = "ms")) as [Hms|_].
  { rewrite decide_False by (rewrite Hms; intros [? _]; done).
    destruct (Value p); intros Heq; simplify_eq; cbn [counters]. by apply bump_receive_other. }
  destruct (decide (Modifier p = "g")) as [Hg|_].
  { rewrite decide_False by (rewrite Hg; intros [? _]; done).
    destruct (Value p); intros Heq; simplify_eq; cbn [counters]. by apply bump_receive_other. }
  destruct (decide (Modifier p = "c")) as [Hc|Hnc].
  { destruct (Value p) as [v| | |]; intros Heq; simplify_eq; cbn [counters].
    destruct (decide (Bucket p = B)) as [Hb|Hnb].
    - rewrite decide_True by done. rewrite Hb, lookup_insert_eq.
      by rewrite bump_receive_other.
    - rewrite decide_False by (intros [_ ?]; done).
      rewrite lookup_insert_ne by done. by apply bump_receive_other. }
  rewrite (decide_False (P := Modifier p = "c" /\ Bucket p = B)) by (intros [? _]; done).
  destruct (decide (Modifier p = "s")) as [Hs|_].
  { destruct (Value p); intros Heq; simplify_eq; cbn [counters]. by apply bump_receive_other. }
  intros [= <-]. cbn [counters]. by apply bump_receive_other.
Qed.

Lemma handle_all_counter cfg ps st st' B :
  receiveCounter cfg <> B ->
  handle_all cfg ps st = Some st' ->
  counters st' !! B = foldl accumulate (counters st !! B) (window_amounts B ps).
Proof.
  intros Hrc. revert st. induction ps as [|p ps IH]; intros st Hrun.
  - injection Hrun as <-. done.
  - cbn [handle_all] in Hrun.
    destruct (packetHandler cfg p st) as [st1|] eqn:Hp; [|done].
    rewrite (IH _ Hrun), (packetHandler_counter _ _ _ _ _ Hrc Hp).
    unfold window_amounts. cbn [omap list_omap].
    change (list_omap _ _ (counter_amount B) ps) with (omap (counter_amount B) ps).
    by destruct (counter_amount B p).
Qed.

Lemma accumulate_sum (l : list Z) (x : Z) :
  foldl accumulate (Some (Int64.wrap x)) l = Some (Int64.wrap (x + sum_Z l)).
Proof.
  revert x. induction l as [|a l IH]; intros x.
  - cbn. by rewrite Z.add_0_r.
  - cbn [foldl sum_Z foldr]. unfold accumulate at 2. cbn [default]. unfold id, Int64.add.
    rewrite wrap_add_wrap, IH. f_equal. f_equal. unfold sum_Z. lia.
Qed.

Lemma accumulate_fresh (l : list Z) :
  l <> [] -> foldl accumulate None l = Some (Int64.wrap (sum_Z l)).
Proof.
  destruct l as [|a l]; [done|]. intros _.
  cbn [foldl]. unfold accumulate at 2. cbn [default]. unfold id, Int64.add.
  rewrite Z.add_0_l, accumulate_sum. done.
Qed.

(** C2 (as amended): for a counter bucket [B] other than the bucket of
    the receive counter, that is absent when the window opens and
    receives at least one counter event in it, the flush emits for [B]
    exactly the line whose value is the int64 sum of the amounts
    int64(float64(d_i) * float64(1/r_i)), the reciprocal of the sampling
    rate being taken in float32. *)
Theorem counter_flush_value cfg ps st st' B now :
  receiveCounter cfg <> B ->
  counters st !! B = None ->
  handle_all cfg ps st = Some st' ->
  window_amounts B ps <> [] ->
  forall v, mkLine tmpl_int [Astr B; Aint v; Aint now] ∈ (processCounters cfg [] now st').1.1
            <-> v = Int64.wrap (sum_Z (window_amounts B ps)).
Proof.
  intros Hrc Hfresh Hrun Hsome v.
  pose proof (handle_all_counter _ _ _ _ _ Hrc Hrun) as Hc.
  rewrite Hfresh, accumulate_fresh in Hc by done.
  rewrite processCounters_lines, reset_tickers_lookup, Hc. split.
  - intros [[= <-]|[_ (p & [= <-] & ?)]]; [done|lia].
  - intros ->. by left.
Qed.

Lemma counter_flush_value_witness :
  window_amounts "stats.foo" scenario1_packets = [1; 4]
  /\ (forall v, mkLine tmpl_int [Astr "stats.foo"; Aint v; Aint 7]
                 ∈ (processCounters default_config [] 7
                      (default empty_state
                         (handle_all default_config scenario1_packets empty_state))).1.1
               <-> v = Int64.wrap (sum_Z (window_amounts "stats.foo" scenario1_packets))).
Proof.
  split; [by vm_compute|].
  apply (counter_flush_value default_config scenario1_packets empty_state _ "stats.foo" 7).
  - discriminate.
  - reflexivity.
  - by vm_compute.
  - by vm_compute.
Defined.

(** C2 as stated fails: the single event foo:25|c|@0.390625 (the rate is
    25/64, a float32) has trunc(25 / 0.390625) = 64, and the flush emits
    63, because float32(1/0.390625) lies below 2.56. *)
Lemma counter_sampling_not_exact_quotient :
  exact_quotient_trunc 25 0.390625 = Some 64
  /\ (handle_all default_config [mkPacket "stats.foo" (IntV 25) "c" 0.390625] empty_state
        ≫= fun st => Some (Bytes (processCounters default_config [] 7 st).1.1))
     = Some ("stats.foo 63 7" +:+ nl).
Proof. split; by vm_compute. Qed.

(** The bucket of the receive counter is counted apart: with
    -receive-counter=stats.foo the one event foo:1|c is flushed as 2, the
    amount 1 and the one event received. *)
Lemma receive_counter_bucket_counts_events :
  (handle_all counting_foo_config [mkPacket "stats.foo" (IntV 1) "c" 1] empty_state
     ≫= fun st => Some (Bytes (processCounters counting_foo_config [] 7 st).1.1))
  = Some ("stats.foo 2 7" +:+ nl).
Proof. by vm_compute. Qed.

(** ** The order of float64 *)

Lemma SFcompare_finite_pos e1 m1 e2 m2 :
  SFcompare (S754_finite false m1 e1) (S754_finite false m2 e2)
  = Some (match e1 ?= e2 with Lt => Lt | Gt => Gt | Eq => (m1 ?= m2)%positive end).
Proof. reflexivity. Qed.

(** [SFleb] is the lexicographic order on sign, exponent and mantissa; it
    is transitive on every representation. *)
Lemma SFleb_trans x y z : SFleb x y = true -> SFleb y z = true -> SFleb x z = true.
Proof.
  unfold SFleb, SFcompare.
  destruct x as [[]|[]| |[] mx ex], y as [[]|[]| |[] my ey], z as [[]|[]| |[] mz ez];
    try done;
    change (Pos.compare_cont Eq) with Pos.compare;
    destruct (Z.compare_spec ex ey); destruct (Z.compare_spec ey ez);
    destruct (Z.compare_spec ex ez); try done; try lia; subst;
    destruct (Pos.compare_spec mx my); destruct (Pos.compare_spec my mz);
    destruct (Pos.compare_spec mx mz); try done; lia.
Qed.

Lemma SFleb_total x y :
  x <> S754_nan -> y <> S754_nan -> SFltb x y = false -> SFleb y x = true.
Proof.
  unfold SFleb, SFltb, SFcompare.
  destruct x as [[]|[]| |[] mx ex], y as [[]|[]| |[] my ey]; try done;
    change (Pos.compare_cont Eq) with Pos.compare;
    rewrite (Z.compare_antisym ex ey), (Pos.compare_antisym mx my);
    destruct (ex ?= ey); try done; destruct (mx ?= my)%positive; done.
Qed.

Lemma SFltb_leb x y : SFltb x y = true -> SFleb x y = true.
Proof. unfold SFleb, SFltb. by destruct (SFcompare x y) as [[]|]. Qed.

Lemma SFleb_not_nan x y : SFleb x y = true -> x <> S754_nan /\ y <> S754_nan.
Proof. unfold SFleb. destruct x as [[]|[]| |[] mx ex], y as [[]|[]| |[] my ey]; done. Qed.

Lemma not_nan_repr x : not_nan x -> Prim2SF x <> S754_nan.
Proof.
  unfold not_nan, F64.is_nan, PrimFloat.is_nan. rewrite FloatAxioms.eqb_spec. intros H E.
  rewrite E in H. done.
Qed.

Lemma leb_trans (x y z : float) :
  (x <=? y)%float = true -> (y <=? z)%float = true -> (x <=? z)%float = true.
Proof. rewrite !FloatAxioms.leb_spec. apply SFleb_trans. Qed.

Lemma leb_total (x y : float) :
  not_nan x -> not_nan y -> Less x y = false -> (y <=? x)%float = true.
Proof.
  unfold Less. rewrite FloatAxioms.ltb_spec, FloatAxioms.leb_spec. intros Hx Hy.
  apply SFleb_total; by apply not_nan_repr.
Qed.

Lemma Less_leb (x y : float) : Less x y = true -> (x <=? y)%float = true.
Proof. unfold Less. rewrite FloatAxioms.ltb_spec, FloatAxioms.leb_spec. apply SFltb_leb. Qed.

Lemma leb_refl (x : float) : not_nan x -> (x <=? x)%float = true.
Proof.
  intros Hx. apply leb_total; [done..|].
  unfold Less. rewrite FloatAxioms.ltb_spec. unfold SFltb, SFcompare.
  destruct (Prim2SF x) as [[]|[]| |[] mx ex]; try done;
    change (Pos.compare_cont Eq) with Pos.compare;
    by rewrite Z.compare_refl, Pos.compare_refl.
Qed.

(** ** sort.Sort *)

Lemma sort_insert_perm x l : sort_insert x l ≡ₚ x :: l.
Proof.
  induction l as [|y l IH]; cbn [sort_insert]; [done|].
  destruct (Less x y); [|done]. rewrite IH. apply Permutation_swap.
Qed.

Lemma sort_loop_perm t before :
  foldl (fun before x => sort_insert x before) before t ≡ₚ before ++ t.
Proof.
  revert before. induction t as [|x t IH]; intros before; cbn [foldl].
  - by rewrite app_nil_r.
  - rewrite IH, sort_insert_perm. cbn [app]. apply Permutation_middle.
Qed.

Lemma sort_Sort_perm t : sort_Sort t ≡ₚ t.
Proof. unfold sort_Sort. by rewrite <- Permutation_rev, sort_loop_perm. Qed.

Lemma sort_Sort_length t : length (sort_Sort t) = length t.
Proof. by rewrite sort_Sort_perm. Qed.

(** The inner loop keeps the part before data[i] in order. *)
Lemma sort_insert_descending x l :
  not_nan x -> Forall not_nan l -> descending l -> descending (sort_insert x l).
Proof.
  intros Hx. induction l as [|y l IH]; intros Hl Hd; cbn [sort_insert].
  - by split.
  - apply Forall_cons in Hl as [Hy Hl]. destruct Hd as [Hyl Hd].
    destruct (Less x y) eqn:E.
    + split; [|by apply IH].
      rewrite sort_insert_perm. apply Forall_cons. split; [by apply Less_leb|done].
    + split; [|by split]. apply Forall_cons. split; [by apply leb_total|].
      eapply Forall_impl; [exact Hyl|]. intros z Hz. cbn in Hz.
      eapply leb_trans; [done|by apply leb_total].
Qed.

Lemma sort_loop_descending t before :
  Forall not_nan t -> Forall not_nan before -> descending before ->
  descending (foldl (fun before x => sort_insert x before) before t).
Proof.
  revert before. induction t as [|x t IH]; intros before Ht Hb Hd; [done|].
  apply Forall_cons in Ht as [Hx Ht]. cbn [foldl]. apply IH; [done| |].
  - rewrite sort_insert_perm. by apply Forall_cons.
  - by apply sort_insert_descending.
Qed.

Lemma ascending_snoc l x :
  ascending l -> Forall (fun y => (y <=? x)%float = true) l -> ascending (l ++ [x]).
Proof.
  induction l as [|y l IH]; intros Hasc Hl; [by split|].
  destruct Hasc as [Hy Hasc]. apply Forall_cons in Hl as [Hyx Hl].
  cbn [app ascending]. split; [|by apply IH].
  apply Forall_app. split; [done|]. by apply Forall_singleton.
Qed.

Lemma descending_rev l : descending l -> ascending (rev l).
Proof.
  induction l as [|x l IH]; [done|]. intros [Hx Hd]. cbn [rev].
  apply ascending_snoc; [by apply IH|]. by rewrite <- Permutation_rev.
Qed.

Lemma sort_Sort_ascending t : Forall not_nan t -> ascending (sort_Sort t).
Proof. intros Ht. apply descending_rev. by apply sort_loop_descending. Qed.

Lemma ascending_first l x :
  ascending l -> Forall not_nan l -> l !! O = Some x ->
  forall y, y ∈ l -> (x <=? y)%float = true.
Proof.
  destruct l as [|x' l]; [done|]. intros [Hx _] Hnn [= ->] y Hy.
  apply Forall_cons in Hnn as [Hnx _].
  apply elem_of_cons in Hy as [->|Hy]; [by apply leb_refl|].
  by eapply Forall_forall in Hx.
Qed.

Lemma ascending_last l m :
  ascending l -> Forall not_nan l -> last l = Some m ->
  forall y, y ∈ l -> (y <=? m)%float = true.
Proof.
  induction l as [|x l IH]; [done|]. intros [Hx Hasc] Hnn Hlast y Hy.
  apply Forall_cons in Hnn as [Hnx Hnn].
  destruct l as [|x' l'].
  - injection Hlast as <-. apply list_elem_of_singleton in Hy as ->. by apply leb_refl.
  - change (last (x :: x' :: l')) with (last (x' :: l')) in Hlast.
    apply elem_of_cons in Hy as [->|Hy]; [|by apply IH].
    eapply Forall_forall in Hx; [exact Hx|].
    apply list_elem_of_lookup. exists (Nat.pred (length (x' :: l'))).
    by rewrite <- last_lookup.
Qed.


(** ** The timers emitter *)

Lemma foldl_percentile_None u now t pctls :
  foldl (percentile_step u now t) None pctls = None.
Proof. by induction pctls. Qed.

Lemma percentile_step_eq u now t max buffer m0 pct :
  (Z.of_nat (length t) <= 1 -> m0 = max) ->
  percentile_step u now t (Some (buffer, m0)) pct
  = (l ← percentile_line u now t max pct;
     v ← percentile_value t max pct;
     Some (buffer ++ [l], v)).
Proof.
  intros Hm0. unfold percentile_step, percentile_line, percentile_value, Fprintf.
  cbn [mbind option_bind].
  destruct (Z.ltb_spec 1 (Z.of_nat (length t))) as [Hn|Hn].
  - destruct (at_index t _) as [v|]; cbn [mbind option_bind]; [|done].
    destruct (0 <=? pct_float pct)%float; [done|].
    by destruct (drop_first (pct_str pct)).
  - rewrite (Hm0 Hn). cbn [mbind option_bind].
    destruct (0 <=? pct_float pct)%float; [done|].
    by destruct (drop_first (pct_str pct)).
Qed.

Lemma percentile_value_small t max pct v :
  Z.of_nat (length t) <= 1 -> percentile_value t max pct = Some v -> v = max.
Proof.
  unfold percentile_value. intros Hn.
  destruct (Z.ltb_spec 1 (Z.of_nat (length t))); [lia|]. congruence.
Qed.

Lemma percentile_loop u now t max pctls buffer m0 :
  (Z.of_nat (length t) <= 1 -> m0 = max) ->
  fst <$> foldl (percentile_step u now t) (Some (buffer, m0)) pctls
  = (fun ls => buffer ++ ls) <$> mapM (percentile_line u now t max) pctls.
Proof.
  revert buffer m0. induction pctls as [|pct pctls IH]; intros buffer m0 Hm0.
  - cbn. by rewrite app_nil_r.
  - cbn [foldl mapM]. rewrite (percentile_step_eq u now t max) by done.
    destruct (percentile_line u now t max pct) as [l|] eqn:El; cbn [mbind option_bind];
      [|by rewrite foldl_percentile_None].
    destruct (percentile_value t max pct) as [v|] eqn:Ev; cbn [mbind option_bind].
    + rewrite IH by (intros Hn; by eapply percentile_value_small).
      destruct (mapM _ pctls) as [ls|]; cbn; [|done].
      by rewrite <- app_assoc.
    + unfold percentile_line in El. rewrite Ev in El. done.
Qed.

Lemma timer_bucket_eq pctls now buffer u t0 :
  timer_bucket pctls now buffer u t0
  = (fun ls => buffer ++ ls) <$> timer_lines pctls now u t0.
Proof.
  unfold timer_bucket, timer_lines.
  destruct (at_index (sort_Sort t0) 0) as [min|]; [|done].
  destruct (at_index (sort_Sort t0) (Z.of_nat (length (sort_Sort t0)) - 1)) as [max|]; [|done].
  destruct (at_index (sort_Sort t0) (Z.of_nat (length (sort_Sort t0)) / 2)) as [median|];
    [|done].
  cbn [mbind option_bind].
  pose proof (percentile_loop u now (sort_Sort t0) max pctls buffer max (fun _ => eq_refl)) as H.
  destruct (foldl _ _ pctls) as [[b1 m1]|]; destruct (mapM _ pctls) as [pl|];
    cbn in H; try done.
  injection H as ->. cbn. unfold Fprintf, stat_lines.
  by rewrite <- !app_assoc.
Qed.

Lemma foldl_timers_None pctls now l : foldl (timers_step pctls now) None l = None.
Proof. by induction l. Qed.

Lemma timers_loop pctls now (l : list (string * list float)) buffer num ts :
  foldl (timers_step pctls now) (Some (buffer, num, ts)) l
  = (ls ← mapM (fun kv => timer_lines pctls now kv.1 kv.2) l;
     Some (buffer ++ mjoin ls, num + Z.of_nat (length l), delete_visited ts l)).
Proof.
  revert buffer num ts. induction l as [|kv l IH]; intros buffer num ts.
  - cbn. by rewrite app_nil_r, Z.add_0_r.
  - cbn [foldl mapM]. unfold timers_step at 2. cbn [mbind option_bind].
    rewrite timer_bucket_eq.
    destruct (timer_lines pctls now kv.1 kv.2) as [ls1|]; cbn [fmap option_fmap option_map
      mbind option_bind]; [|by rewrite foldl_timers_None].
    rewrite IH.
    destruct (mapM _ l) as [ls|]; cbn [mbind option_bind mret option_ret]; [|done].
    unfold delete_visited. cbn [foldl mjoin list_join].
    rewrite <- app_assoc.
    replace (num + Z.of_nat (length (kv :: l))) with (num + 1 + Z.of_nat (length l))
      by (cbn [length]; lia).
    reflexivity.
Qed.

Lemma processTimers_eq buffer now pctls st :
  processTimers buffer now pctls st
  = (ls ← mapM (fun kv => timer_lines pctls now kv.1 kv.2) (map_to_list (timers st));
     Some (buffer ++ mjoin ls, Z.of_nat (size (timers st)),
           mkState (counters st) (gauges st) ∅ (countInactivity st) (sets st))).
Proof.
  unfold processTimers. rewrite timers_loop.
  destruct (mapM _ _) as [ls|]; cbn [mbind option_bind]; [|done].
  by rewrite delete_visited_all, length_map_to_list.
Qed.

Lemma at_index_is_Some (t : list float) i :
  0 <= i < Z.of_nat (length t) -> is_Some (at_index t i).
Proof.
  intros Hi. unfold at_index. destruct (Z.leb_spec 0 i); [|lia].
  apply lookup_lt_is_Some. lia.
Qed.

Lemma percentile_safe_line u now t max pct :
  percentile_safe (Z.of_nat (length t)) pct = true ->
  is_Some (percentile_line u now t max pct).
Proof.
  unfold percentile_safe, percentile_line, percentile_value.
  intros [Hidx Hname]%andb_true_iff.
  destruct (1 <? Z.of_nat (length t)).
  - apply andb_true_iff in Hidx as [H0 Hn].
    destruct (at_index_is_Some t (indexOfPerc (pct_float pct) (Z.of_nat (length t))))
      as [v ->]; [lia|]. cbn [mbind option_bind].
    destruct (0 <=? pct_float pct)%float; [done|].
    destruct (pct_str pct); [done|]. cbn. done.
  - cbn [mbind option_bind].
    destruct (0 <=? pct_float pct)%float; [done|].
    destruct (pct_str pct); [done|]. cbn. done.
Qed.

Lemma bucket_safe_lines pctls now u t0 :
  bucket_safe pctls t0 = true -> is_Some (timer_lines pctls now u t0).
Proof.
  unfold bucket_safe, timer_lines. intros [Hlen Hall]%andb_true_iff.
  rewrite <- (sort_Sort_length t0) in Hlen, Hall.
  set (t := sort_Sort t0) in *.
  assert (Hn : 0 < Z.of_nat (length t)) by lia.
  destruct (at_index_is_Some t 0) as [min ->]; [lia|].
  destruct (at_index_is_Some t (Z.of_nat (length t) - 1)) as [max ->]; [lia|].
  destruct (at_index_is_Some t (Z.of_nat (length t) / 2)) as [median ->].
  { split; [apply Z.div_pos; lia|apply Z.div_lt; lia]. }
  cbn [mbind option_bind].
  assert (Hpl : is_Some (mapM (percentile_line u now t max) pctls)).
  { apply mapM_is_Some. rewrite forallb_forall in Hall.
    apply Forall_forall. intros pct Hpct. apply percentile_safe_line.
    apply Hall. by apply list_elem_of_In. }
  destruct Hpl as [pl ->]. done.
Qed.

(** With safe buckets the emitter returns, and its buffer holds the lines
    of every bucket. *)
Lemma processTimers_safe buffer now pctls st :
  timers_safe pctls st ->
  exists buffer',
    processTimers buffer now pctls st
    = Some (buffer', Z.of_nat (size (timers st)),
            mkState (counters st) (gauges st) ∅ (countInactivity st) (sets st))
    /\ forall u t0, timers st !! u = Some t0 ->
         exists ls, timer_lines pctls now u t0 = Some ls /\ forall l, l ∈ ls -> l ∈ buffer'.
Proof.
  intros Hsafe. rewrite processTimers_eq.
  assert (Hall : is_Some (mapM (fun kv => timer_lines pctls now kv.1 kv.2)
                            (map_to_list (timers st)))).
  { apply mapM_is_Some, Forall_forall. intros [u t0] Hin.
    apply elem_of_map_to_list in Hin. cbn. apply bucket_safe_lines.
    by apply (Hsafe u t0). }
  destruct Hall as [lss Hlss]. rewrite Hlss. cbn [mbind option_bind].
  eexists. split; [reflexivity|].
  intros u t0 Hu. apply elem_of_map_to_list in Hu.
  apply mapM_Some in Hlss.
  apply list_elem_of_lookup in Hu as [i Hi].
  destruct (Forall2_lookup_l _ _ _ _ _ Hlss Hi) as (ls & Hls & Hlines).
  exists ls. split; [done|]. intros l Hl. apply elem_of_app. right.
  apply list_elem_of_join. exists ls. split; [done|].
  apply list_elem_of_lookup. by exists i.
Qed.

Lemma at_index_lookup (t : list float) i v :
  at_index t i = Some v -> 0 <= i /\ t !! Z.to_nat i = Some v.
Proof. unfold at_index. destruct (Z.leb_spec 0 i); [done|discriminate]. Qed.

(** What [timer_lines] returns, spelled out on the sorted samples. *)
Lemma timer_lines_inv pctls now u t0 ls :
  timer_lines pctls now u t0 = Some ls ->
  exists min max median pl,
    sort_Sort t0 !! O = Some min
    /\ last (sort_Sort t0) = Some max
    /\ sort_Sort t0 !! (length t0 / 2)%nat = Some median
    /\ mapM (percentile_line u now (sort_Sort t0) max) pctls = Some pl
    /\ ls = pl ++ stat_lines u now (sort_Sort t0) min max median.
Proof.
  unfold timer_lines. set (t := sort_Sort t0).
  destruct (at_index t 0) as [min|] eqn:Emin; [|done].
  destruct (at_index t (Z.of_nat (length t) - 1)) as [max|] eqn:Emax; [|done].
  destruct (at_index t (Z.of_nat (length t) / 2)) as [median|] eqn:Emed; [|done].
  cbn [mbind option_bind].
  destruct (mapM _ pctls) as [pl|] eqn:Epl; [|done]. cbn [mbind option_bind].
  intros [= <-]. exists min, max, median, pl.
  apply at_index_lookup in Emin as [_ Emin].
  apply at_index_lookup in Emax as [Hpos Emax].
  apply at_index_lookup in Emed as [_ Emed].
  repeat split; try done.
  - rewrite last_lookup.
    replace (Nat.pred (length t)) with (Z.to_nat (Z.of_nat (length t) - 1)) by lia. done.
  - replace (length t0 / 2)%nat with (Z.to_nat (Z.of_nat (length t) / 2)); [done|].
    unfold t. rewrite sort_Sort_length.
    change 2 with (Z.of_nat 2). by rewrite <- Nat2Z.inj_div, Nat2Z.id.
Qed.

(** Appending strings. *)
Lemma str_app_nil (b : string) : "" +:+ b = b.
Proof. reflexivity. Qed.

Lemma str_app_cons x (a b : string) : String x a +:+ b = String x (a +:+ b).
Proof. reflexivity. Qed.

Lemma str_app_assoc (a b c : string) : (a +:+ b) +:+ c = a +:+ (b +:+ c).
Proof. induction a as [|x a IH]; [done|]. by rewrite !str_app_cons, IH. Qed.

Lemma str_app_nil_r (a : string) : a +:+ "" = a.
Proof. induction a as [|x a IH]; [done|]. by rewrite str_app_cons, IH. Qed.

Lemma render_stat u name v now :
  render (mkLine (tmpl_stat name) [Astr u; Afloat v; Aint now])
  = float_text (u +:+ "." +:+ name) v now.
Proof.
  unfold render, float_text, tmpl_stat. cbn [tmpl operands sprintf].
  by rewrite !str_app_assoc, str_app_nil_r.
Qed.

Lemma render_count u n now :
  render (mkLine tmpl_count [Astr u; Aint n; Aint now]) = int_text (u +:+ ".count") n now.
Proof.
  unfold render, int_text, tmpl_count. cbn [tmpl operands sprintf].
  by rewrite !str_app_assoc, str_app_nil_r.
Qed.



(** The loop that sums the samples is the sum from 0, left to right. *)
Lemma float_sum_from t acc : foldl (fun s v => (s + v)%float) acc t = sum_from acc t.
Proof. revert acc. induction t as [|x t IH]; intros acc; [done|]. apply IH. Qed.

Lemma float_sum_eq t : float_sum t = sum_from 0 t.
Proof. apply float_sum_from. Qed.

(** C4 (as amended): when no bucket makes the emitter panic, the timers
    emitter returns and, for a bucket [u] whose samples [S] hold no NaN,
    it writes "u.upper mx now" with a greatest sample mx, "u.lower mn now"
    with a least sample mn, "u.count |S| now", "u.median med now" with the
    sorted sample at index |S|/2 (truncating division) and "u.mean m now"
    where m is the float64 sum of the sorted samples, added in ascending
    order from 0, divided by float64(|S|); the bucket is deleted
    afterwards.  The float values are written with two decimals. *)
Theorem timer_bucket_statistics cfg now st u S :
  timers_safe (percentThreshold cfg) st ->
  timers st !! u = Some S ->
  Forall not_nan S ->
  exists buffer st' sorted mx mn med,
    processTimers [] now (percentThreshold cfg) st
    = Some (buffer, Z.of_nat (size (timers st)), st')
    /\ S <> []
    /\ sorted ≡ₚ S /\ ascending sorted
    /\ is_max mx S /\ is_min mn S
    /\ sorted !! (length S / 2)%nat = Some med
    /\ writes buffer (float_text (u +:+ ".upper") mx now)
    /\ writes buffer (float_text (u +:+ ".lower") mn now)
    /\ writes buffer (int_text (u +:+ ".count") (Z.of_nat (length S)) now)
    /\ writes buffer (float_text (u +:+ ".mean") (float64_mean sorted) now)
    /\ writes buffer (float_text (u +:+ ".median") med now)
    /\ timers st' !! u = None.
Proof.
  intros Hsafe Hu Hnn.
  destruct (processTimers_safe [] now _ st Hsafe) as (buffer & Hrun & Hlines).
  destruct (Hlines u S Hu) as (ls & Hls & Hin).
  apply timer_lines_inv in Hls as (mn & mx & med & pl & Hmin & Hmax & Hmed & _ & ->).
  pose proof (sort_Sort_perm S) as Hperm.
  pose proof (sort_Sort_ascending S Hnn) as Hasc.
  assert (Hnn' : Forall not_nan (sort_Sort S)) by by rewrite Hperm.
  exists buffer, (mkState (counters st) (gauges st) ∅ (countInactivity st) (sets st)),
    (sort_Sort S), mx, mn, med.
  assert (Hstat : forall l, l ∈ stat_lines u now (sort_Sort S) mn mx med -> l ∈ buffer).
  { intros l Hl. apply Hin, elem_of_app. by right. }
  unfold stat_lines in Hstat. rewrite sort_Sort_length in Hstat.
  split; [done|]. split.
  { intros ->. done. }
  split; [done|]. split; [done|]. split.
  { split.
    - rewrite <- Hperm. apply list_elem_of_lookup.
      exists (Nat.pred (length (sort_Sort S))). by rewrite <- last_lookup.
    - intros x Hx. apply (ascending_last (sort_Sort S)); try done. by rewrite Hperm. }
  split.
  { split.
    - rewrite <- Hperm. apply list_elem_of_lookup. by exists O.
    - intros x Hx. apply (ascending_first (sort_Sort S)); try done. by rewrite Hperm. }
  split; [done|].
  unfold float64_mean. rewrite sort_Sort_length, <- float_sum_eq.
  split; [|split; [|split; [|split; [|split; [|done]]]]].
  - eexists. split; [|apply render_stat].
    apply Hstat. do 2 apply list_elem_of_further. apply list_elem_of_here.
  - eexists. split; [|apply render_stat].
    apply Hstat. do 3 apply list_elem_of_further. apply list_elem_of_here.
  - eexists. split; [|apply render_count].
    apply Hstat. do 4 apply list_elem_of_further. apply list_elem_of_here.
  - eexists. split; [|apply render_stat]. apply Hstat. apply list_elem_of_here.
  - eexists. split; [|apply render_stat].
    apply Hstat. apply list_elem_of_further. apply list_elem_of_here.
Qed.

Lemma scenario2_safe : timers_safe (percentThreshold scenario2_config) scenario2_state.
Proof. apply map_Forall_singleton. by vm_compute. Qed.

Lemma timer_bucket_statistics_witness :
  exists buffer st' sorted mx mn med,
    processTimers [] 7 (percentThreshold scenario2_config) scenario2_state
    = Some (buffer, Z.of_nat (size (timers scenario2_state)), st')
    /\ [100; 300; 200]%float <> []
    /\ sorted ≡ₚ [100; 300; 200]%float /\ ascending sorted
    /\ is_max mx [100; 300; 200]%float /\ is_min mn [100; 300; 200]%float
    /\ sorted !! (length [100; 300; 200]%float / 2)%nat = Some med
    /\ writes buffer (float_text ("stats.timers.lat" +:+ ".upper") mx 7)
    /\ writes buffer (float_text ("stats.timers.lat" +:+ ".lower") mn 7)
    /\ writes buffer
         (int_text ("stats.timers.lat" +:+ ".count")
            (Z.of_nat (length [100; 300; 200]%float)) 7)
    /\ writes buffer (float_text ("stats.timers.lat" +:+ ".mean") (float64_mean sorted) 7)
    /\ writes buffer (float_text ("stats.timers.lat" +:+ ".median") med 7)
    /\ timers st' !! "stats.timers.lat" = None.
Proof.
  apply (timer_bucket_statistics scenario2_config 7 scenario2_state "stats.timers.lat"
           [100; 300; 200]%float).
  - exact scenario2_safe.
  - reflexivity.
  - repeat constructor.
Defined.

(** C4 as stated fails: for the samples 1, 10^17 and -10^17, whose sum is
    1 and whose arithmetic mean is 1/3, the emitter writes the mean 0.00:
    in float64 the sum -10^17 + 1 is -10^17 again. *)
Lemma timer_mean_is_not_arithmetic :
  exact_sum [1; 1e17; -1e17]%float = Some 1
  /\ float64_mean [-1e17; 1; 1e17]%float = 0%float
  /\ (processTimers [] 7 [] cancelling_state ≫= fun r => Some (Bytes r.1.1))
     = Some ("t.mean 0.00 7" +:+ nl +:+ "t.median 1.00 7" +:+ nl
             +:+ "t.upper 100000000000000000.00 7" +:+ nl
             +:+ "t.lower -100000000000000000.00 7" +:+ nl +:+ "t.count 3 7" +:+ nl).
Proof. split; [by vm_compute|]. split; by vm_compute. Qed.

(** ** Facts about the binary64 representation *)

Lemma digits2_pos_upper p : Zpos p < 2 ^ Zpos (digits2_pos p).
Proof.
  induction p as [p IH|p IH|]; cbn [digits2_pos]; [| |done];
    rewrite Pos2Z.inj_succ, Z.pow_succ_r by lia; lia.
Qed.

Lemma digits2_pos_lower p : 2 ^ (Zpos (digits2_pos p) - 1) <= Zpos p.
Proof.
  induction p as [p IH|p IH|]; cbn [digits2_pos]; [| |done];
    rewrite Pos2Z.inj_succ;
    replace (Z.succ (Zpos (digits2_pos p)) - 1) with (Z.succ (Zpos (digits2_pos p) - 1)) by lia;
    rewrite Z.pow_succ_r by lia; lia.
Qed.

(** A mantissa below 2^k has at most k digits. *)
Lemma digits2_pos_le p k : 0 <= k -> Zpos p < 2 ^ k -> Zpos (digits2_pos p) <= k.
Proof.
  intros Hk Hp. destruct (Z.le_gt_cases (Zpos (digits2_pos p)) k) as [|Hgt]; [done|].
  pose proof (digits2_pos_lower p) as Hl.
  assert (2 ^ k <= 2 ^ (Zpos (digits2_pos p) - 1)) by (apply Z.pow_le_mono_r; lia).
  lia.
Qed.

Lemma iter_xO_value p k : Zpos (Pos.iter xO p k) = Zpos p * 2 ^ Zpos k.
Proof.
  induction k as [|k IH] using Pos.peano_ind.
  - cbn. lia.
  - rewrite Pos.iter_succ, Pos2Z.inj_succ, Z.pow_succ_r by lia.
    rewrite Pos2Z.inj_xO, IH. lia.
Qed.

Lemma iter_xO_digits p k :
  Zpos (digits2_pos (Pos.iter xO p k)) = Zpos (digits2_pos p) + Zpos k.
Proof.
  induction k as [|k IH] using Pos.peano_ind.
  - cbn [Pos.iter digits2_pos]. lia.
  - rewrite Pos.iter_succ. cbn [digits2_pos]. rewrite !Pos2Z.inj_succ, IH. lia.
Qed.

(** What [valid_binary] says of a finite binary64: at most 53 digits, an
    exponent between -1074 and 971, and 53 digits above the least
    exponent. *)
Lemma bounded_inv m e :
  bounded prec emax m e = true ->
  Zpos (digits2_pos m) <= 53 /\ -1074 <= e <= 971
  /\ (e = -1074 \/ Zpos (digits2_pos m) = 53).
Proof.
  unfold bounded, canonical_mantissa, fexp, SpecFloat.emin, prec, emax.
  intros [H1 H2]%andb_true_iff. apply Z.eqb_eq in H1. apply Z.leb_le in H2. lia.
Qed.

Lemma bounded_intro m e :
  Zpos (digits2_pos m) = 53 -> -1074 <= e <= 971 -> bounded prec emax m e = true.
Proof.
  unfold bounded, canonical_mantissa, fexp, SpecFloat.emin, prec, emax.
  intros Hd He. apply andb_true_iff. split; [apply Z.eqb_eq|apply Z.leb_le]; lia.
Qed.

(** A canonical mantissa and exponent are left as they are by rounding. *)
Lemma binary_round_aux_canonical sx m e :
  bounded prec emax m e = true ->
  binary_round_aux prec emax sx (Zpos m) e loc_Exact = S754_finite sx m e.
Proof.
  intros Hb. pose proof Hb as [Hc He]%andb_true_iff.
  unfold canonical_mantissa in Hc. apply Z.eqb_eq in Hc.
  unfold binary_round_aux, shr_fexp. cbn [Zdigits2 shr_record_of_loc].
  rewrite Hc, Z.sub_diag. cbn [shr shr_m loc_of_shr_record round_nearest_even Zdigits2
    shr_record_of_loc].
  rewrite Hc, Z.sub_diag. cbn [shr shr_m]. by rewrite He.
Qed.

(** An integer below 2^53 is a float64: rounding at exponent 0 keeps its
    value and yields a valid representation. *)
Lemma binary_round_small sx p :
  Zpos p < 2 ^ 53 ->
  exists mz ez,
    binary_round prec emax sx p 0 = S754_finite sx mz ez
    /\ ez <= 0 /\ Zpos mz = Zpos p * 2 ^ (- ez)
    /\ bounded prec emax mz ez = true.
Proof.
  intros Hp. pose proof (digits2_pos_le p 53 ltac:(lia) Hp) as Hd.
  unfold binary_round, shl_align.
  replace (fexp prec emax (Zpos (digits2_pos p) + 0)) with (Zpos (digits2_pos p) - 53)
    by (unfold fexp, SpecFloat.emin, prec, emax; lia).
  rewrite Z.sub_0_r.
  destruct (Zpos (digits2_pos p) - 53) as [|k|k] eqn:Ek; [|lia|].
  - assert (Hb : bounded prec emax p 0 = true) by (apply bounded_intro; lia).
    exists p, 0. rewrite binary_round_aux_canonical by done.
    split; [done|]. split; [lia|]. split; [cbn; lia|done].
  - assert (Hb : bounded prec emax (Pos.iter xO p k) (Zneg k) = true).
    { apply bounded_intro; [rewrite iter_xO_digits|]; lia. }
    exists (Pos.iter xO p k), (Zneg k). rewrite binary_round_aux_canonical by done.
    split; [done|]. split; [lia|]. split; [|done]. by rewrite iter_xO_value.
Qed.

Lemma shiftl_neg_exact a k : 0 <= k -> Z.shiftl (a * 2 ^ k) (- k) = a.
Proof.
  intros Hk. rewrite Z.shiftl_opp_r, Z.shiftr_div_pow2 by done.
  apply Z.div_mul. lia.
Qed.










(** The six samples flushed with the percentiles 90 and -10: the fifth
    and the sixth sorted sample. *)
Lemma six_samples_flush :
  (processTimers [] 7 (percentThreshold two_percentiles_config) six_samples_state
     ≫= fun r => Some (Bytes r.1.1))
  = Some ("stats.timers.lat.upper_90 500.00 7" +:+ nl
          +:+ "stats.timers.lat.lower_10 600.00 7" +:+ nl
          +:+ "stats.timers.lat.mean 350.00 7" +:+ nl
          +:+ "stats.timers.lat.median 400.00 7" +:+ nl
          +:+ "stats.timers.lat.upper 600.00 7" +:+ nl
          +:+ "stats.timers.lat.lower 100.00 7" +:+ nl
          +:+ "stats.timers.lat.count 6 7" +:+ nl).
Proof. by vm_compute. Qed.


(** C10 fails on the code: with two samples the percentile 10 yields the
    index floor(0.1 * 2 + 0.5) - 1 = -1 and the percentile -10 the index
    floor(0.9 * 2 + 0.5) = 2, both outside [0, 1], and the emitter
    panics on either. *)
Lemma percentile_index_out_of_range :
  indexOfPerc 10 2 = -1
  /\ processTimers [] 7 [mkPercentile 10 "10"] two_samples_state = None
  /\ indexOfPerc (-10) 2 = 2
  /\ processTimers [] 7 [mkPercentile (-10) "-10"] two_samples_state = None.
Proof.
  split; [by vm_compute|]. split; [by vm_compute|]. split; by vm_compute.
Qed.

(** ** The parser *)

Lemma IndexByte_app a b c :
  IndexByte a c = None -> IndexByte (a +:+ String c b) c = Some (String.length a).
Proof.
  induction a as [|x a IH].
  - intros _. rewrite str_app_nil. cbn [IndexByte]. by destruct (decide (c = c)).
  - rewrite str_app_cons. cbn [IndexByte String.length].
    destruct (decide (x = c)); [done|].
    destruct (IndexByte a c) eqn:E; [done|]. intros _. by rewrite IH.
Qed.

Lemma str_take_app a b : str_take (String.length a) (a +:+ b) = a.
Proof.
  induction a as [|x a IH]; [by destruct b|].
  rewrite str_app_cons. cbn [String.length str_take]. by rewrite IH.
Qed.

Lemma str_drop_app a b : str_drop (String.length a) (a +:+ b) = b.
Proof.
  induction a as [|x a IH]; [by destruct b|].
  rewrite str_app_cons. by cbn [String.length str_drop].
Qed.

Lemma str_drop_plus a b n : str_drop (String.length a + n) (a +:+ b) = str_drop n b.
Proof.
  induction a as [|x a IH]; [done|].
  rewrite str_app_cons. by cbn [String.length str_drop Nat.add].
Qed.

Lemma str_get_app a b n : String.get (String.length a + n) (a +:+ b) = String.get n b.
Proof.
  induction a as [|x a IH]; [done|].
  rewrite str_app_cons. by cbn [String.length String.get Nat.add].
Qed.

Lemma split_from_line cur line more :
  IndexByte line (ascii_of_nat 10) = None ->
  split_from cur (line +:+ nl +:+ more) = (cur +:+ line) :: split_from "" more.
Proof.
  revert cur. induction line as [|x line IH]; intros cur.
  - intros _. rewrite str_app_nil. unfold nl. rewrite str_app_cons, str_app_nil.
    cbn [split_from]. destruct (decide (ascii_of_nat 10 = ascii_of_nat 10)); [|done].
    by rewrite str_app_nil_r.
  - rewrite !str_app_cons. cbn [IndexByte split_from].
    destruct (decide (x = ascii_of_nat 10)); [done|].
    destruct (IndexByte line (ascii_of_nat 10)) eqn:E; [done|]. intros _.
    rewrite IH by done. by rewrite str_app_assoc, str_app_cons, str_app_nil.
Qed.

Section ParserFacts.

Variable ParseInt : string -> option Z.
Variable ParseFloat64 : string -> option float.
Variable ParseFloat32 : string -> option float.
Variable cfg : Config.

Local Abbreviation pl := (parse_line ParseInt ParseFloat64 ParseFloat32 cfg).
Local Abbreviation pstep := (parse_step ParseInt ParseFloat64 ParseFloat32 cfg).
Local Abbreviation pm := (parseMessage ParseInt ParseFloat64 ParseFloat32 cfg).

Lemma parse_loop_None (ls : list string) : foldl pstep None ls = None.
Proof. by induction ls. Qed.

Lemma parse_loop (ls : list string) (out : list Packet) :
  foldl pstep (Some out) ls = (fun l => out ++ l) <$> foldl pstep (Some []) ls.
Proof.
  revert out. induction ls as [|l ls IH]; intros out.
  - cbn. by rewrite app_nil_r.
  - cbn [foldl]. unfold parse_step at 2 4. cbn [mbind option_bind].
    destruct (pl l) as [|p|].
    + apply IH.
    + rewrite (IH (out ++ [p])), (IH ([] ++ [p])).
      destruct (foldl pstep (Some []) ls); cbn; [|done].
      by rewrite <- app_assoc.
    + by rewrite parse_loop_None.
Qed.

(** The parser goes on with the lines after a line, whatever that line
    was, unless it made it panic. *)
Lemma parseMessage_line line more :
  IndexByte line (ascii_of_nat 10) = None ->
  pm (line +:+ nl +:+ more)
  = (evs ← line_events (pl line);
     (fun l => evs ++ l) <$> pm more).
Proof.
  intros Hline. unfold parseMessage, Split.
  rewrite split_from_line, str_app_nil by done.
  cbn [foldl]. unfold parse_step at 2. cbn [mbind option_bind].
  destruct (pl line) as [|p|]; cbn [line_events mbind option_bind].
  - by destruct (foldl pstep (Some []) _).
  - apply parse_loop.
  - apply parse_loop_None.
Qed.

(** A line name:val|rest, up to the type indicator. *)
Lemma parse_line_shape name val rest :
  IndexByte name ":" = None ->
  IndexByte val "|" = None ->
  rest <> "" ->
  pl (name +:+ ":" +:+ val +:+ "|" +:+ rest)
  = match parse_type cfg (val +:+ "|" +:+ rest) (S (String.length val)) with
    | None => Skip
    | Some (mtypeStr, prefixToAdd, input') =>
        match parse_value ParseInt ParseFloat64 cfg mtypeStr val prefixToAdd with
        | None => Panic
        | Some None => Skip
        | Some (Some (v, prefixToAdd')) =>
            Emit (mkPacket (prefixToAdd' +:+ name) v mtypeStr
                    (parse_sampling ParseFloat32 input'))
        end
    end.
Proof.
  intros Hname Hval Hrest. unfold parse_line.
  assert (Hlen : String.length rest <> O) by by destruct rest.
  rewrite !str_app_cons, !str_app_nil.
  rewrite decide_False.
  2:{ rewrite string_length_append. cbn. lia. }
  rewrite IndexByte_app by done.
  rewrite decide_False.
  2:{ rewrite !string_length_append. cbn. rewrite !string_length_append. cbn. lia. }
  rewrite str_take_app.
  replace (S (String.length name)) with (String.length (name +:+ ":"))
    by (rewrite string_length_append; cbn; lia).
  replace (name +:+ String ":" (val +:+ String "|" rest))
    with ((name +:+ ":") +:+ (val +:+ String "|" rest))
    by (by rewrite str_app_assoc, str_app_cons, str_app_nil).
  rewrite str_drop_app, IndexByte_app by done.
  rewrite decide_False.
  2:{ rewrite string_length_append. cbn. lia. }
  by rewrite str_take_app.
Qed.

Lemma parse_type_at val c rest :
  parse_type cfg (val +:+ "|" +:+ String c rest) (S (String.length val))
  = if decide (c = "m"%char) then
      match rest with
      | String c' rest' =>
          if decide (c' = "s"%char)
          then Some ("ms", prefix cfg +:+ prefixTimers cfg, rest')
          else None
      | EmptyString => None
      end
    else Some (string_of_byte c, prefix cfg, rest).
Proof.
  unfold parse_type.
  set (a := val +:+ "|").
  assert (Ha : S (String.length val) = String.length a).
  { unfold a. rewrite string_length_append. cbn. lia. }
  replace (val +:+ "|" +:+ String c rest) with (a +:+ String c rest)
    by (unfold a; by rewrite str_app_assoc).
  rewrite Ha.
  replace (S (S (String.length a))) with (String.length a + 2)%nat by lia.
  replace (S (String.length a)) with (String.length a + 1)%nat by lia.
  rewrite <- (Nat.add_0_r (String.length a)) at 1.
  rewrite !str_get_app, !str_drop_plus. cbn [String.get str_drop].
  destruct (decide (c = "m"%char)); [|done].
  by destruct rest as [|c' rest'].
Qed.

Lemma string_of_byte_cases c :
  string_of_byte c = String c ""
  \/ (exists c2, string_of_byte c = String (ascii_of_nat 194) (String c2 ""))
  \/ (exists c2, string_of_byte c = String (ascii_of_nat 195) (String c2 "")).
Proof.
  unfold string_of_byte. pose proof (nat_ascii_bounded c) as Hb.
  destruct (Nat.ltb_spec (nat_of_ascii c) 128) as [Hlt|Hge]; [by left|right].
  assert (Hq : (nat_of_ascii c / 64 = 2 \/ nat_of_ascii c / 64 = 3)%nat).
  { assert (2 <= nat_of_ascii c / 64)%nat by (apply Nat.div_le_lower_bound; lia).
    assert (nat_of_ascii c / 64 < 4)%nat by (apply Nat.Div0.div_lt_upper_bound; lia).
    lia. }
  destruct Hq as [-> | ->]; [left|right]; eexists; reflexivity.
Qed.

Lemma parse_value_unknown c val prefixToAdd :
  unknown_type c ->
  parse_value ParseInt ParseFloat64 cfg (string_of_byte c) val prefixToAdd
  = Some ((fun f => (FloatV f, prefixToAdd)) <$> ParseFloat64 val).
Proof.
  intros (Hc & Hg & Hs & Hm). unfold parse_value.
  destruct (string_of_byte_cases c) as [-> | [[c2 ->] | [c2 ->]]].
  - by rewrite !decide_False by done.
  - reflexivity.
  - reflexivity.
Qed.

Lemma string_of_byte_unknown c :
  unknown_type c ->
  string_of_byte c <> "ms" /\ string_of_byte c <> "g"
  /\ string_of_byte c <> "c" /\ string_of_byte c <> "s".
Proof.
  intros (Hc & Hg & Hs & Hm).
  destruct (string_of_byte_cases c) as [-> | [[c2 ->] | [c2 ->]]].
  - repeat split; intros [= ->]; done.
  - repeat split; discriminate.
  - repeat split; discriminate.
Qed.

End ParserFacts.

Lemma packetHandler_unknown cfg p st :
  Modifier p <> "ms" -> Modifier p <> "g" -> Modifier p <> "c" -> Modifier p <> "s" ->
  packetHandler cfg p st
  = Some (mkState (bump_receive (receiveCounter cfg) (counters st)) (gauges st) (timers st)
            (countInactivity st) (sets st)).
Proof.
  intros Hms Hg Hc Hs. unfold packetHandler.
  by rewrite !decide_False by done.
Qed.

(** C6 (as amended): a line name:val|T... whose type byte T is not c, g or
    s and that is not of type ms is rejected when T is m, or when val
    does not parse as a float64; otherwise the parser produces an event
    with the float value and with string(T) as modifier, that is the byte
    T itself when T is below 0x80 and the two bytes of the UTF-8 encoding
    of the code point T otherwise, which packetHandler applies to no
    table (it only counts it in the receive counter).  In each case the
    parser goes on with the remaining lines. *)
Theorem unknown_type_lines ParseInt ParseFloat64 ParseFloat32 cfg name val c rest more :
  IndexByte name ":" = None ->
  IndexByte val "|" = None ->
  IndexByte (metric_line name val (String c rest)) (ascii_of_nat 10) = None ->
  c <> "c"%char -> c <> "g"%char -> c <> "s"%char ->
  (c = "m"%char -> forall rest', rest <> String "s" rest') ->
  let events :=
    if decide (c = "m"%char) then []
    else match ParseFloat64 val with
         | Some f => [mkPacket (prefix cfg +:+ name) (FloatV f) (string_of_byte c)
                        (parse_sampling ParseFloat32 rest)]
         | None => []
         end in
  parseMessage ParseInt ParseFloat64 ParseFloat32 cfg
    (metric_line name val (String c rest) +:+ nl +:+ more)
  = (fun l => events ++ l) <$> parseMessage ParseInt ParseFloat64 ParseFloat32 cfg more
  /\ forall p st, p ∈ events ->
       packetHandler cfg p st
       = Some (mkState (bump_receive (receiveCounter cfg) (counters st)) (gauges st)
                 (timers st) (countInactivity st) (sets st)).
Proof.
  intros Hname Hval Hnl Hc Hg Hs Hms events. split.
  - rewrite parseMessage_line by done. unfold metric_line.
    rewrite parse_line_shape, parse_type_at by done. unfold events.
    destruct (decide (c = "m"%char)) as [Hm|Hm].
    + assert (Hrej : match rest with
                     | String c' rest' =>
                         if decide (c' = "s"%char)
                         then Some ("ms", prefix cfg +:+ prefixTimers cfg, rest')
                         else None
                     | EmptyString => None
                     end = None).
      { destruct rest as [|c' rest']; [done|].
        destruct (decide (c' = "s"%char)) as [->|]; [|done].
        by destruct (Hms Hm rest'). }
      rewrite Hrej. cbn [line_events mbind option_bind].
      by destruct (parseMessage _ _ _ _ more).
    + rewrite parse_value_unknown by done.
      destruct (ParseFloat64 val) as [f|]; cbn [fmap option_fmap option_map line_events
        mbind option_bind]; done.
  - intros p st Hp. unfold events in Hp.
    destruct (decide (c = "m"%char)) as [Hm|Hm]; [by apply elem_of_nil in Hp|].
    destruct (ParseFloat64 val) as [f|]; [|by apply elem_of_nil in Hp].
    apply list_elem_of_singleton in Hp as ->.
    destruct (string_of_byte_unknown c) as (H1 & H2 & H3 & H4); [done|].
    by apply packetHandler_unknown.
Qed.

Lemma unknown_type_lines_witness :
  IndexByte "foo" ":" = None
  /\ IndexByte "1" "|" = None
  /\ parseMessage ParseInt_digits ParseFloat_digits ParseFloat_digits default_config
       (metric_line "foo" "1" "x" +:+ nl +:+ "bar:2|c")
     = (fun l => [mkPacket "stats.foo" (FloatV 1) "x" 1] ++ l)
         <$> parseMessage ParseInt_digits ParseFloat_digits ParseFloat_digits default_config
               "bar:2|c".
Proof.
  split; [reflexivity|]. split; [reflexivity|].
  apply (unknown_type_lines ParseInt_digits ParseFloat_digits ParseFloat_digits default_config
           "foo" "1" "x"%char "" "bar:2|c"); try reflexivity; try discriminate.
Defined.

(** C6 as stated fails: the line foo:1|x, whose type indicator x is none
    of c, g, s and ms, is not rejected: the parser returns an event for
    it, with the modifier x. *)
Lemma unknown_type_is_parsed :
  parseMessage ParseInt_digits ParseFloat_digits ParseFloat_digits default_config "foo:1|x"
  = Some [mkPacket "stats.foo" (FloatV 1) "x" 1].
Proof. by vm_compute. Qed.

(** ** Rounding keeps the sign *)

Lemma shr_1_m mrs : 0 <= shr_m mrs -> shr_m (shr_1 mrs) = shr_m mrs / 2.
Proof.
  destruct mrs as [m r s]. cbn [shr_m shr_1]. intros Hm.
  destruct m as [|[p|p|]|p]; cbn [shr_m]; try lia.
  - reflexivity.
  - rewrite Pos2Z.inj_xI. apply Z.div_unique with (r := 1); lia.
  - rewrite Pos2Z.inj_xO. apply Z.div_unique with (r := 0); lia.
  - reflexivity.
Qed.

Lemma pow2_double n : 2 ^ Zpos n * 2 ^ Zpos n = 2 ^ Zpos n~0.
Proof. rewrite <- Z.pow_add_r by lia. f_equal. lia. Qed.

Lemma pow2_double_succ n : 2 * (2 ^ Zpos n * 2 ^ Zpos n) = 2 ^ Zpos n~1.
Proof.
  replace (Zpos n~1) with (Zpos n + Zpos n + 1) by lia.
  rewrite !Z.pow_add_r, Z.pow_1_r by lia. lia.
Qed.

Lemma iter_shr_1_m n mrs :
  0 <= shr_m mrs -> shr_m (SpecFloat.iter_pos shr_1 n mrs) = shr_m mrs / 2 ^ Zpos n.
Proof.
  revert mrs. induction n as [n IH|n IH|]; intros mrs Hm; cbn [SpecFloat.iter_pos].
  - assert (H1 : 0 <= shr_m (shr_1 mrs)) by (rewrite shr_1_m by done; apply Z.div_pos; lia).
    assert (H2 : 0 <= shr_m (SpecFloat.iter_pos shr_1 n (shr_1 mrs))).
    { rewrite IH by done. apply Z.div_pos; [done|]. apply Z.pow_pos_nonneg; lia. }
    rewrite IH, IH, shr_1_m by done.
    assert (0 < 2 ^ Zpos n) by (apply Z.pow_pos_nonneg; lia).
    rewrite !Z.div_div by lia. f_equal. apply pow2_double_succ.
  - assert (H2 : 0 <= shr_m (SpecFloat.iter_pos shr_1 n mrs)).
    { rewrite IH by done. apply Z.div_pos; [done|]. apply Z.pow_pos_nonneg; lia. }
    rewrite IH, IH by done.
    assert (0 < 2 ^ Zpos n) by (apply Z.pow_pos_nonneg; lia).
    rewrite !Z.div_div by lia. f_equal. apply pow2_double.
  - rewrite shr_1_m by done. reflexivity.
Qed.

Lemma shr_record_of_loc_m m l : shr_m (shr_record_of_loc m l) = m.
Proof. by destruct l as [|[]]. Qed.

(** Shifting a positive mantissa to its canonical exponent leaves it
    nonnegative, and positive when the exponent is not below the least
    one. *)
Lemma shr_fexp_m (m e : Z) l :
  0 < m ->
  let '(mrs, e') := shr_fexp prec emax m e l in
  0 <= shr_m mrs /\ (-1074 <= e -> 0 < shr_m mrs /\ -1074 <= e').
Proof.
  intros Hm. unfold shr_fexp, shr.
  destruct m as [|p|p]; [lia| |lia]. cbn [Zdigits2].
  destruct (fexp prec emax (Zpos (digits2_pos p) + e) - e) as [|n|n] eqn:En;
    rewrite ?shr_record_of_loc_m; try (split; [lia|intros; split; lia]).
  rewrite iter_shr_1_m by (rewrite shr_record_of_loc_m; lia).
  rewrite shr_record_of_loc_m. split.
  - apply Z.div_pos; [lia|]. apply Z.pow_pos_nonneg; lia.
  - intros He. unfold fexp, SpecFloat.emin, prec, emax in En.
    assert (Hn : Zpos n = Zpos (digits2_pos p) - 53) by lia.
    split; [|lia].
    pose proof (digits2_pos_lower p) as Hl.
    assert (0 < 2 ^ Zpos n) by (apply Z.pow_pos_nonneg; lia).
    apply Z.div_str_pos. split; [done|].
    eapply Z.le_trans; [|exact Hl]. apply Z.pow_le_mono_r; lia.
Qed.

Lemma round_nearest_even_m m l :
  0 <= m -> m <= round_nearest_even m l.
Proof. intros Hm. destruct l as [|[]]; cbn; try lia. destruct (Z.even m); lia. Qed.

(** Rounding a positive mantissa yields a zero, a finite number or an
    infinity with the sign it was given, and no zero when the exponent is
    not below the least one. *)
Lemma binary_round_aux_sign sx (m e : Z) l :
  0 < m ->
  match binary_round_aux prec emax sx m e l with
  | S754_zero s => s = sx /\ e < -1074
  | S754_finite s _ _ | S754_infinity s => s = sx
  | S754_nan => False
  end.
Proof.
  intros Hm. unfold binary_round_aux.
  pose proof (shr_fexp_m m e l Hm) as H1.
  destruct (shr_fexp prec emax m e l) as [mrs' e'].
  destruct H1 as [H1 H1'].
  set (m2 := round_nearest_even (shr_m mrs') (loc_of_shr_record mrs')).
  assert (Hm2 : shr_m mrs' <= m2) by by apply round_nearest_even_m.
  destruct (Z.eq_dec m2 0) as [E0|N0].
  - (* the mantissa vanished: only below the least exponent *)
    rewrite E0. unfold shr_fexp. cbn [Zdigits2].
    replace (fexp prec emax (0 + e') - e') with (fexp prec emax e' - e') by (f_equal; f_equal; lia).
    assert (He : e < -1074).
    { destruct (Z.lt_ge_cases e (-1074)) as [|Hge]; [done|]. destruct (H1' ltac:(lia)). lia. }
    unfold shr. destruct (fexp prec emax e' - e') as [|n|n]; cbn [shr_m shr_record_of_loc].
    + done.
    + rewrite iter_shr_1_m by (cbn; lia). cbn [shr_m]. rewrite Z.div_0_l; [done|].
      apply Z.pow_nonzero; lia.
    + done.
  - assert (Hpos : 0 < m2) by lia.
    pose proof (shr_fexp_m m2 e' loc_Exact Hpos) as H2.
    destruct (shr_fexp prec emax m2 e' loc_Exact) as [mrs'' e''].
    destruct H2 as [H2 H2'].
    destruct (shr_m mrs'') as [|p|p] eqn:E; [|by destruct (e'' <=? emax - prec)|lia].
    split; [done|].
    destruct (Z.lt_ge_cases e (-1074)) as [|Hge]; [done|].
    destruct (H1' ltac:(lia)) as [_ He']. destruct (H2' He'). lia.
Qed.

Lemma shl_align_value mx ex ez :
  ez <= ex -> Zpos (fst (shl_align mx ex ez)) = Zpos mx * 2 ^ (ex - ez)
              /\ snd (shl_align mx ex ez) = ez.
Proof.
  intros He. unfold shl_align.
  destruct (ez - ex) as [|d|d] eqn:Ed; cbn [fst snd]; [| lia |].
  - replace (ex - ez) with 0 by lia. split; lia.
  - rewrite iter_xO_value. replace (ex - ez) with (Zpos d) by lia. done.
Qed.

Lemma binary_round_sign sx mx ex :
  match binary_round prec emax sx mx ex with
  | S754_zero s => s = sx /\ ex < -1074
  | S754_finite s _ _ | S754_infinity s => s = sx
  | S754_nan => False
  end.
Proof.
  unfold binary_round.
  destruct (shl_align mx ex (fexp prec emax (Zpos (digits2_pos mx) + ex))) as [mz ez] eqn:E.
  pose proof (binary_round_aux_sign sx (Zpos mz) ez loc_Exact ltac:(lia)) as H.
  assert (Hez : ez <= ex).
  { unfold shl_align in E.
    destruct (fexp prec emax (Zpos (digits2_pos mx) + ex) - ex) as [|d|d] eqn:Ed;
      injection E as <- <-; lia. }
  destruct (binary_round_aux prec emax sx (Zpos mz) ez loc_Exact); try done.
  destruct H. split; [done|].
  (* below the least exponent the alignment did not move the exponent *)
  unfold shl_align in E.
  destruct (fexp prec emax (Zpos (digits2_pos mx) + ex) - ex) as [|d|d] eqn:Ed;
    injection E as <- <-; try lia.
  unfold fexp, SpecFloat.emin, prec, emax in *. lia.
Qed.

(** ** The sign of a float64 difference *)

(** On valid positive finite numbers [SFcompare] compares the mantissas
    aligned at the smaller exponent. *)
Lemma aligned_compare mx ex my ey :
  bounded prec emax mx ex = true -> bounded prec emax my ey = true ->
  SFcompare (S754_finite false mx ex) (S754_finite false my ey)
  = Some (Zpos (fst (shl_align mx ex (Z.min ex ey)))
          ?= Zpos (fst (shl_align my ey (Z.min ex ey)))).
Proof.
  intros (Hdx & Hex & Hnx)%bounded_inv (Hdy & Hey & Hny)%bounded_inv.
  destruct (shl_align_value mx ex (Z.min ex ey)) as [-> _]; [lia|].
  destruct (shl_align_value my ey (Z.min ex ey)) as [-> _]; [lia|].
  cbn [SFcompare]. change (Pos.compare_cont Eq mx my) with (Zpos mx ?= Zpos my).
  pose proof (digits2_pos_upper mx) as Hux. pose proof (digits2_pos_lower mx) as Hlx.
  pose proof (digits2_pos_upper my) as Huy. pose proof (digits2_pos_lower my) as Hly.
  assert (H53 : forall d, d <= 53 -> 2 ^ d <= 2 ^ 53) by (intros; apply Z.pow_le_mono_r; lia).
  destruct (Z.compare_spec ex ey) as [->|Hlt|Hgt]; f_equal.
  - rewrite Z.min_id, Z.sub_diag. cbn [Z.pow]. by rewrite !Z.mul_1_r.
  - rewrite Z.min_l, Z.sub_diag by lia. symmetry. apply Z.compare_lt_iff.
    assert (Hd : Zpos (digits2_pos my) = 53) by lia. rewrite Hd in Hly.
    assert (2 ^ 1 <= 2 ^ (ey - ex)) by (apply Z.pow_le_mono_r; lia).
    specialize (H53 _ Hdx). change (2 ^ 1) with 2 in *.
    change (2 ^ (53 - 1)) with 4503599627370496 in Hly.
    change (2 ^ 53) with 9007199254740992 in H53. nia.
  - rewrite Z.min_r, Z.sub_diag by lia. symmetry. apply Z.compare_gt_iff.
    assert (Hd : Zpos (digits2_pos mx) = 53) by lia. rewrite Hd in Hlx.
    assert (2 ^ 1 <= 2 ^ (ex - ey)) by (apply Z.pow_le_mono_r; lia).
    specialize (H53 _ Hdy). change (2 ^ 1) with 2 in *.
    change (2 ^ (53 - 1)) with 4503599627370496 in Hlx.
    change (2 ^ 53) with 9007199254740992 in H53. nia.
Qed.

(** The result of rounding a nonzero integer at an exponent that is not
    below the least one. *)
Lemma binary_normalize_sign (m e : Z) :
  -1074 <= e ->
  match binary_normalize prec emax m e false with
  | S754_zero s => m = 0 /\ s = false
  | S754_finite s _ _ | S754_infinity s => if s then m < 0 else 0 < m
  | S754_nan => False
  end.
Proof.
  intros He. destruct m as [|p|p]; cbn [binary_normalize]; [done| |].
  - pose proof (binary_round_sign false p e) as H.
    destruct (binary_round prec emax false p e) as [s|s| |s m' e']; try done.
    + destruct H. lia.
    + by subst.
    + by subst.
  - pose proof (binary_round_sign true p e) as H.
    destruct (binary_round prec emax true p e) as [s|s| |s m' e']; try done.
    + destruct H. lia.
    + by subst.
    + by subst.
Qed.

Lemma valid_exponent s m e : valid_binary (S754_finite s m e) = true -> -1074 <= e.
Proof. cbn. intros H%bounded_inv. lia. Qed.

(** Subtracting a finite d >= 0 from a negative number leaves it
    negative. *)
Lemma SFsub_negative a d :
  valid_binary a = true -> valid_binary d = true ->
  SFltb a SFzero = true -> SFleb SFzero d = true -> finite_repr d ->
  SFltb (SF64sub a d) SFzero = true.
Proof.
  intros Va Vd Ha Hd Hfin.
  destruct a as [[]|[]| |[] ma ea]; try done;
    destruct d as [[]|[]| |[] md ed]; try done.
  unfold SF64sub, SFsub. cbn [cond_Zopp].
  pose proof (valid_exponent _ _ _ Va) as Hea. pose proof (valid_exponent _ _ _ Vd) as Hed.
  pose proof (binary_normalize_sign
    (- Zpos (fst (shl_align ma ea (Z.min ea ed))) - Zpos (fst (shl_align md ed (Z.min ea ed))))
    (Z.min ea ed) ltac:(lia)) as H.
  destruct (binary_normalize _ _ _ _ _) as [s|[]| |[] m' e']; try done; lia.
Qed.

(** Subtracting a finite d from a smaller v >= 0 gives a negative number. *)
Lemma SFsub_below v d :
  valid_binary v = true -> valid_binary d = true ->
  SFleb SFzero v = true -> finite_repr d ->
  SFltb v d = true ->
  SFltb (SF64sub v d) SFzero = true.
Proof.
  intros Vv Vd Hv Hfin Hlt.
  destruct v as [[]|[]| |[] mv ev]; try done;
    destruct d as [[]|[]| |[] md ed]; try done.
  unfold SF64sub, SFsub. cbn [cond_Zopp].
  unfold SFltb in Hlt. rewrite aligned_compare in Hlt by done.
  destruct (Z.compare_spec (Zpos (fst (shl_align mv ev (Z.min ev ed))))
              (Zpos (fst (shl_align md ed (Z.min ev ed))))) as [|Hc|]; try done.
  pose proof (valid_exponent _ _ _ Vv) as Hev. pose proof (valid_exponent _ _ _ Vd) as Hed.
  pose proof (binary_normalize_sign
    (Zpos (fst (shl_align mv ev (Z.min ev ed))) - Zpos (fst (shl_align md ed (Z.min ev ed))))
    (Z.min ev ed) ltac:(lia)) as H.
  destruct (binary_normalize _ _ _ _ _) as [s|[]| |[] m' e']; try done; lia.
Qed.

(** Subtracting a finite d >= 0 from a v that is not below it gives a
    number that is not negative. *)
Lemma SFsub_above v d :
  valid_binary v = true -> valid_binary d = true ->
  SFleb SFzero v = true -> SFleb SFzero d = true -> finite_repr d ->
  SFltb v d = false ->
  SFleb SFzero (SF64sub v d) = true.
Proof.
  intros Vv Vd Hv Hd Hfin Hge.
  destruct v as [[]|[]| |[] mv ev]; try done;
    destruct d as [[]|[]| |[] md ed]; try done.
  unfold SF64sub, SFsub. cbn [cond_Zopp].
  unfold SFltb in Hge. rewrite aligned_compare in Hge by done.
  pose proof (valid_exponent _ _ _ Vv) as Hev. pose proof (valid_exponent _ _ _ Vd) as Hed.
  pose proof (binary_normalize_sign
    (Zpos (fst (shl_align mv ev (Z.min ev ed))) - Zpos (fst (shl_align md ed (Z.min ev ed))))
    (Z.min ev ed) ltac:(lia)) as H.
  destruct (Z.compare_spec (Zpos (fst (shl_align mv ev (Z.min ev ed))))
              (Zpos (fst (shl_align md ed (Z.min ev ed))))) as [|Hc|]; try done;
    destruct (binary_normalize _ _ _ _ _) as [s|[]| |[] m' e']; try done; lia.
Qed.

(** From 0 only a zero can be subtracted without going below, and 0 stays. *)
Lemma SFsub_from_zero d :
  SFleb SFzero d = true -> SFltb SFzero d = false ->
  SF64sub SFzero d = SFzero.
Proof. intros Hd Hz. destruct d as [[]|[]| |[] md ed]; done. Qed.

(** The same three facts when d may be +infinity: the difference is then
    -infinity, or NaN for infinity - infinity. *)
Lemma sub_negative a d :
  valid_binary a = true -> valid_binary d = true ->
  SFltb a SFzero = true -> SFleb SFzero d = true ->
  SFltb (SF64sub a d) SFzero = true.
Proof.
  intros Va Vd Ha Hd.
  destruct d as [[]|[]| |[] md ed] eqn:Ed; try done;
    try (subst d; by apply SFsub_negative).
  by destruct a as [[]|[]| |[] ma ea].
Qed.

Lemma sub_below v d :
  valid_binary v = true -> valid_binary d = true ->
  SFleb SFzero v = true -> SFleb SFzero d = true ->
  SFltb v d = true ->
  SFltb (SF64sub v d) SFzero = true.
Proof.
  intros Vv Vd Hv Hd Hlt.
  destruct d as [[]|[]| |[] md ed] eqn:Ed; try done;
    try (subst d; by apply SFsub_below).
  by destruct v as [[]|[]| |[] mv ev].
Qed.

Lemma sub_above v d :
  valid_binary v = true -> valid_binary d = true ->
  SFleb SFzero v = true -> SFleb SFzero d = true ->
  SFltb v d = false ->
  SFleb SFzero (SF64sub v d) = true \/ SF64sub v d = S754_nan.
Proof.
  intros Vv Vd Hv Hd Hge.
  destruct d as [[]|[]| |[] md ed] eqn:Ed; try done;
    try (subst d; left; by apply SFsub_above).
  destruct v as [[]|[]| |[] mv ev]; try done. by right.
Qed.

Lemma sub_nan d : SF64sub S754_nan d = S754_nan.
Proof. by destruct d as [[]|[]| |[] md ed]. Qed.

Lemma SFleb_not_ltb x : SFleb SFzero x = true -> SFltb x SFzero = false.
Proof. destruct x as [[]|[]| |[] m e]; done. Qed.

(** ** Gauges under relative-negative deltas *)

Lemma Prim2SF_zero : Prim2SF 0 = SFzero.
Proof. reflexivity. Qed.

Lemma nonneg_repr x : nonneg x <-> SFleb SFzero (Prim2SF x) = true.
Proof. unfold nonneg. by rewrite FloatAxioms.leb_spec, Prim2SF_zero. Qed.

Lemma negative_repr x : (x <? 0)%float = SFltb (Prim2SF x) SFzero.
Proof. by rewrite FloatAxioms.ltb_spec, Prim2SF_zero. Qed.

Lemma clamped_step v a d :
  nonneg d -> clamped v a ->
  clamped (apply_gauge v (mkGaugeData true true d)) (a - d)%float.
Proof.
  intros Hd%nonneg_repr Hva.
  unfold apply_gauge. cbn [Relative Negative GValue].
  pose proof (Prim2SF_valid d) as Vd.
  destruct Hva as [[-> Ha%nonneg_repr]|[[-> Ha]|[-> Ha]]].
  - pose proof (Prim2SF_valid a) as Va.
    destruct (a <? d)%float eqn:E; rewrite FloatAxioms.ltb_spec in E.
    + right. left. split; [done|].
      rewrite negative_repr, sub_spec. by apply sub_below.
    + destruct (sub_above _ _ Va Vd Ha Hd E) as [H|H].
      * left. split; [done|]. apply nonneg_repr. by rewrite sub_spec.
      * right. right. split; [done|]. by rewrite sub_spec.
  - right. left. rewrite negative_repr in Ha.
    assert (Hneg : ((a - d) <? 0)%float = true).
    { rewrite negative_repr, sub_spec. apply sub_negative; try done. apply Prim2SF_valid. }
    split; [|done].
    destruct (0 <? d)%float eqn:E; [done|].
    rewrite FloatAxioms.ltb_spec, Prim2SF_zero in E.
    apply Prim2SF_inj. rewrite sub_spec, !Prim2SF_zero. by apply SFsub_from_zero.
  - (* a comparison with NaN is false, and NaN - d is NaN *)
    right. right.
    assert (E : (a <? d)%float = false).
    { rewrite FloatAxioms.ltb_spec, Ha. by destruct (Prim2SF d) as [[]|[]| |[] md ed]. }
    rewrite E. split; [done|]. by rewrite sub_spec, Ha, sub_nan.
Qed.

Lemma clamped_fold ds v a :
  Forall nonneg ds -> clamped v a ->
  clamped (foldl (fun v d => apply_gauge v (mkGaugeData true true d)) v ds) (subtract_all a ds).
Proof.
  revert v a. induction ds as [|d ds IH]; intros v a Hds Hva; [done|].
  apply Forall_cons in Hds as [Hd Hds].
  cbn [foldl subtract_all]. apply IH; [done|]. by apply clamped_step.
Qed.

Lemma clamped_max0 v a : clamped v a -> v = float_max0 a.
Proof.
  unfold float_max0. intros [[-> Ha%nonneg_repr]|[[-> Ha]|[-> Ha]]].
  - by rewrite negative_repr, SFleb_not_ltb.
  - by rewrite Ha.
  - by rewrite negative_repr, Ha.
Qed.

Lemma handle_negative_deltas cfg B ds st v0 :
  gauges st !! B = Some v0 ->
  exists st',
    handle_all cfg (negative_delta B <$> ds) st = Some st'
    /\ gauges st' !! B
       = Some (foldl (fun v d => apply_gauge v (mkGaugeData true true d)) v0 ds).
Proof.
  revert st v0. induction ds as [|d ds IH]; intros st v0 Hv0.
  - exists st. by split.
  - rewrite fmap_cons. cbn [handle_all foldl].
    unfold packetHandler at 1. cbn [Modifier negative_delta Value Bucket].
    rewrite decide_False by done. rewrite decide_True by done. cbn [gauges].
    rewrite Hv0. cbn [default].
    apply IH. cbn [gauges]. by rewrite lookup_insert_eq.
Qed.

(** C5 (as amended): for a gauge bucket holding v0 >= 0 and relative-negative
    deltas whose magnitudes d_1..d_n are not negative, the value stored
    after applying them is max(0, v0 - d_1 - ... - d_n), the differences
    taken from left to right in float64. *)
Theorem gauge_negative_deltas cfg st B v0 ds :
  gauges st !! B = Some v0 ->
  nonneg v0 ->
  Forall nonneg ds ->
  exists st',
    handle_all cfg (negative_delta B <$> ds) st = Some st'
    /\ gauges st' !! B = Some (float_max0 (subtract_all v0 ds)).
Proof.
  intros Hv0 Hnn Hds.
  destruct (handle_negative_deltas cfg B ds st v0 Hv0) as (st' & Hrun & Hg).
  exists st'. split; [done|]. rewrite Hg. f_equal.
  apply clamped_max0, clamped_fold; [done|]. by left.
Qed.

Lemma gauge_negative_deltas_witness :
  gauges scenario3_state !! "stats.gauges.g" = Some 5%float
  /\ nonneg 5
  /\ exists st',
       handle_all default_config (negative_delta "stats.gauges.g" <$> [2; 10]%float)
         scenario3_state = Some st'
       /\ gauges st' !! "stats.gauges.g" = Some (float_max0 (subtract_all 5 [2; 10]%float)).
Proof.
  split; [reflexivity|]. split; [reflexivity|].
  apply (gauge_negative_deltas default_config scenario3_state "stats.gauges.g" 5%float
           [2; 10]%float).
  - reflexivity.
  - reflexivity.
  - repeat constructor.
Defined.

(** C5 as stated fails: on the stored value 0 the events g:-3|g and
    g:--5|g (a relative-negative delta of magnitude -5) leave the gauge at
    5, since the value is clamped at 0 after the first event already,
    while max(0, 0 - 3 - (-5)) = 2. *)
Lemma gauge_clamps_at_every_step :
  (handle_all default_config [negative_delta "g" 3; negative_delta "g" (-5)]
     (mkState ∅ {["g" := 0%float]} ∅ ∅ ∅) ≫= fun st => gauges st !! "g") = Some 5%float
  /\ float_max0 (subtract_all 0 [3; -5]%float) = 2%float.
Proof. split; by vm_compute. Qed.

(** * Further properties *)

(** ** The parser, line by line *)

Lemma split_from_app cur a b :
  split_from cur (a +:+ nl +:+ b) = split_from cur a ++ split_from "" b.
Proof.
  revert cur. induction a as [|x a IH]; intros cur.
  - rewrite str_app_nil. unfold nl. rewrite str_app_cons, str_app_nil.
    cbn [split_from]. by rewrite decide_True by done.
  - rewrite str_app_cons. cbn [split_from].
    destruct (decide (x = ascii_of_nat 10)); [|apply IH].
    by rewrite IH.
Qed.

Section ParserLines.

Variable ParseInt : string -> option Z.
Variable ParseFloat64 : string -> option float.
Variable ParseFloat32 : string -> option float.
Variable cfg : Config.

Local Abbreviation pl := (parse_line ParseInt ParseFloat64 ParseFloat32 cfg).
Local Abbreviation pstep := (parse_step ParseInt ParseFloat64 ParseFloat32 cfg).
Local Abbreviation pm := (parseMessage ParseInt ParseFloat64 ParseFloat32 cfg).

(** The parser on two payloads joined by a newline. *)
Lemma parseMessage_joined (a b : string) :
  pm (a +:+ nl +:+ b) = (o1 ← pm a; o2 ← pm b; Some (o1 ++ o2)).
Proof.
  unfold parseMessage, Split. rewrite split_from_app, foldl_app.
  destruct (foldl pstep (Some []) (split_from "" a)) as [o1|]; cbn [mbind option_bind].
  - rewrite parse_loop. by destruct (foldl pstep (Some []) (split_from "" b)).
  - apply parse_loop_None.
Qed.

(** X1: the events of two payloads joined by a newline are the events of
    the first followed by the events of the second; a panic in either is
    a panic of the whole.  A newline at the end adds nothing. *)
Theorem parseMessage_app (a b : string) :
  pm (a +:+ nl +:+ b) = (o1 ← pm a; o2 ← pm b; Some (o1 ++ o2))
  /\ pm (a +:+ nl) = pm a.
Proof.
  split; [apply parseMessage_joined|].
  rewrite <- (str_app_nil_r nl), parseMessage_joined.
  destruct (pm a) as [o1|]; [|done].
  change (pm "") with (Some (@nil Packet)). cbn [mbind option_bind]. by rewrite app_nil_r.
Qed.

End ParserLines.

(** ** What every parsed event looks like *)

Section ParserInv.

Variable ParseInt : string -> option Z.
Variable ParseFloat64 : string -> option float.
Variable ParseFloat32 : string -> option float.
Variable cfg : Config.

Local Abbreviation pl := (parse_line ParseInt ParseFloat64 ParseFloat32 cfg).
Local Abbreviation pstep := (parse_step ParseInt ParseFloat64 ParseFloat32 cfg).
Local Abbreviation pm := (parseMessage ParseInt ParseFloat64 ParseFloat32 cfg).

(** What the parser makes of a type indicator. *)
Lemma parse_type_inv input index mtypeStr prefixToAdd input' :
  parse_type cfg input index = Some (mtypeStr, prefixToAdd, input') ->
  (mtypeStr = "ms" /\ prefixToAdd = prefix cfg +:+ prefixTimers cfg)
  \/ (exists c, c <> "m"%char /\ mtypeStr = string_of_byte c /\ prefixToAdd = prefix cfg).
Proof.
  unfold parse_type. destruct (String.get index input) as [c|]; [|done].
  destruct (decide (c = "m"%char)).
  - destruct (String.get (S index) input) as [c'|]; [|done].
    destruct (decide (c' = "s"%char)); [|done]. intros [= <- <- <-]. by left.
  - intros [= <- <- <-]. right. by exists c.
Qed.

Lemma parse_value_shape mtypeStr val prefixToAdd v prefixToAdd' name sampling :
  (mtypeStr = "ms" /\ prefixToAdd = prefix cfg +:+ prefixTimers cfg)
  \/ (exists c, c <> "m"%char /\ mtypeStr = string_of_byte c /\ prefixToAdd = prefix cfg) ->
  parse_value ParseInt ParseFloat64 cfg mtypeStr val prefixToAdd = Some (Some (v, prefixToAdd')) ->
  event_shape cfg (mkPacket (prefixToAdd' +:+ name) v mtypeStr sampling).
Proof.
  unfold event_shape, well_typed, sub_prefix. cbn [Modifier Value Bucket].
  intros [[-> ->]|(c & Hm & -> & ->)].
  - cbn. destruct (ParseFloat64 val) as [f|]; [|done]. intros [= <- <-].
    split; [|exists name; by rewrite str_app_assoc].
    repeat split; try done. by exists f.
  - destruct (string_of_byte_cases c) as [-> | [[c2 ->] | [c2 ->]]].
    + unfold parse_value.
      destruct (decide (c = "c"%char)) as [->|Hc].
      { destruct (ParseInt val) as [i|]; [|done]. intros [= <- <-].
        split; [|exists name; by rewrite str_app_nil].
        repeat split; try done. by exists i. }
      destruct (decide (c = "g"%char)) as [->|Hg].
      { destruct val as [|v0 val']; [done|].
        destruct (ParseFloat64 _) as [f|]; [|done]. intros [= <- <-].
        split; [|exists name; by rewrite str_app_assoc].
        repeat split; try done. by eexists. }
      destruct (decide (c = "s"%char)) as [->|Hs].
      { intros [= <- <-].
        split; [|exists name; by rewrite str_app_nil].
        repeat split; try done. by eexists. }
      destruct (ParseFloat64 val) as [f|]; [|done]. intros [= <- <-].
      split.
      * repeat split; intros [= ->]; done.
      * exists name. rewrite decide_False by (intros [=]).
        rewrite decide_False by (intros [= ->]; done). by rewrite str_app_nil.
    + cbn. destruct (ParseFloat64 val) as [f|]; [|done]. intros [= <- <-].
      split; [|exists name; by rewrite str_app_nil].
      repeat split; discriminate.
    + cbn. destruct (ParseFloat64 val) as [f|]; [|done]. intros [= <- <-].
      split; [|exists name; by rewrite str_app_nil].
      repeat split; discriminate.
Qed.

Lemma parse_line_shape_inv line p : pl line = Emit p -> event_shape cfg p.
Proof.
  unfold parse_line.
  destruct (decide (String.length line = O)); [done|].
  destruct (IndexByte line ":") as [index|]; [|done].
  destruct (decide (index = _)); [done|].
  destruct (IndexByte (str_drop (S index) line) "|") as [index'|]; [|done].
  destruct (decide (index' = _)); [done|].
  destruct (parse_type cfg _ _) as [[[mtypeStr prefixToAdd] input']|] eqn:Et; [|done].
  apply parse_type_inv in Et.
  destruct (parse_value _ _ _ _ _ _) as [[[v prefixToAdd']|]|] eqn:Ev; try done.
  intros [= <-]. by eapply parse_value_shape.
Qed.

Lemma parse_loop_shape ls acc out :
  foldl pstep (Some acc) ls = Some out -> Forall (event_shape cfg) acc -> Forall (event_shape cfg) out.
Proof.
  revert acc. induction ls as [|l ls IH]; intros acc.
  - by intros [= <-].
  - cbn [foldl]. unfold parse_step at 2. cbn [mbind option_bind].
    destruct (pl l) as [|p|] eqn:El.
    + apply IH.
    + intros H Hacc. apply (IH _ H). apply Forall_app. split; [done|].
      apply Forall_singleton. by apply parse_line_shape_inv in El.
    + by rewrite parse_loop_None.
Qed.

Lemma parseMessage_shape data out : pm data = Some out -> Forall (event_shape cfg) out.
Proof. intros H. by apply (parse_loop_shape _ _ _ H). Qed.


Lemma packetHandler_typed p st : well_typed p -> is_Some (packetHandler cfg p st).
Proof.
  intros (Hms & Hg & Hc & Hs). unfold packetHandler.
  destruct (decide (Modifier p = "ms")) as [E|_]; [destruct (Hms E) as [f ->]; by eexists|].
  destruct (decide (Modifier p = "g")) as [E|_]; [destruct (Hg E) as [g ->]; by eexists|].
  destruct (decide (Modifier p = "c")) as [E|_]; [destruct (Hc E) as [i ->]; by eexists|].
  destruct (decide (Modifier p = "s")) as [E|_]; [destruct (Hs E) as [s ->]; by eexists|].
  by eexists.
Qed.

Lemma handle_all_typed ps st : Forall well_typed ps -> is_Some (handle_all cfg ps st).
Proof.
  revert st. induction ps as [|p ps IH]; intros st Hps; [by eexists|].
  apply Forall_cons in Hps as [Hp Hps]. cbn [handle_all].
  destruct (packetHandler_typed p st Hp) as [st' ->]. by apply IH.
Qed.

(** X2: the aggregator never panics on what the parser produces: every
    event of a parsed payload carries the value type that packetHandler
    asserts for its modifier, so the events are applied one after the
    other to any tables. *)
Theorem parsed_events_are_handled data out st :
  pm data = Some out ->
  Forall well_typed out /\ exists st', handle_all cfg out st = Some st'.
Proof.
  intros H%parseMessage_shape.
  assert (Hty : Forall well_typed out).
  { eapply Forall_impl; [exact H|]. by intros p [Hp _]. }
  split; [done|]. by apply handle_all_typed.
Qed.

(** X3: every event of a parsed payload has a bucket that starts with the
    global prefix, followed by the timer prefix for the modifier ms, by
    the gauge prefix for the modifier g, and by the name of the line. *)
Theorem parsed_buckets_carry_prefix data out p :
  pm data = Some out -> p ∈ out ->
  exists name, Bucket p = prefix cfg +:+ sub_prefix cfg (Modifier p) +:+ name.
Proof.
  intros H%parseMessage_shape Hp.
  rewrite Forall_forall in H. by destruct (H p Hp).
Qed.

End ParserInv.

Lemma parsed_events_are_handled_witness :
  parseMessage ParseInt_digits ParseFloat_digits ParseFloat_digits default_config
    ("foo:1|c" +:+ nl +:+ "lat:20|ms" +:+ nl +:+ "g:+3|g")
  = Some [mkPacket "stats.foo" (IntV 1) "c" 1;
          mkPacket "stats.timers.lat" (FloatV 20) "ms" 1;
          mkPacket "stats.gauges.g" (GaugeV (mkGaugeData true false 3)) "g" 1]
  /\ exists st',
       handle_all default_config
         [mkPacket "stats.foo" (IntV 1) "c" 1;
          mkPacket "stats.timers.lat" (FloatV 20) "ms" 1;
          mkPacket "stats.gauges.g" (GaugeV (mkGaugeData true false 3)) "g" 1] empty_state
       = Some st'.
Proof.
  split; [by vm_compute|].
  apply (parsed_events_are_handled ParseInt_digits ParseFloat_digits ParseFloat_digits
           default_config ("foo:1|c" +:+ nl +:+ "lat:20|ms" +:+ nl +:+ "g:+3|g") _ empty_state).
  by vm_compute.
Defined.

Lemma parsed_buckets_carry_prefix_witness :
  parseMessage ParseInt_digits ParseFloat_digits ParseFloat_digits default_config "lat:20|ms"
  = Some [mkPacket "stats.timers.lat" (FloatV 20) "ms" 1]
  /\ mkPacket "stats.timers.lat" (FloatV 20) "ms" 1
     ∈ [mkPacket "stats.timers.lat" (FloatV 20) "ms" 1]
  /\ exists name,
       Bucket (mkPacket "stats.timers.lat" (FloatV 20) "ms" 1)
       = prefix default_config +:+ sub_prefix default_config "ms" +:+ name.
Proof.
  split; [by vm_compute|]. split; [apply list_elem_of_here|].
  apply (parsed_buckets_carry_prefix ParseInt_digits ParseFloat_digits ParseFloat_digits
           default_config "lat:20|ms" [mkPacket "stats.timers.lat" (FloatV 20) "ms" 1]).
  - by vm_compute.
  - apply list_elem_of_here.
Defined.

(** ** The wire format, type by type *)

Section WireFormat.

Variable ParseInt : string -> option Z.
Variable ParseFloat64 : string -> option float.
Variable ParseFloat32 : string -> option float.
Variable cfg : Config.

Local Abbreviation pl := (parse_line ParseInt ParseFloat64 ParseFloat32 cfg).
Local Abbreviation pm := (parseMessage ParseInt ParseFloat64 ParseFloat32 cfg).

(** A line name:val|T rest whose type byte T is not m. *)
Lemma parse_line_byte name val c rest :
  IndexByte name ":" = None -> IndexByte val "|" = None -> c <> "m"%char ->
  pl (metric_line name val (String c rest))
  = match parse_value ParseInt ParseFloat64 cfg (string_of_byte c) val (prefix cfg) with
    | None => Panic
    | Some None => Skip
    | Some (Some (v, prefixToAdd')) =>
        Emit (mkPacket (prefixToAdd' +:+ name) v (string_of_byte c)
                (parse_sampling ParseFloat32 rest))
    end.
Proof.
  intros Hname Hval Hm. unfold metric_line.
  rewrite parse_line_shape, parse_type_at by done.
  by rewrite decide_False by done.
Qed.

(** The rate the parser reads is the rate of the line. *)
Lemma parse_sampling_rate_of rest :
  parse_sampling ParseFloat32 rest = rate_of ParseFloat32 rest.
Proof.
  unfold parse_sampling, HasPrefix.
  destruct rest as [|a [|b r]].
  - reflexivity.
  - by destruct a as [[] [] [] [] [] [] [] []].
  - destruct a as [[] [] [] [] [] [] [] []]; try reflexivity.
    destruct b as [[] [] [] [] [] [] [] []]; try reflexivity.
    by destruct r.
Qed.

(** X4: a counter line name:val|c... gives one event for the bucket
    prefix+name with the integer ParseInt reads from val, or no event
    when val is no integer.  The sampling rate of the event is the
    float32 of the number that follows "|@" right after the type byte c;
    it is 1 when c is not followed by "|@" and when what follows "|@" is
    no number. *)
Theorem counter_line_event name val rest more :
  IndexByte name ":" = None -> IndexByte val "|" = None ->
  IndexByte (metric_line name val (String "c" rest)) (ascii_of_nat 10) = None ->
  pm (metric_line name val (String "c" rest) +:+ nl +:+ more)
  = (fun l => match ParseInt val with
              | Some i => [mkPacket (prefix cfg +:+ name) (IntV i) "c"
                             (rate_of ParseFloat32 rest)]
              | None => []
              end ++ l) <$> pm more.
Proof.
  intros Hname Hval Hnl. rewrite <- parse_sampling_rate_of.
  rewrite parseMessage_line, parse_line_byte by done.
  change (string_of_byte "c") with "c". unfold parse_value.
  rewrite decide_True by done.
  destruct (ParseInt val) as [i|]; cbn [fmap option_fmap option_map line_events mbind option_bind];
    by destruct (pm more).
Qed.

(** X5: a timer line name:val|ms... gives one event for the bucket
    prefix+prefixTimers+name with the float64 read from val, or no event
    when val is no number. *)
Theorem timer_line_event name val rest more :
  IndexByte name ":" = None -> IndexByte val "|" = None ->
  IndexByte (metric_line name val (String "m" (String "s" rest))) (ascii_of_nat 10) = None ->
  pm (metric_line name val (String "m" (String "s" rest)) +:+ nl +:+ more)
  = (fun l => match ParseFloat64 val with
              | Some f => [mkPacket (prefix cfg +:+ prefixTimers cfg +:+ name) (FloatV f) "ms"
                             (parse_sampling ParseFloat32 rest)]
              | None => []
              end ++ l) <$> pm more.
Proof.
  intros Hname Hval Hnl.
  rewrite parseMessage_line by done. unfold metric_line.
  rewrite parse_line_shape, parse_type_at by done.
  rewrite !decide_True by done. unfold parse_value.
  rewrite !decide_False by done.
  destruct (ParseFloat64 val) as [f|];
    cbn [fmap option_fmap option_map line_events mbind option_bind];
    [rewrite str_app_assoc|]; by destruct (pm more).
Qed.

(** X6: a set line name:val|s... gives one event for the bucket
    prefix+name whose value is the text val as it stands, the empty text
    included. *)
Theorem set_line_event name val rest more :
  IndexByte name ":" = None -> IndexByte val "|" = None ->
  IndexByte (metric_line name val (String "s" rest)) (ascii_of_nat 10) = None ->
  pm (metric_line name val (String "s" rest) +:+ nl +:+ more)
  = (fun l => mkPacket (prefix cfg +:+ name) (StringV val) "s"
                (parse_sampling ParseFloat32 rest) :: l) <$> pm more.
Proof.
  intros Hname Hval Hnl.
  rewrite parseMessage_line, parse_line_byte by done.
  change (string_of_byte "s") with "s". unfold parse_value.
  rewrite decide_False, decide_False, decide_True by done.
  cbn [line_events mbind option_bind]. by destruct (pm more).
Qed.

(** X7: a gauge line name:val|g...: a leading + makes a relative delta, a
    leading - a relative negative one, both with the number read from
    what follows the sign; any other first byte makes an absolute value
    read from the whole of val.  The bucket is
    prefix+prefixGauges+name; a text that is no number gives no event. *)
Theorem gauge_line_event name v0 val' rest more :
  IndexByte name ":" = None -> IndexByte (String v0 val') "|" = None ->
  IndexByte (metric_line name (String v0 val') (String "g" rest)) (ascii_of_nat 10) = None ->
  let relative := bool_decide (v0 = "+"%char \/ v0 = "-"%char) in
  let negative := bool_decide (v0 = "-"%char) in
  let text := if relative then val' else String v0 val' in
  pm (metric_line name (String v0 val') (String "g" rest) +:+ nl +:+ more)
  = (fun l => match ParseFloat64 text with
              | Some f => [mkPacket (prefix cfg +:+ prefixGauges cfg +:+ name)
                             (GaugeV (mkGaugeData relative negative f)) "g"
                             (parse_sampling ParseFloat32 rest)]
              | None => []
              end ++ l) <$> pm more.
Proof.
  intros Hname Hval Hnl relative negative text.
  rewrite parseMessage_line, parse_line_byte by done.
  change (string_of_byte "g") with "g". unfold parse_value.
  rewrite decide_False, decide_True by done.
  fold relative. fold text.
  replace (relative && bool_decide (v0 = "-"%char)) with negative.
  2:{ unfold relative, negative. destruct (decide (v0 = "-"%char)) as [->|Hn].
      - by rewrite !bool_decide_eq_true_2 by auto.
      - rewrite (bool_decide_eq_false_2 (v0 = "-"%char)) by done. by rewrite andb_false_r. }
  destruct (ParseFloat64 text) as [f|];
    cbn [fmap option_fmap option_map line_events mbind option_bind];
    [rewrite str_app_assoc|]; by destruct (pm more).
Qed.

(** X8: a gauge line with an empty value, name:|g..., makes the parser
    panic (it reads the first byte of the value), wherever the line
    stands in the payload. *)
Theorem empty_gauge_value_panics name rest before more :
  IndexByte name ":" = None ->
  IndexByte (metric_line name "" (String "g" rest)) (ascii_of_nat 10) = None ->
  pm (metric_line name "" (String "g" rest) +:+ nl +:+ more) = None
  /\ pm (before +:+ nl +:+ metric_line name "" (String "g" rest) +:+ nl +:+ more) = None.
Proof.
  intros Hname Hnl.
  assert (H : pm (metric_line name "" (String "g" rest) +:+ nl +:+ more) = None).
  { rewrite parseMessage_line, parse_line_byte by done.
    change (string_of_byte "g") with "g". unfold parse_value.
    by rewrite decide_False, decide_True by done. }
  split; [done|].
  rewrite parseMessage_joined, H. by destruct (pm before).
Qed.

End WireFormat.

Lemma counter_line_event_witness :
  IndexByte "foo" ":" = None /\ IndexByte "7" "|" = None
  /\ IndexByte (metric_line "foo" "7" "c|@2") (ascii_of_nat 10) = None
  /\ parseMessage ParseInt_digits ParseFloat_digits ParseFloat_digits default_config
       (metric_line "foo" "7" "c|@2" +:+ nl +:+ "")
     = Some [mkPacket "stats.foo" (IntV 7) "c" 2]
  /\ parseMessage ParseInt_digits ParseFloat_digits ParseFloat_digits default_config
       (metric_line "foo" "7" "c|2" +:+ nl +:+ "")
     = Some [mkPacket "stats.foo" (IntV 7) "c" 1].
Proof.
  split; [reflexivity|]. split; [reflexivity|]. split; [reflexivity|]. split.
  - exact (counter_line_event ParseInt_digits ParseFloat_digits ParseFloat_digits
             default_config "foo" "7" "|@2" "" eq_refl eq_refl eq_refl).
  - exact (counter_line_event ParseInt_digits ParseFloat_digits ParseFloat_digits
             default_config "foo" "7" "|2" "" eq_refl eq_refl eq_refl).
Defined.

Lemma timer_line_event_witness :
  IndexByte "lat" ":" = None /\ IndexByte "20" "|" = None
  /\ IndexByte (metric_line "lat" "20" "ms") (ascii_of_nat 10) = None
  /\ parseMessage ParseInt_digits ParseFloat_digits ParseFloat_digits default_config
       (metric_line "lat" "20" "ms" +:+ nl +:+ "")
     = (fun l => match ParseFloat_digits "20" with
                 | Some f => [mkPacket (prefix default_config +:+ prefixTimers default_config
                                        +:+ "lat") (FloatV f) "ms"
                                (parse_sampling ParseFloat_digits "")]
                 | None => []
                 end ++ l)
       <$> parseMessage ParseInt_digits ParseFloat_digits ParseFloat_digits default_config "".
Proof.
  split; [reflexivity|]. split; [reflexivity|]. split; [reflexivity|].
  apply (timer_line_event ParseInt_digits ParseFloat_digits ParseFloat_digits default_config
           "lat" "20" "" ""); reflexivity.
Defined.

Lemma set_line_event_witness :
  IndexByte "users" ":" = None /\ IndexByte "ann" "|" = None
  /\ IndexByte (metric_line "users" "ann" "s") (ascii_of_nat 10) = None
  /\ parseMessage ParseInt_digits ParseFloat_digits ParseFloat_digits default_config
       (metric_line "users" "ann" "s" +:+ nl +:+ "")
     = (fun l => mkPacket (prefix default_config +:+ "users") (StringV "ann") "s"
                   (parse_sampling ParseFloat_digits "") :: l)
       <$> parseMessage ParseInt_digits ParseFloat_digits ParseFloat_digits default_config "".
Proof.
  split; [reflexivity|]. split; [reflexivity|]. split; [reflexivity|].
  apply (set_line_event ParseInt_digits ParseFloat_digits ParseFloat_digits default_config
           "users" "ann" "" ""); reflexivity.
Defined.

Lemma gauge_line_event_witness :
  IndexByte "g" ":" = None /\ IndexByte "-3" "|" = None
  /\ IndexByte (metric_line "g" "-3" "g") (ascii_of_nat 10) = None
  /\ parseMessage ParseInt_digits ParseFloat_digits ParseFloat_digits default_config
       (metric_line "g" "-3" "g" +:+ nl +:+ "")
     = (fun l => match ParseFloat_digits "3" with
                 | Some f => [mkPacket (prefix default_config +:+ prefixGauges default_config
                                        +:+ "g") (GaugeV (mkGaugeData true true f)) "g"
                                (parse_sampling ParseFloat_digits "")]
                 | None => []
                 end ++ l)
       <$> parseMessage ParseInt_digits ParseFloat_digits ParseFloat_digits default_config "".
Proof.
  split; [reflexivity|]. split; [reflexivity|]. split; [reflexivity|].
  apply (gauge_line_event ParseInt_digits ParseFloat_digits ParseFloat_digits default_config
           "g" "-"%char "3" "" ""); reflexivity.
Defined.

Lemma empty_gauge_value_panics_witness :
  IndexByte "g" ":" = None
  /\ IndexByte (metric_line "g" "" "g") (ascii_of_nat 10) = None
  /\ parseMessage ParseInt_digits ParseFloat_digits ParseFloat_digits default_config
       (metric_line "g" "" "g" +:+ nl +:+ "") = None
  /\ parseMessage ParseInt_digits ParseFloat_digits ParseFloat_digits default_config
       ("foo:1|c" +:+ nl +:+ metric_line "g" "" "g" +:+ nl +:+ "") = None.
Proof.
  split; [reflexivity|]. split; [reflexivity|].
  apply (empty_gauge_value_panics ParseInt_digits ParseFloat_digits ParseFloat_digits
           default_config "g" "" "foo:1|c" ""); reflexivity.
Defined.

(** ** Lines that give no event *)

Section Malformed.

Variable ParseInt : string -> option Z.
Variable ParseFloat64 : string -> option float.
Variable ParseFloat32 : string -> option float.
Variable cfg : Config.

Local Abbreviation pl := (parse_line ParseInt ParseFloat64 ParseFloat32 cfg).
Local Abbreviation pm := (parseMessage ParseInt ParseFloat64 ParseFloat32 cfg).

Lemma parse_line_no_colon line : IndexByte line ":" = None -> pl line = Skip.
Proof.
  intros H. unfold parse_line. rewrite H. by destruct (decide _).
Qed.

Lemma parse_line_no_bar name v :
  IndexByte name ":" = None -> IndexByte v "|" = None ->
  pl (name +:+ ":" +:+ v) = Skip.
Proof.
  intros Hname Hv. unfold parse_line.
  rewrite !str_app_cons, !str_app_nil.
  destruct (decide _); [done|].
  rewrite IndexByte_app by done.
  destruct (decide _); [done|].
  replace (S (String.length name)) with (String.length (name +:+ ":"))
    by (rewrite string_length_append; cbn; lia).
  replace (name +:+ String ":" v) with ((name +:+ ":") +:+ v)
    by (by rewrite str_app_assoc, str_app_cons, str_app_nil).
  by rewrite str_drop_app, Hv.
Qed.

Lemma parse_line_bar_last name val :
  IndexByte name ":" = None -> IndexByte val "|" = None ->
  pl (name +:+ ":" +:+ val +:+ "|") = Skip.
Proof.
  intros Hname Hval. unfold parse_line.
  rewrite !str_app_cons, !str_app_nil.
  destruct (decide _); [done|].
  rewrite IndexByte_app by done.
  destruct (decide _); [done|].
  replace (S (String.length name)) with (String.length (name +:+ ":"))
    by (rewrite string_length_append; cbn; lia).
  replace (name +:+ String ":" (val +:+ "|")) with ((name +:+ ":") +:+ (val +:+ "|"))
    by (by rewrite str_app_assoc, str_app_cons, str_app_nil).
  rewrite str_drop_app, IndexByte_app by done.
  rewrite decide_True; [done|].
  rewrite string_length_append. cbn. lia.
Qed.

(** X9: a line without a colon (the empty line is one), a line
    name:text whose text has no bar, an empty text included, and a line
    name:val| that ends at the bar give no event, and the parser goes
    on with the lines after them. *)
Theorem malformed_line_is_skipped line more :
  IndexByte line (ascii_of_nat 10) = None ->
  IndexByte line ":" = None
  \/ (exists name v, line = name +:+ ":" +:+ v
        /\ IndexByte name ":" = None /\ IndexByte v "|" = None)
  \/ (exists name val, line = name +:+ ":" +:+ val +:+ "|"
        /\ IndexByte name ":" = None /\ IndexByte val "|" = None) ->
  pm (line +:+ nl +:+ more) = pm more.
Proof.
  intros Hnl Hshape. rewrite parseMessage_line by done.
  assert (Hskip : pl line = Skip).
  { destruct Hshape as [H|[(name & v & -> & Hname & Hv)|(name & val & -> & Hname & Hval)]].
    - by apply parse_line_no_colon.
    - by apply parse_line_no_bar.
    - by apply parse_line_bar_last. }
  rewrite Hskip. cbn [line_events mbind option_bind].
  destruct (pm more) as [o|]; [|done]. done.
Qed.

End Malformed.

Lemma malformed_line_is_skipped_witness :
  IndexByte "foo:12" (ascii_of_nat 10) = None
  /\ (IndexByte "foo:12" ":" = None
      \/ (exists name v, "foo:12" = name +:+ ":" +:+ v
            /\ IndexByte name ":" = None /\ IndexByte v "|" = None)
      \/ (exists name val, "foo:12" = name +:+ ":" +:+ val +:+ "|"
            /\ IndexByte name ":" = None /\ IndexByte val "|" = None))
  /\ parseMessage ParseInt_digits ParseFloat_digits ParseFloat_digits default_config
       ("foo:12" +:+ nl +:+ "bar:1|c")
     = parseMessage ParseInt_digits ParseFloat_digits ParseFloat_digits default_config "bar:1|c".
Proof.
  assert (H : IndexByte "foo:12" ":" = None
      \/ (exists name v, "foo:12" = name +:+ ":" +:+ v
            /\ IndexByte name ":" = None /\ IndexByte v "|" = None)
      \/ (exists name val, "foo:12" = name +:+ ":" +:+ val +:+ "|"
            /\ IndexByte name ":" = None /\ IndexByte val "|" = None)).
  { right. left. exists "foo", "12". split; [reflexivity|]. split; reflexivity. }
  split; [reflexivity|]. split; [exact H|].
  apply (malformed_line_is_skipped ParseInt_digits ParseFloat_digits ParseFloat_digits
           default_config "foo:12" "bar:1|c"); [reflexivity|exact H].
Defined.

(** ** Timer samples and set members of a window *)

Lemma extended_snoc {A : Type} (old : option (list A)) (x : A) (items : list A) :
  extended (Some (default [] old ++ [x])) items = extended old (x :: items).
Proof.
  unfold extended. destruct items as [|y items]; [done|].
  cbn [default]. unfold id. by rewrite <- app_assoc.
Qed.

Lemma packetHandler_timer cfg p st st' B :
  packetHandler cfg p st = Some st' ->
  timers st' !! B
  = match timer_sample B p with
    | Some f => Some (default [] (timers st !! B) ++ [f])
    | None => timers st !! B
    end.
Proof.
  unfold packetHandler, timer_sample. cbn [timers].
  destruct (decide (Modifier p = "ms")) as [Hms|Hnms].
  { destruct (Value p) as [|f| |]; intros Heq; simplify_eq; cbn [timers].
    destruct (decide (Bucket p = B)) as [Hb|Hnb].
    - rewrite decide_True by done. by rewrite Hb, lookup_insert_eq.
    - rewrite decide_False by (intros [_ ?]; done). by rewrite lookup_insert_ne. }
  rewrite (decide_False (P := Modifier p = "ms" /\ Bucket p = B)) by (intros [? _]; done).
  destruct (decide (Modifier p = "g")).
  { destruct (Value p); intros Heq; by simplify_eq. }
  destruct (decide (Modifier p = "c")).
  { destruct (Value p); intros Heq; by simplify_eq. }
  destruct (decide (Modifier p = "s")).
  { destruct (Value p); intros Heq; by simplify_eq. }
  by intros [= <-].
Qed.

Lemma handle_all_timer cfg ps st st' B :
  handle_all cfg ps st = Some st' ->
  timers st' !! B = extended (timers st !! B) (window_samples B ps).
Proof.
  revert st. induction ps as [|p ps IH]; intros st Hrun.
  - by injection Hrun as <-.
  - cbn [handle_all] in Hrun.
    destruct (packetHandler cfg p st) as [st1|] eqn:Hp; [|done].
    rewrite (IH _ Hrun), (packetHandler_timer _ _ _ _ _ Hp).
    unfold window_samples. cbn [omap list_omap].
    change (list_omap _ _ (timer_sample B) ps) with (omap (timer_sample B) ps).
    destruct (timer_sample B p); [|done]. apply extended_snoc.
Qed.

Lemma packetHandler_set cfg p st st' B :
  packetHandler cfg p st = Some st' ->
  sets st' !! B
  = match set_member B p with
    | Some s => Some (default [] (sets st !! B) ++ [s])
    | None => sets st !! B
    end.
Proof.
  unfold packetHandler, set_member. cbn [sets].
  destruct (decide (Modifier p = "ms")) as [Hms|Hnms].
  { rewrite decide_False by (rewrite Hms; intros [? _]; done).
    destruct (Value p); intros Heq; by simplify_eq. }
  destruct (decide (Modifier p = "g")) as [Hg|_].
  { rewrite decide_False by (rewrite Hg; intros [? _]; done).
    destruct (Value p); intros Heq; by simplify_eq. }
  destruct (decide (Modifier p = "c")) as [Hc|_].
  { rewrite decide_False by (rewrite Hc; intros [? _]; done).
    destruct (Value p); intros Heq; by simplify_eq. }
  destruct (decide (Modifier p = "s")) as [Hs|Hns].
  { destruct (Value p) as [| | |s]; intros Heq; simplify_eq; cbn [sets].
    destruct (decide (Bucket p = B)) as [Hb|Hnb].
    - rewrite decide_True by done. by rewrite Hb, lookup_insert_eq.
    - rewrite decide_False by (intros [_ ?]; done). by rewrite lookup_insert_ne. }
  rewrite decide_False by (intros [? _]; done). by intros [= <-].
Qed.

Lemma handle_all_set cfg ps st st' B :
  handle_all cfg ps st = Some st' ->
  sets st' !! B = extended (sets st !! B) (window_members B ps).
Proof.
  revert st. induction ps as [|p ps IH]; intros st Hrun.
  - by injection Hrun as <-.
  - cbn [handle_all] in Hrun.
    destruct (packetHandler cfg p st) as [st1|] eqn:Hp; [|done].
    rewrite (IH _ Hrun), (packetHandler_set _ _ _ _ _ Hp).
    unfold window_members. cbn [omap list_omap].
    change (list_omap _ _ (set_member B) ps) with (omap (set_member B) ps).
    destruct (set_member B p); [|done]. apply extended_snoc.
Qed.

(** X10: over a window of events of any kind, the timer bucket [B] gets
    the values of the timer events for [B] appended in their order of
    arrival, and is left as it was, absent included, when there is none;
    so a bucket that exists is never made empty. *)
Theorem timers_collect_window_samples cfg ps st st' B :
  handle_all cfg ps st = Some st' ->
  timers st' !! B = extended (timers st !! B) (window_samples B ps)
  /\ (timers st !! B <> Some [] -> timers st' !! B <> Some []).
Proof.
  intros Hrun. rewrite (handle_all_timer _ _ _ _ _ Hrun). split; [done|].
  unfold extended. destruct (window_samples B ps) as [|f fs]; [done|].
  intros _ [= H]. by apply app_eq_nil in H as [_ ?].
Qed.

(** ** The sets emitter *)

Lemma sets_loop now (l : list (string * list string)) buffer ss :
  foldl (sets_step now) (buffer, ss) l
  = (buffer ++ (set_line now <$> l), delete_visited ss l).
Proof.
  revert buffer ss. induction l as [|kv l IH]; intros buffer ss.
  - cbn. by rewrite app_nil_r.
  - cbn [foldl sets_step]. rewrite IH. unfold Fprintf, delete_visited.
    by rewrite <- app_assoc, fmap_cons.
Qed.

Lemma processSets_eq buffer now st :
  processSets buffer now st
  = (buffer ++ (set_line now <$> map_to_list (sets st)),
     Z.of_nat (size (sets st)),
     mkState (counters st) (gauges st) (timers st) (countInactivity st) ∅).
Proof.
  unfold processSets. by rewrite sets_loop, delete_visited_all.
Qed.

Lemma unique_count_size (l : list string) :
  unique_count l = Z.of_nat (size (list_to_set l : gset string)).
Proof.
  unfold unique_count. f_equal.
  rewrite <- (size_list_to_set (C := gset string) (remove_dups l)) by apply NoDup_remove_dups.
  f_equal. apply set_eq. intros x. by rewrite !elem_of_list_to_set, elem_of_remove_dups.
Qed.

Lemma processSets_lines now st B v :
  mkLine tmpl_int [Astr B; Aint v; Aint now] ∈ (processSets [] now st).1.1
  <-> exists l, sets st !! B = Some l /\ v = unique_count l.
Proof.
  rewrite processSets_eq. cbn [fst app]. rewrite list_elem_of_fmap. split.
  - intros ([B' l] & [= -> ->] & Hin). exists l. split; [|done].
    by apply elem_of_map_to_list in Hin.
  - intros (l & Hl & ->). exists (B, l). split; [done|]. by apply elem_of_map_to_list.
Qed.

(** X11: a set bucket [B] that is absent when the window opens and gets
    at least one set event in it is flushed as the line "B n now" where n
    is the number of distinct strings among the values received for [B],
    and as no other line of that shape; the flush counts one per bucket
    and leaves the table of sets empty. *)
Theorem set_flush_counts_distinct_members cfg ps st st' B now :
  sets st !! B = None ->
  handle_all cfg ps st = Some st' ->
  window_members B ps <> [] ->
  (forall v, mkLine tmpl_int [Astr B; Aint v; Aint now] ∈ (processSets [] now st').1.1
             <-> v = Z.of_nat (size (list_to_set (window_members B ps) : gset string)))
  /\ (processSets [] now st').1.2 = Z.of_nat (size (sets st'))
  /\ sets (processSets [] now st').2 = ∅.
Proof.
  intros Hfresh Hrun Hsome.
  pose proof (handle_all_set _ _ _ _ B Hrun) as Hs.
  rewrite Hfresh in Hs. unfold extended in Hs.
  destruct (window_members B ps) as [|m ms] eqn:Em; [done|]. cbn [default app] in Hs.
  split; [|by rewrite processSets_eq].
  intros v. rewrite processSets_lines, Hs. split.
  - intros (l & [= <-] & ->). apply unique_count_size.
  - intros ->. exists (m :: ms). split; [done|]. symmetry. apply unique_count_size.
Qed.

(** ** Timer buckets built from events *)

Lemma handle_all_nonempty_buckets cfg ps st st' :
  (forall u, timers st !! u <> Some []) ->
  handle_all cfg ps st = Some st' ->
  forall u, timers st' !! u <> Some [].
Proof.
  intros Hst Hrun u. rewrite (handle_all_timer _ _ _ _ u Hrun).
  unfold extended. destruct (window_samples u ps) as [|f fs]; [apply Hst|].
  intros [= H]. by apply app_eq_nil in H as [_ ?].
Qed.

(** X12: with no percentile configured, the timers emitter does not panic
    on tables that events have built: packetHandler makes no empty timer
    bucket, so when no timer bucket was empty before the window, the
    emitter returns, counts one per bucket and empties the table. *)
Theorem timers_flush_without_percentiles cfg ps st st' buffer now :
  (forall u, timers st !! u <> Some []) ->
  handle_all cfg ps st = Some st' ->
  exists buffer',
    processTimers buffer now [] st'
    = Some (buffer', Z.of_nat (size (timers st')),
            mkState (counters st') (gauges st') ∅ (countInactivity st') (sets st')).
Proof.
  intros Hst Hrun.
  destruct (processTimers_safe buffer now [] st') as (buffer' & H & _); [|by exists buffer'].
  intros u t0 Hu. unfold bucket_safe. cbn [forallb]. rewrite andb_true_r.
  destruct t0 as [|f t0]; [|done].
  by destruct (handle_all_nonempty_buckets _ _ _ _ Hst Hrun u).
Qed.

(** X13: a timer bucket [B] that is absent when the window opens is
    flushed with the line "B.count n now", n and now in decimal, where n
    is the number of timer events received for [B] in the window, when no
    bucket makes the emitter panic. *)
Theorem timer_count_is_number_of_events cfg ps st st' B now :
  timers st !! B = None ->
  handle_all cfg ps st = Some st' ->
  window_samples B ps <> [] ->
  timers_safe (percentThreshold cfg) st' ->
  exists buffer n st'',
    processTimers [] now (percentThreshold cfg) st' = Some (buffer, n, st'')
    /\ writes buffer
         (int_text (B +:+ ".count") (Z.of_nat (length (window_samples B ps))) now).
Proof.
  intros Hfresh Hrun Hsome Hsafe.
  pose proof (handle_all_timer _ _ _ _ B Hrun) as Ht.
  rewrite Hfresh in Ht. unfold extended in Ht.
  destruct (window_samples B ps) as [|f fs] eqn:Es; [done|]. cbn [default app] in Ht.
  destruct (processTimers_safe [] now (percentThreshold cfg) st' Hsafe) as (buffer & H & Hl).
  destruct (Hl B (f :: fs) Ht) as (ls & Hls & Hin).
  exists buffer. do 2 eexists. split; [exact H|].
  eexists. split; [|apply render_count].
  apply Hin. unfold timer_lines in Hls. cbv zeta in Hls.
  destruct (at_index _ 0) as [min|]; [|done].
  destruct (at_index _ (_ - 1)) as [max|]; [|done].
  destruct (at_index _ (_ / 2)) as [median|]; [|done].
  cbn [mbind option_bind] in Hls.
  destruct (mapM _ _) as [pl|]; [|done]. injection Hls as <-.
  apply elem_of_app. right. unfold stat_lines.
  rewrite sort_Sort_length.
  do 4 apply list_elem_of_further. apply list_elem_of_here.
Qed.

Lemma timers_collect_window_samples_witness :
  handle_all default_config two_timer_events empty_state = Some two_samples_state
  /\ timers two_samples_state !! "stats.timers.lat"
     = extended (timers empty_state !! "stats.timers.lat")
         (window_samples "stats.timers.lat" two_timer_events)
  /\ (timers empty_state !! "stats.timers.lat" <> Some [] ->
      timers two_samples_state !! "stats.timers.lat" <> Some []).
Proof.
  split; [by vm_compute|].
  apply (timers_collect_window_samples default_config two_timer_events empty_state
           two_samples_state "stats.timers.lat").
  by vm_compute.
Defined.

Lemma set_flush_counts_distinct_members_witness :
  sets empty_state !! "stats.users" = None
  /\ handle_all default_config three_set_events empty_state = Some users_state
  /\ window_members "stats.users" three_set_events <> []
  /\ mkLine tmpl_int [Astr "stats.users"; Aint 2; Aint 7] ∈ (processSets [] 7 users_state).1.1.
Proof.
  split; [reflexivity|]. split; [by vm_compute|]. split; [by vm_compute|].
  apply (set_flush_counts_distinct_members default_config three_set_events empty_state
           users_state "stats.users" 7); [reflexivity|by vm_compute|by vm_compute|].
  by vm_compute.
Defined.

Lemma timers_flush_without_percentiles_witness :
  (forall u, timers empty_state !! u <> Some [])
  /\ handle_all default_config two_timer_events empty_state = Some two_samples_state
  /\ exists buffer',
       processTimers [] 7 [] two_samples_state
       = Some (buffer', Z.of_nat (size (timers two_samples_state)),
               mkState (counters two_samples_state) (gauges two_samples_state) ∅
                 (countInactivity two_samples_state) (sets two_samples_state)).
Proof.
  assert (H : forall u, timers empty_state !! u <> Some []) by (intros u; cbn [timers empty_state]; by rewrite lookup_empty).
  split; [exact H|]. split; [by vm_compute|].
  apply (timers_flush_without_percentiles default_config two_timer_events empty_state
           two_samples_state [] 7); [exact H|by vm_compute].
Defined.

Lemma timer_count_is_number_of_events_witness :
  timers empty_state !! "stats.timers.lat" = None
  /\ handle_all default_config two_timer_events empty_state = Some two_samples_state
  /\ window_samples "stats.timers.lat" two_timer_events <> []
  /\ timers_safe (percentThreshold default_config) two_samples_state
  /\ exists buffer n st'',
       processTimers [] 7 (percentThreshold default_config) two_samples_state
       = Some (buffer, n, st'')
       /\ writes buffer
            (int_text ("stats.timers.lat" +:+ ".count")
               (Z.of_nat (length (window_samples "stats.timers.lat" two_timer_events))) 7).
Proof.
  assert (Hsafe : timers_safe (percentThreshold default_config) two_samples_state).
  { intros u t0 Hu. cbn [timers two_samples_state] in Hu.
    apply lookup_singleton_Some in Hu as [_ <-]. reflexivity. }
  split; [reflexivity|]. split; [by vm_compute|]. split; [by vm_compute|].
  split; [exact Hsafe|].
  apply (timer_count_is_number_of_events default_config two_timer_events empty_state
           two_samples_state "stats.timers.lat" 7);
    [reflexivity|by vm_compute|by vm_compute|exact Hsafe].
Defined.

(** ** Gauges never fall below zero *)

(** Subtracting a negative d from a v >= 0 gives a number that is not
    negative. *)
Lemma sub_of_negative v d :
  valid_binary v = true -> valid_binary d = true ->
  SFleb SFzero v = true -> SFltb d SFzero = true ->
  SFleb SFzero (SF64sub v d) = true.
Proof.
  intros Vv Vd Hv Hd.
  destruct v as [[]|[]| |[] mv ev]; try done;
    destruct d as [[]|[]| |[] md ed]; try done.
  unfold SF64sub, SFsub. cbn [cond_Zopp].
  pose proof (valid_exponent _ _ _ Vv) as Hev. pose proof (valid_exponent _ _ _ Vd) as Hed.
  pose proof (binary_normalize_sign
    (Zpos (fst (shl_align mv ev (Z.min ev ed))) - - Zpos (fst (shl_align md ed (Z.min ev ed))))
    (Z.min ev ed) ltac:(lia)) as H.
  destruct (binary_normalize _ _ _ _ _) as [s|[]| |[] m' e']; try done; lia.
Qed.

Lemma not_negative_cases x :
  (x <? 0)%float = false -> nonneg x \/ Prim2SF x = S754_nan.
Proof.
  rewrite negative_repr. unfold nonneg. rewrite FloatAxioms.leb_spec, Prim2SF_zero.
  destruct (Prim2SF x) as [[]|[]| |[] m e]; try done; by auto.
Qed.

Lemma apply_gauge_not_negative v d :
  (v <? 0)%float = false ->
  (apply_gauge v (mkGaugeData true true d) <? 0)%float = false.
Proof.
  intros Hv. unfold apply_gauge. cbn [Relative Negative GValue].
  destruct (v <? d)%float eqn:E; [done|].
  rewrite negative_repr, sub_spec.
  rewrite FloatAxioms.ltb_spec in E.
  pose proof (Prim2SF_valid v) as Vv. pose proof (Prim2SF_valid d) as Vd.
  destruct (not_negative_cases v Hv) as [Hnn%nonneg_repr|Hnan].
  - destruct (SFltb (Prim2SF d) SFzero) eqn:Ed.
    + apply SFleb_not_ltb. by apply sub_of_negative.
    + destruct (Prim2SF d) as [sd|sd| |sd md ed] eqn:Erd.
      * destruct (sub_above _ _ Vv Vd Hnn ltac:(by destruct sd) E) as [H|H];
          [by apply SFleb_not_ltb|by rewrite H].
      * destruct sd; [done|].
        destruct (sub_above _ _ Vv Vd Hnn eq_refl E) as [H|H];
          [by apply SFleb_not_ltb|by rewrite H].
      * by destruct (Prim2SF v) as [[]|[]| |[] mv ev].
      * destruct sd; [done|].
        destruct (sub_above _ _ Vv Vd Hnn eq_refl E) as [H|H];
          [by apply SFleb_not_ltb|by rewrite H].
  - by rewrite Hnan, sub_nan.
Qed.

Lemma fold_gauge_not_negative ds v :
  (v <? 0)%float = false ->
  (foldl (fun v d => apply_gauge v (mkGaugeData true true d)) v ds <? 0)%float = false.
Proof.
  revert v. induction ds as [|d ds IH]; intros v Hv; [done|].
  cbn [foldl]. apply IH. by apply apply_gauge_not_negative.
Qed.

(** X14: relative-negative deltas never take a gauge below zero: when the
    stored value is not below zero, it is not below zero after any
    sequence of them, whatever their magnitudes are (negative ones,
    infinities and NaN included). *)
Theorem gauge_never_below_zero cfg st B v0 ds :
  gauges st !! B = Some v0 ->
  (v0 <? 0)%float = false ->
  exists st' v',
    handle_all cfg (negative_delta B <$> ds) st = Some st'
    /\ gauges st' !! B = Some v'
    /\ (v' <? 0)%float = false.
Proof.
  intros Hv0 Hnn.
  destruct (handle_negative_deltas cfg B ds st v0 Hv0) as (st' & Hrun & Hg).
  exists st'. eexists. split; [done|]. split; [exact Hg|].
  by apply fold_gauge_not_negative.
Qed.

Lemma gauge_never_below_zero_witness :
  gauges scenario3_state !! "stats.gauges.g" = Some 5%float
  /\ (5 <? 0)%float = false
  /\ exists st' v',
       handle_all default_config (negative_delta "stats.gauges.g" <$> [7; -2]%float)
         scenario3_state = Some st'
       /\ gauges st' !! "stats.gauges.g" = Some v'
       /\ (v' <? 0)%float = false.
Proof.
  split; [reflexivity|]. split; [reflexivity|].
  apply (gauge_never_below_zero default_config scenario3_state "stats.gauges.g" 5%float
           [7; -2]%float); reflexivity.
Defined.

(** ** The receive counter *)

Lemma bump_receive_lookup rc cs :
  rc <> "" ->
  bump_receive rc cs !! rc = Some (Int64.add (Z.max 0 (default 0 (cs !! rc))) 1).
Proof.
  intros Hrc. unfold bump_receive. rewrite decide_False by done.
  rewrite lookup_insert_eq. f_equal. f_equal.
  destruct (cs !! rc) as [v|] eqn:E; cbn [default]; unfold id.
  - destruct (Z.ltb_spec v 0).
    + rewrite lookup_insert_eq. cbn. lia.
    + rewrite E. cbn. lia.
  - by rewrite lookup_insert_eq.
Qed.

Lemma packetHandler_receive cfg p st st' :
  receiveCounter cfg <> "" ->
  counter_amount (receiveCounter cfg) p = None ->
  packetHandler cfg p st = Some st' ->
  counters st' !! receiveCounter cfg
  = Some (Int64.add (Z.max 0 (default 0 (counters st !! receiveCounter cfg))) 1).
Proof.
  intros Hrc Hno. unfold packetHandler. unfold counter_amount in Hno. cbn [counters].
  destruct (decide (Modifier p = "ms")).
  { destruct (Value p); intros Heq; simplify_eq; cbn [counters]. by apply bump_receive_lookup. }
  destruct (decide (Modifier p = "g")).
  { destruct (Value p); intros Heq; simplify_eq; cbn [counters]. by apply bump_receive_lookup. }
  destruct (decide (Modifier p = "c")) as [Hc|Hnc].
  { destruct (Value p) as [v| | |]; intros Heq; simplify_eq; cbn [counters].
    destruct (decide (Bucket p = receiveCounter cfg)) as [Hb|Hnb].
    - by rewrite decide_True in Hno by done.
    - rewrite lookup_insert_ne by done. by apply bump_receive_lookup. }
  destruct (decide (Modifier p = "s")).
  { destruct (Value p); intros Heq; simplify_eq; cbn [counters]. by apply bump_receive_lookup. }
  intros [= <-]. cbn [counters]. by apply bump_receive_lookup.
Qed.

Lemma handle_all_receive cfg ps st st' :
  receiveCounter cfg <> "" ->
  window_amounts (receiveCounter cfg) ps = [] ->
  handle_all cfg ps st = Some st' ->
  ps <> [] ->
  Z.max 0 (default 0 (counters st !! receiveCounter cfg)) + Z.of_nat (length ps)
    <= Int64.max_int ->
  counters st' !! receiveCounter cfg
  = Some (Z.max 0 (default 0 (counters st !! receiveCounter cfg)) + Z.of_nat (length ps)).
Proof.
  intros Hrc. revert st. induction ps as [|p ps IH]; intros st Hno Hrun Hne Hmax; [done|].
  cbn [handle_all] in Hrun.
  destruct (packetHandler cfg p st) as [st1|] eqn:Hp; [|done].
  unfold window_amounts in Hno. cbn [omap list_omap] in Hno.
  change (list_omap _ _ (counter_amount (receiveCounter cfg)) ps)
    with (window_amounts (receiveCounter cfg) ps) in Hno.
  destruct (counter_amount (receiveCounter cfg) p) eqn:Ep; [done|].
  pose proof (packetHandler_receive _ _ _ _ Hrc Ep Hp) as H1.
  set (base := Z.max 0 (default 0 (counters st !! receiveCounter cfg))) in *.
  cbn [length] in Hmax.
  assert (Hw : Int64.add base 1 = base + 1).
  { unfold Int64.add. apply wrap_in_range. unfold Int64.min_int, Int64.max_int in *. lia. }
  rewrite Hw in H1.
  destruct ps as [|p' ps'].
  - injection Hrun as <-. rewrite H1. cbn [length]. f_equal.
  - rewrite (IH st1 Hno Hrun ltac:(done)); rewrite H1; cbn [default length]; unfold id.
    + f_equal. lia.
    + cbn [length] in Hmax. lia.
Qed.

(** X15: with a receive counter configured, a window of n >= 1 events,
    none of them a counter event for the receive-counter bucket itself,
    leaves that bucket at max(0, v) + n, where v is the value it held (0
    when it was absent) and the sum stays within int64: every event
    counts one, whatever its modifier, and a negative value is reset to 0
    before the first count. *)
Theorem receive_counter_counts_events cfg ps st st' :
  receiveCounter cfg <> "" ->
  window_amounts (receiveCounter cfg) ps = [] ->
  handle_all cfg ps st = Some st' ->
  ps <> [] ->
  Z.max 0 (default 0 (counters st !! receiveCounter cfg)) + Z.of_nat (length ps)
    <= Int64.max_int ->
  counters st' !! receiveCounter cfg
  = Some (Z.max 0 (default 0 (counters st !! receiveCounter cfg)) + Z.of_nat (length ps)).
Proof.
  intros Hrc Hno Hrun Hne Hmax. by apply handle_all_receive.
Qed.

Lemma receive_counter_counts_events_witness :
  receiveCounter counting_config <> ""
  /\ window_amounts (receiveCounter counting_config) two_timer_events = []
  /\ handle_all counting_config two_timer_events
       (mkState {["stats.received" := -4]} ∅ ∅ ∅ ∅)
     = Some (mkState {["stats.received" := 2]} ∅
               {["stats.timers.lat" := [100; 300]%float]} ∅ ∅)
  /\ two_timer_events <> []
  /\ counters (mkState {["stats.received" := 2]} ∅
                 {["stats.timers.lat" := [100; 300]%float]} ∅ ∅)
       !! receiveCounter counting_config
     = Some (Z.max 0 (default 0 (counters (mkState {["stats.received" := -4]} ∅ ∅ ∅ ∅)
                                   !! receiveCounter counting_config))
             + Z.of_nat (length two_timer_events)).
Proof.
  split; [done|]. split; [by vm_compute|]. split; [by vm_compute|]. split; [done|].
  apply (receive_counter_counts_events counting_config two_timer_events
           (mkState {["stats.received" := -4]} ∅ ∅ ∅ ∅)); [done|by vm_compute|by vm_compute|done|].
  by vm_compute.
Defined.

(** ** One flush *)

(** Each emitter appends to the buffer it is given; its lines, its count
    and the tables it leaves do not depend on what the buffer holds. *)
Lemma processCounters_append cfg buffer now st :
  processCounters cfg buffer now st
  = (buffer ++ (processCounters cfg [] now st).1.1,
     (processCounters cfg [] now st).1.2, (processCounters cfg [] now st).2).
Proof. rewrite !processCounters_eq. cbn [fst snd app]. by rewrite <- app_assoc. Qed.

Lemma processGauges_append buffer now st :
  processGauges buffer now st
  = (buffer ++ (processGauges [] now st).1.1,
     (processGauges [] now st).1.2, (processGauges [] now st).2).
Proof. by rewrite !processGauges_eq. Qed.

Lemma processSets_append buffer now st :
  processSets buffer now st
  = (buffer ++ (processSets [] now st).1.1,
     (processSets [] now st).1.2, (processSets [] now st).2).
Proof. by rewrite !processSets_eq. Qed.

Lemma processTimers_append buffer now pctls st :
  processTimers buffer now pctls st
  = ('(b, n, st') ← processTimers [] now pctls st; Some (buffer ++ b, n, st')).
Proof.
  rewrite !processTimers_eq.
  by destruct (mapM _ _) as [ls|].
Qed.

(** The lines of a timer bucket are five or more. *)
Lemma timer_lines_nonempty pctls now u t0 ls :
  timer_lines pctls now u t0 = Some ls -> ls <> [].
Proof.
  unfold timer_lines. cbv zeta.
  destruct (at_index _ 0) as [min|]; [|done].
  destruct (at_index _ (_ - 1)) as [max|]; [|done].
  destruct (at_index _ (_ / 2)) as [median|]; [|done].
  cbn [mbind option_bind].
  destruct (mapM _ _) as [pl|]; [|done]. intros [= <-].
  unfold stat_lines. by destruct pl.
Qed.

Lemma processTimers_count buffer now pctls st b n st' :
  processTimers buffer now pctls st = Some (b, n, st') ->
  n = Z.of_nat (size (timers st)) /\ (n = 0 -> b = buffer) /\ (b = buffer -> n = 0)
  /\ st' = mkState (counters st) (gauges st) ∅ (countInactivity st) (sets st).
Proof.
  rewrite processTimers_eq.
  destruct (mapM _ _) as [ls|] eqn:E; [|done]. cbn [mbind option_bind].
  intros [= <- <- <-]. split; [done|].
  apply mapM_Some in E. pose proof (Forall2_length _ _ _ E) as Hlen.
  rewrite length_map_to_list in Hlen.
  split; [|split; [|done]].
  - intros H0. assert (ls = []) as -> by (apply length_zero_iff_nil; lia).
    cbn. by rewrite app_nil_r.
  - intros Hb. apply (f_equal length) in Hb. rewrite length_app in Hb.
    destruct ls as [|l0 ls]; [cbn in Hlen; lia|].
    destruct (map_to_list (timers st)) as [|[u t0] kvs] eqn:Ekv; [by inversion E|].
    apply Forall2_cons in E as [E0 _]. cbn in E0.
    apply timer_lines_nonempty in E0. destruct l0; [done|]. cbn in Hb. lia.
Qed.

(** The four emitters in a row: the buffer is the lines of the counters,
    of the gauges, of the timers and of the sets, in this order, each
    emitter working on its own table. *)
Lemma run_emitters_eq cfg now st :
  run_emitters cfg now st
  = ('(bt, nt, _) ← processTimers [] now (percentThreshold cfg) st;
     Some ((processCounters cfg [] now st).1.1 ++ (processGauges [] now st).1.1
             ++ bt ++ (processSets [] now st).1.1,
           (processCounters cfg [] now st).1.2 + (processGauges [] now st).1.2
             + nt + (processSets [] now st).1.2,
           mkState ∅ ∅ ∅ (countInactivity (processCounters cfg [] now st).2) ∅)).
Proof.
  unfold run_emitters.
  rewrite (processCounters_eq cfg [] now st).
  rewrite (processGauges_eq _ now _). cbn [gauges timers sets counters countInactivity].
  rewrite !(processTimers_eq _ now). cbn [gauges timers sets counters countInactivity].
  destruct (mapM _ _) as [ls|]; [|done]. cbn [mbind option_bind].
  rewrite (processSets_eq _ now _), (processGauges_eq [] now st), (processSets_eq [] now st).
  cbn [gauges timers sets counters countInactivity fst snd app].
  by rewrite <- !app_assoc.
Qed.

Lemma run_emitters_tables cfg now st b n st' :
  run_emitters cfg now st = Some (b, n, st') ->
  counters st' = ∅ /\ gauges st' = ∅ /\ timers st' = ∅ /\ sets st' = ∅.
Proof.
  rewrite run_emitters_eq.
  destruct (processTimers _ _ _ _) as [[[bt nt] stt]|]; [|done].
  by intros [= <- <- <-].
Qed.

(** X16: once the connection is made (the address is not "-", the dial
    and SetDeadline succeed), a flush that does not panic leaves the
    tables of counters, gauges, timers and sets empty, whether or not
    the write succeeds: after a failed write the data of the window is
    gone. *)
Theorem connected_flush_clears_tables cfg net now st o :
  graphiteAddress cfg <> "-" ->
  dial_err net = None -> deadline_err net = None ->
  submit cfg net now st = Some o ->
  counters (tables o) = ∅ /\ gauges (tables o) = ∅
  /\ timers (tables o) = ∅ /\ sets (tables o) = ∅.
Proof.
  intros Haddr Hdial Hdead. unfold submit.
  rewrite decide_False, Hdial, Hdead by done.
  destruct (run_emitters cfg now st) as [[[b n] st']|] eqn:E; [|done].
  apply run_emitters_tables in E. cbn [mbind option_bind].
  destruct (n =? 0); [by intros [= <-]|].
  destruct (write_err net); by intros [= <-].
Qed.

(** X17: in debug mode a failed dial still runs the four emitters, on a
    buffer that is thrown away: submit returns the dial error, hands
    nothing to the network and leaves the tables of counters, gauges,
    timers and sets empty. *)
Theorem debug_dial_failure_clears_tables cfg net now st err o :
  graphiteAddress cfg <> "-" ->
  dial_err net = Some err -> debug cfg = true ->
  submit cfg net now st = Some o ->
  returned o = Some (DialFailed (graphiteAddress cfg) err)
  /\ written o = None
  /\ counters (tables o) = ∅ /\ gauges (tables o) = ∅
  /\ timers (tables o) = ∅ /\ sets (tables o) = ∅.
Proof.
  intros Haddr Hdial Hdebug. unfold submit.
  rewrite decide_False, Hdial, Hdebug by done.
  destruct (run_emitters cfg now st) as [[[b n] st']|] eqn:E; [|done].
  apply run_emitters_tables in E. cbn [mbind option_bind].
  by intros [= <-].
Qed.

Lemma processCounters_count cfg now st :
  0 <= (processCounters cfg [] now st).1.2
  /\ ((processCounters cfg [] now st).1.2 = 0 <-> (processCounters cfg [] now st).1.1 = []).
Proof.
  rewrite processCounters_eq. cbn [fst snd app]. split; [lia|].
  rewrite <- length_zero_iff_nil, length_app, length_fmap. lia.
Qed.

Lemma processGauges_count now st :
  0 <= (processGauges [] now st).1.2
  /\ ((processGauges [] now st).1.2 = 0 <-> (processGauges [] now st).1.1 = []).
Proof.
  rewrite processGauges_eq. cbn [fst snd app]. split; [lia|].
  rewrite <- length_zero_iff_nil, length_fmap, length_map_to_list. lia.
Qed.

Lemma processSets_count now st :
  0 <= (processSets [] now st).1.2
  /\ ((processSets [] now st).1.2 = 0 <-> (processSets [] now st).1.1 = []).
Proof.
  rewrite processSets_eq. cbn [fst snd app]. split; [lia|].
  rewrite <- length_zero_iff_nil, length_fmap, length_map_to_list. lia.
Qed.

(** X18: what a connected flush hands to the network: the lines of the
    counters, then of the gauges, of the timers and of the sets, each
    emitter reading its own table.  When there is no line nothing is
    written and nil is returned; otherwise the bytes of these lines are
    written once and the error of the write, if any, is returned. *)
Theorem connected_flush_payload cfg net now st o :
  graphiteAddress cfg <> "-" ->
  dial_err net = None -> deadline_err net = None ->
  submit cfg net now st = Some o ->
  exists bt nt st_t,
    processTimers [] now (percentThreshold cfg) st = Some (bt, nt, st_t)
    /\ let b := (processCounters cfg [] now st).1.1 ++ (processGauges [] now st).1.1
                  ++ bt ++ (processSets [] now st).1.1 in
       (b = [] -> written o = None /\ returned o = None)
       /\ (b <> [] -> written o = Some (Bytes b) /\ returned o = WriteFailed <$> write_err net).
Proof.
  intros Haddr Hdial Hdead. unfold submit.
  rewrite decide_False, Hdial, Hdead by done.
  rewrite run_emitters_eq.
  destruct (processTimers _ _ _ _) as [[[bt nt] stt]|] eqn:Et; [|done].
  cbn [mbind option_bind]. intros Hsub.
  exists bt, nt, stt. split; [done|]. cbv zeta.
  destruct (processTimers_count _ _ _ _ _ _ _ Et) as (Hnt & Ht0 & Ht1 & _).
  destruct (processCounters_count cfg now st) as [Hc0 Hc].
  destruct (processGauges_count now st) as [Hg0 Hg].
  destruct (processSets_count now st) as [Hs0 Hs].
  set (bc := (processCounters cfg [] now st).1.1) in *.
  set (nc := (processCounters cfg [] now st).1.2) in *.
  set (bg := (processGauges [] now st).1.1) in *.
  set (ng := (processGauges [] now st).1.2) in *.
  set (bs := (processSets [] now st).1.1) in *.
  set (ns := (processSets [] now st).1.2) in *.
  assert (Hnt0 : 0 <= nt) by lia.
  assert (Hnum : nc + ng + nt + ns = 0 <-> bc ++ bg ++ bt ++ bs = []).
  { split.
    - intros H. assert (nc = 0 /\ ng = 0 /\ nt = 0 /\ ns = 0) as (H1 & H2 & H3 & H4) by lia.
      apply Hc in H1. apply Hg in H2. apply Hs in H4. rewrite H1, H2, H4, (Ht0 H3). done.
    - intros H. apply app_eq_nil in H as [H1 H]. apply app_eq_nil in H as [H2 H].
      apply app_eq_nil in H as [H3 H4].
      apply Hc in H1. apply Hg in H2. apply Hs in H4. specialize (Ht1 H3). lia. }
  destruct (Z.eqb_spec (nc + ng + nt + ns) 0) as [E|E].
  - injection Hsub as <-. cbn [written returned]. split; [done|].
    intros Hb. by apply Hnum in E.
  - split; [intros Hb; by apply Hnum in Hb|]. intros _.
    destruct (write_err net); by injection Hsub as <-.
Qed.

Lemma connected_flush_clears_tables_witness :
  graphiteAddress default_config <> "-"
  /\ dial_err failing_write = None /\ deadline_err failing_write = None
  /\ submit default_config failing_write 7 gauge_zero_state
     = Some (mkOutcome (Some (WriteFailed "broken pipe")) empty_state
               (Some ("g 0.000000 7" +:+ nl)))
  /\ gauges (tables (mkOutcome (Some (WriteFailed "broken pipe")) empty_state
                       (Some ("g 0.000000 7" +:+ nl)))) = ∅.
Proof.
  split; [done|]. split; [done|]. split; [done|]. split; [by vm_compute|].
  apply (connected_flush_clears_tables default_config failing_write 7 gauge_zero_state);
    [done|done|done|by vm_compute].
Defined.

Lemma debug_dial_failure_clears_tables_witness :
  graphiteAddress debug_config <> "-"
  /\ dial_err failing_dial = Some "connection refused" /\ debug debug_config = true
  /\ submit debug_config failing_dial 7 gauge_zero_state
     = Some (mkOutcome (Some (DialFailed "127.0.0.1:2003" "connection refused"))
               empty_state None)
  /\ returned (mkOutcome (Some (DialFailed "127.0.0.1:2003" "connection refused"))
                 empty_state None)
     = Some (DialFailed (graphiteAddress debug_config) "connection refused").
Proof.
  split; [done|]. split; [done|]. split; [done|]. split; [by vm_compute|].
  apply (debug_dial_failure_clears_tables debug_config failing_dial 7 gauge_zero_state
           "connection refused"); [done|done|done|by vm_compute].
Defined.

Lemma connected_flush_payload_witness :
  graphiteAddress default_config <> "-"
  /\ dial_err failing_write = None /\ deadline_err failing_write = None
  /\ submit default_config failing_write 7 gauge_zero_state
     = Some (mkOutcome (Some (WriteFailed "broken pipe")) empty_state
               (Some ("g 0.000000 7" +:+ nl)))
  /\ exists bt nt st_t,
       processTimers [] 7 (percentThreshold default_config) gauge_zero_state
       = Some (bt, nt, st_t)
       /\ let b := (processCounters default_config [] 7 gauge_zero_state).1.1
                     ++ (processGauges [] 7 gauge_zero_state).1.1
                     ++ bt ++ (processSets [] 7 gauge_zero_state).1.1 in
          (b = [] ->
           written (mkOutcome (Some (WriteFailed "broken pipe")) empty_state
                      (Some ("g 0.000000 7" +:+ nl))) = None
           /\ returned (mkOutcome (Some (WriteFailed "broken pipe")) empty_state
                          (Some ("g 0.000000 7" +:+ nl))) = None)
          /\ (b <> [] ->
              written (mkOutcome (Some (WriteFailed "broken pipe")) empty_state
                         (Some ("g 0.000000 7" +:+ nl))) = Some (Bytes b)
              /\ returned (mkOutcome (Some (WriteFailed "broken pipe")) empty_state
                             (Some ("g 0.000000 7" +:+ nl)))
                 = WriteFailed <$> write_err failing_write).
Proof.
  split; [done|]. split; [done|]. split; [done|]. split; [by vm_compute|].
  apply (connected_flush_payload default_config failing_write 7 gauge_zero_state);
    [done|done|done|by vm_compute].
Defined.

(** ** The inactivity tickers *)

Lemma packetHandler_tickers cfg p st st' :
  packetHandler cfg p st = Some st' -> countInactivity st' = countInactivity st.
Proof.
  unfold packetHandler.
  repeat (destruct (decide _); [destruct (Value p); intros Heq; by simplify_eq|]).
  by intros [= <-].
Qed.

Lemma handle_all_tickers cfg ps st st' :
  handle_all cfg ps st = Some st' -> countInactivity st' = countInactivity st.
Proof.
  revert st. induction ps as [|p ps IH]; intros st; [by intros [= <-]|].
  cbn [handle_all]. destruct (packetHandler cfg p st) as [st1|] eqn:Hp; [|done].
  intros Hrun. rewrite (IH _ Hrun). by apply packetHandler_tickers in Hp.
Qed.

(** X19: the tickers of countInactivity stay between 1 and
    persist-count-keys: when every ticker is at least 0 and below the
    largest int64 before a window, then after the events of the window
    (which do not touch the tickers) and the flush each remaining ticker
    k has 1 <= k <= persist-count-keys, and a bucket flushed as a live
    counter has the ticker 1, or none when persist-count-keys is below 1. *)
Theorem flush_keeps_tickers_bounded cfg ps st st' buffer now B :
  (forall u k, countInactivity st !! u = Some k -> 0 <= k < Int64.max_int) ->
  handle_all cfg ps st = Some st' ->
  (forall k, countInactivity (processCounters cfg buffer now st').2 !! B = Some k ->
             1 <= k <= persistCountKeys cfg)
  /\ (is_Some (counters st' !! B) ->
      countInactivity (processCounters cfg buffer now st').2 !! B
      = if 1 <=? persistCountKeys cfg then Some 1 else None).
Proof.
  intros Hpre Hrun. rewrite processCounters_tickers, reset_tickers_lookup.
  rewrite (handle_all_tickers _ _ _ _ Hrun).
  assert (Htick : forall v k, 0 <= v < Int64.max_int -> tick cfg v = Some k ->
                    k = v + 1 /\ k <= persistCountKeys cfg).
  { intros v k Hv. unfold tick. unfold Int64.add.
    rewrite wrap_in_range by (unfold Int64.min_int, Int64.max_int in *; lia).
    destruct (Z.ltb_spec (persistCountKeys cfg) (v + 1)); [done|]. intros [= <-]. lia. }
  split.
  - intros k. destruct (counters st' !! B) as [c|]; cbn [mbind option_bind].
    + intros Hk. apply Htick in Hk; [lia|]. unfold Int64.max_int. lia.
    + destruct (countInactivity st !! B) as [v|] eqn:Ev; [|done]. cbn [mbind option_bind].
      intros Hk. apply Htick in Hk; [|by apply (Hpre B)]. specialize (Hpre B v Ev). lia.
  - intros [c ->]. cbn [mbind option_bind]. unfold tick.
    change (Int64.add 0 1) with 1.
    destruct (Z.ltb_spec (persistCountKeys cfg) 1); destruct (Z.leb_spec 1 (persistCountKeys cfg));
      try done; lia.
Qed.

Lemma flush_keeps_tickers_bounded_witness :
  (forall u k, countInactivity (scenario5_trace 0) !! u = Some k -> 0 <= k < Int64.max_int)
  /\ handle_all scenario5_config [] (scenario5_trace 0) = Some (scenario5_trace 0)
  /\ is_Some (counters (scenario5_trace 0) !! "stats.c")
  /\ countInactivity (processCounters scenario5_config [] 7 (scenario5_trace 0)).2 !! "stats.c"
     = if 1 <=? persistCountKeys scenario5_config then Some 1 else None.
Proof.
  assert (H : forall u k, countInactivity (scenario5_trace 0) !! u = Some k ->
                0 <= k < Int64.max_int).
  { intros u k. cbn [scenario5_trace countInactivity]. by rewrite lookup_empty. }
  assert (Hc : is_Some (counters (scenario5_trace 0) !! "stats.c")) by (by eexists).
  split; [exact H|]. split; [reflexivity|]. split; [exact Hc|].
  destruct (flush_keeps_tickers_bounded scenario5_config [] (scenario5_trace 0)
              (scenario5_trace 0) [] 7 "stats.c" H eq_refl) as [_ H1].
  exact (H1 Hc).
Defined.

(** ** The HTTP interface *)

Lemma split_at_length sep cur s :
  length (split_at sep cur s) = S (count_byte sep s).
Proof.
  revert cur. induction s as [|a s IH]; intros cur; cbn [split_at count_byte]; [done|].
  destruct (decide (a = sep)); cbn [length]; by rewrite IH.
Qed.

(** X20: the handler answers 400 "Invalid number of splits provided in URL
    to stat", and sends nothing to the parser, exactly when the path has
    fewer than three slashes. *)
Theorem http_needs_three_slashes path :
  (count_byte "/" path < 3)%nat
  <-> httpHandler path
      = http_Error "Invalid number of splits provided in URL to stat" StatusBadRequest.
Proof.
  unfold httpHandler, strings_Split. rewrite split_at_length.
  destruct (Nat.ltb_spec (S (count_byte "/" path)) 4) as [Hlt|Hge].
  - split; [done|]. lia.
  - split; [lia|]. intros H. exfalso. revert H.
    repeat (destruct (decide _); [discriminate|]). discriminate.
Qed.

Lemma split_at_piece sep cur x s :
  IndexByte x sep = None ->
  split_at sep cur (x +:+ String sep s) = (cur +:+ x) :: split_at sep "" s.
Proof.
  revert cur. induction x as [|a x IH]; intros cur.
  - intros _. rewrite str_app_nil. cbn [split_at].
    rewrite decide_True by done. by rewrite str_app_nil_r.
  - rewrite str_app_cons. cbn [IndexByte split_at].
    destruct (decide (a = sep)); [done|].
    destruct (IndexByte x sep) eqn:E; [done|]. intros _.
    rewrite IH by done. by rewrite str_app_assoc, str_app_cons, str_app_nil.
Qed.

Lemma split_at_last sep cur x :
  IndexByte x sep = None -> split_at sep cur x = [cur +:+ x].
Proof.
  revert cur. induction x as [|a x IH]; intros cur.
  - intros _. by rewrite str_app_nil_r.
  - cbn [IndexByte split_at]. destruct (decide (a = sep)); [done|].
    destruct (IndexByte x sep) eqn:E; [done|]. intros _.
    rewrite IH by done. by rewrite str_app_assoc, str_app_cons, str_app_nil.
Qed.

Lemma split_at_join sep cur x l :
  Forall (fun y => IndexByte y sep = None) (x :: l) ->
  split_at sep cur (join_with (String sep "") (x :: l)) = (cur +:+ x) :: l.
Proof.
  revert cur x. induction l as [|y l IH]; intros cur x Hall.
  - apply Forall_cons in Hall as [Hx _]. by apply split_at_last.
  - apply Forall_cons in Hall as [Hx Hl].
    change (join_with (String sep "") (x :: y :: l))
      with (x +:+ String sep "" +:+ join_with (String sep "") (y :: l)).
    rewrite str_app_cons, str_app_nil.
    rewrite split_at_piece by done. f_equal.
    by rewrite (IH "" y Hl), str_app_nil.
Qed.

Lemma join_with_snoc sep l x :
  l <> [] -> join_with sep (l ++ [x]) = join_with sep l +:+ sep +:+ x.
Proof.
  induction l as [|y l IH]; [done|]. intros _.
  destruct l as [|z l]; [done|].
  change (join_with sep ((y :: z :: l) ++ [x]))
    with (y +:+ sep +:+ join_with sep ((z :: l) ++ [x])).
  rewrite IH by done.
  change (join_with sep (y :: z :: l)) with (y +:+ sep +:+ join_with sep (z :: l)).
  by rewrite !str_app_assoc.
Qed.

Lemma stat_loop first segs rest k :
  (k <= length segs)%nat ->
  foldl (stat_step (first :: segs ++ rest)) "" (seq 1 k) = join_with "." (take k segs).
Proof.
  induction k as [|k IH]; intros Hk; [by destruct segs|].
  rewrite seq_S, foldl_app, IH by lia. cbn [foldl Nat.add].
  destruct (lookup_lt_is_Some_2 segs k ltac:(lia)) as [x Hx].
  rewrite (take_S_r _ _ _ Hx).
  unfold stat_step, element. cbn [lookup list_lookup].
  change (list_lookup k (segs ++ rest)) with ((segs ++ rest) !! k).
  rewrite (lookup_app_l_Some _ _ _ _ Hx). cbn [default]. unfold id.
  destruct k as [|k].
  - by rewrite take_0.
  - rewrite join_with_snoc; [|destruct segs; [cbn in Hk; lia|done]].
    replace (1 <? S (S k))%nat with true by (symmetry; apply Nat.ltb_lt; lia).
    by rewrite !str_app_assoc.
Qed.

(** The handler on a path given by its pieces. *)
Lemma httpHandler_pieces first segs ty name amount :
  Forall (fun y => IndexByte y "/" = None) (first :: segs ++ [ty; name; amount]) ->
  httpHandler (join_with "/" (first :: segs ++ [ty; name; amount]))
  = match type_code ty with
    | Some code =>
        mkReply 200 ("OK: " +:+ metric_line (stat_name segs name) amount code)
          (Some (metric_line (stat_name segs name) amount code))
    | None => http_Error "Invalid stat_type format" StatusBadRequest
    end.
Proof.
  intros Hall. unfold httpHandler, strings_Split.
  rewrite (split_at_join "/" "" first _ Hall), str_app_nil.
  set (pe := first :: segs ++ [ty; name; amount]).
  assert (Hn : length pe = (length segs + 4)%nat).
  { unfold pe. cbn [length]. rewrite length_app. cbn [length]. lia. }
  rewrite Hn.
  replace (length segs + 4 <? 4)%nat with false by (symmetry; apply Nat.ltb_ge; lia).
  replace (length segs + 4 - 4)%nat with (length segs) by lia.
  assert (He : forall i x, [ty; name; amount] !! i = Some x ->
                 element pe (length segs + 1 + i) = x).
  { intros i x Hi. unfold element, pe.
    replace (length segs + 1 + i)%nat with (S (length segs + i)) by lia.
    rewrite lookup_cons_ne_0 by done. cbn [Nat.pred].
    rewrite lookup_app_r by lia.
    replace (length segs + i - length segs)%nat with i by lia. by rewrite Hi. }
  replace (length segs + 4 - 3)%nat with (length segs + 1 + 0)%nat by lia.
  replace (length segs + 4 - 1)%nat with (length segs + 1 + 2)%nat by lia.
  replace (length segs + 4 - 2)%nat with (length segs + 1 + 1)%nat by lia.
  rewrite (He 0%nat ty eq_refl), (He 1%nat name eq_refl), (He 2%nat amount eq_refl).
  unfold pe. rewrite stat_loop by done. rewrite firstn_all.
  assert (Hs : (if (0 <? String.length (join_with "." segs))%nat
                then join_with "." segs +:+ "." else join_with "." segs) +:+ name
               = stat_name segs name).
  { unfold stat_name. destruct (join_with "." segs) as [|a d]; [done|].
    cbn [String.length Nat.ltb Nat.leb]. by rewrite !str_app_assoc. }
  rewrite Hs. unfold type_code, metric_line.
  destruct (decide (ty = "count")); [done|].
  destruct (decide (ty = "time")); [done|].
  destruct (decide (ty = "gauge")); [done|]. done.
Qed.

(** X21: a path first/seg_1/.../seg_k/type/name/amount (pieces without
    slash; first is what stands before the first slash and is dropped)
    with the type count, time or gauge is answered by 200 "OK: line" and
    sends line to the parser, where line is stat:amount|c, |ms or |g and
    stat is the segments and the name joined by dots; any other type is
    answered by 400 "Invalid stat_type format" and sends nothing. *)
Theorem http_request_line first segs ty name amount :
  Forall (fun y => IndexByte y "/" = None) (first :: segs ++ [ty; name; amount]) ->
  httpHandler (join_with "/" (first :: segs ++ [ty; name; amount]))
  = match type_code ty with
    | Some code =>
        mkReply 200 ("OK: " +:+ metric_line (stat_name segs name) amount code)
          (Some (metric_line (stat_name segs name) amount code))
    | None => http_Error "Invalid stat_type format" StatusBadRequest
    end.
Proof. apply httpHandler_pieces. Qed.

Lemma http_request_line_witness :
  Forall (fun y => IndexByte y "/" = None) ("" :: ["web"; "eu"] ++ ["time"; "latency"; "200"])
  /\ httpHandler "/web/eu/time/latency/200"
     = mkReply 200 "OK: web.eu.latency:200|ms" (Some "web.eu.latency:200|ms").
Proof.
  assert (H : Forall (fun y => IndexByte y "/" = None)
                ("" :: ["web"; "eu"] ++ ["time"; "latency"; "200"])).
  { repeat constructor. }
  split; [exact H|].
  exact (http_request_line "" ["web"; "eu"] "time" "latency" "200" H).
Defined.

Lemma split_from_last cur line :
  IndexByte line (ascii_of_nat 10) = None -> split_from cur line = [cur +:+ line].
Proof.
  revert cur. induction line as [|a line IH]; intros cur.
  - intros _. by rewrite str_app_nil_r.
  - cbn [IndexByte split_from]. destruct (decide (a = ascii_of_nat 10)); [done|].
    destruct (IndexByte line (ascii_of_nat 10)) eqn:E; [done|]. intros _.
    rewrite IH by done. by rewrite str_app_assoc, str_app_cons, str_app_nil.
Qed.

Lemma IndexByte_none_app a b c :
  IndexByte a c = None -> IndexByte b c = None -> IndexByte (a +:+ b) c = None.
Proof.
  intros Ha Hb. induction a as [|x a IH]; [done|].
  rewrite str_app_cons. cbn [IndexByte] in *.
  destruct (decide (x = c)); [done|].
  destruct (IndexByte a c); [done|]. by rewrite IH.
Qed.

Section HttpToParser.

Variable ParseInt : string -> option Z.
Variable ParseFloat64 : string -> option float.
Variable ParseFloat32 : string -> option float.
Variable cfg : Config.

Local Abbreviation pl := (parse_line ParseInt ParseFloat64 ParseFloat32 cfg).
Local Abbreviation pm := (parseMessage ParseInt ParseFloat64 ParseFloat32 cfg).

(** A payload of one line, with no newline at its end. *)
Lemma parseMessage_one_line line :
  IndexByte line (ascii_of_nat 10) = None -> pm line = line_events (pl line).
Proof.
  intros Hnl. unfold parseMessage, Split. rewrite split_from_last, str_app_nil by done.
  cbn [foldl]. unfold parse_step. cbn [mbind option_bind]. by destruct (pl line).
Qed.

(** X22: a count or time request of the HTTP interface arrives at the
    aggregator as one event: the line the handler sends, once parsed,
    is the counter event for prefix+stat with the integer of the amount,
    or the timer event for prefix+prefixTimers+stat with its float64,
    with sampling rate 1, and no event when the amount is no number.
    The stat holds no colon and the amount no bar nor newline. *)
Theorem http_request_is_parsed first segs ty name amount :
  Forall (fun y => IndexByte y "/" = None) (first :: segs ++ [ty; name; amount]) ->
  IndexByte (stat_name segs name) ":" = None ->
  IndexByte (stat_name segs name) (ascii_of_nat 10) = None ->
  IndexByte amount "|" = None ->
  IndexByte amount (ascii_of_nat 10) = None ->
  ty = "count" \/ ty = "time" ->
  exists line,
    queued (httpHandler (join_with "/" (first :: segs ++ [ty; name; amount]))) = Some line
    /\ pm line
       = Some (if decide (ty = "count") then
                 match ParseInt amount with
                 | Some i => [mkPacket (prefix cfg +:+ stat_name segs name) (IntV i) "c" 1]
                 | None => []
                 end
               else
                 match ParseFloat64 amount with
                 | Some f => [mkPacket (prefix cfg +:+ prefixTimers cfg +:+ stat_name segs name)
                                (FloatV f) "ms" 1]
                 | None => []
                 end).
Proof.
  intros Hall Hstat Hstatnl Hamount Hamountnl Hty.
  rewrite httpHandler_pieces by done.
  set (stat := stat_name segs name) in *.
  assert (Hnl : forall code, IndexByte code (ascii_of_nat 10) = None ->
                  IndexByte (metric_line stat amount code) (ascii_of_nat 10) = None).
  { intros code Hcode. unfold metric_line. repeat apply IndexByte_none_app; done. }
  destruct Hty as [-> | ->]; cbn [type_code decide]; eexists; (split; [reflexivity|]).
  - rewrite parseMessage_one_line by (by apply Hnl).
    rewrite parse_line_byte by done.
    change (string_of_byte "c") with "c". unfold parse_value.
    rewrite decide_True by done.
    by destruct (ParseInt amount) as [i|].
  - rewrite parseMessage_one_line by (by apply Hnl).
    unfold metric_line. rewrite parse_line_shape, parse_type_at by done.
    rewrite !decide_True by done. unfold parse_value.
    rewrite !decide_False by done.
    destruct (ParseFloat64 amount) as [f|]; [|done].
    cbn [fmap option_fmap option_map line_events]. by rewrite str_app_assoc.
Qed.

(** X23: a gauge request with an empty amount, a path that ends in
    /gauge/name/, whose stat name (the segments before the type joined by
    dots, then the name) holds no colon and no newline, is answered by
    200 OK, and the line it sends makes the parser panic: it has an empty
    gauge value. *)
Theorem http_empty_gauge_amount_panics first segs name :
  Forall (fun y => IndexByte y "/" = None) (first :: segs ++ ["gauge"; name; ""]) ->
  IndexByte (stat_name segs name) ":" = None ->
  IndexByte (stat_name segs name) (ascii_of_nat 10) = None ->
  exists line,
    httpHandler (join_with "/" (first :: segs ++ ["gauge"; name; ""]))
    = mkReply 200 ("OK: " +:+ line) (Some line)
    /\ pm line = None.
Proof.
  intros Hall Hstat Hstatnl.
  rewrite httpHandler_pieces by done. cbn [type_code decide].
  eexists. split; [reflexivity|].
  assert (Hnl : IndexByte (metric_line (stat_name segs name) "" "g") (ascii_of_nat 10) = None).
  { unfold metric_line. repeat apply IndexByte_none_app; done. }
  rewrite parseMessage_one_line by done.
  rewrite parse_line_byte by done.
  change (string_of_byte "g") with "g". unfold parse_value.
  by rewrite decide_False, decide_True by done.
Qed.

End HttpToParser.

Lemma http_request_is_parsed_witness :
  Forall (fun y => IndexByte y "/" = None) ("" :: ["web"] ++ ["count"; "hits"; "3"])
  /\ IndexByte (stat_name ["web"] "hits") ":" = None
  /\ IndexByte (stat_name ["web"] "hits") (ascii_of_nat 10) = None
  /\ IndexByte "3" "|" = None /\ IndexByte "3" (ascii_of_nat 10) = None
  /\ ("count" = "count" \/ "count" = "time")
  /\ exists line,
       queued (httpHandler "/web/count/hits/3") = Some line
       /\ parseMessage ParseInt_digits ParseFloat_digits ParseFloat_digits default_config line
          = Some [mkPacket "stats.web.hits" (IntV 3) "c" 1].
Proof.
  assert (H : Forall (fun y => IndexByte y "/" = None) ("" :: ["web"] ++ ["count"; "hits"; "3"])).
  { repeat constructor. }
  split; [exact H|]. split; [reflexivity|]. split; [reflexivity|].
  split; [reflexivity|]. split; [reflexivity|]. split; [by left|].
  exact (http_request_is_parsed ParseInt_digits ParseFloat_digits ParseFloat_digits
           default_config "" ["web"] "count" "hits" "3" H eq_refl eq_refl eq_refl eq_refl
           (or_introl eq_refl)).
Defined.

Lemma http_empty_gauge_amount_panics_witness :
  Forall (fun y => IndexByte y "/" = None) ("" :: [] ++ ["gauge"; "load"; ""])
  /\ IndexByte (stat_name [] "load") ":" = None
  /\ IndexByte (stat_name [] "load") (ascii_of_nat 10) = None
  /\ exists line,
       httpHandler "/gauge/load/" = mkReply 200 ("OK: " +:+ line) (Some line)
       /\ parseMessage ParseInt_digits ParseFloat_digits ParseFloat_digits default_config line
          = None.
Proof.
  assert (H : Forall (fun y => IndexByte y "/" = None) ("" :: [] ++ ["gauge"; "load"; ""])).
  { repeat constructor. }
  split; [exact H|]. split; [reflexivity|]. split; [reflexivity|].
  exact (http_empty_gauge_amount_panics ParseInt_digits ParseFloat_digits ParseFloat_digits
           default_config "" [] "load" H eq_refl eq_refl).
Defined.

(** ** The percentile flag *)

Lemma Replace_dots_length s : String.length (Replace_dots s) = String.length s.
Proof. induction s as [|a s IH]; cbn; [done|]. by rewrite IH. Qed.

Lemma Replace_dots_no_dot s : IndexByte (Replace_dots s) "." = None.
Proof.
  induction s as [|a s IH]; [done|]. cbn [Replace_dots IndexByte].
  rewrite IH. destruct (decide (a = "."%char)) as [->|Hne].
  - by rewrite decide_False.
  - by rewrite decide_False.
Qed.

Lemma Replace_dots_id s : IndexByte s "." = None -> Replace_dots s = s.
Proof.
  induction s as [|a s IH]; [done|]. cbn [Replace_dots IndexByte].
  destruct (decide (a = "."%char)); [done|].
  destruct (IndexByte s ".") eqn:E; [done|]. intros _. by rewrite IH.
Qed.

Lemma Replace_dots_get s i c :
  String.get i s = Some c ->
  (c = "."%char -> String.get i (Replace_dots s) = Some "_"%char)
  /\ (c <> "."%char -> String.get i (Replace_dots s) = Some c).
Proof.
  revert i. induction s as [|a s IH]; intros i; [done|].
  destruct i as [|i]; cbn [String.get Replace_dots].
  - intros [= ->]. split; intros H.
    + by rewrite decide_True.
    + by rewrite decide_False.
  - apply IH.
Qed.

(** X24: a percentile flag that ParseFloat accepts is appended after the
    percentiles given before it, with its float64 and with a label that
    is the text of the flag, every dot replaced by an underscore: the
    label has the length of the text, an underscore where the text has a
    dot and the character of the text everywhere else, so it holds no dot
    and is the text itself when that has none.  A flag that ParseFloat
    rejects leaves the list as it was. *)
Theorem percentile_flag_label ParseFloat64 a s :
  match Percentiles_Set ParseFloat64 a s with
  | Some a' =>
      exists f label,
        ParseFloat64 s = Some f /\ a' = a ++ [mkPercentile f label]
        /\ String.length label = String.length s
        /\ (forall i c, String.get i s = Some c ->
              (c = "."%char -> String.get i label = Some "_"%char)
              /\ (c <> "."%char -> String.get i label = Some c))
        /\ IndexByte label "." = None
        /\ (IndexByte s "." = None -> label = s)
  | None => ParseFloat64 s = None
  end.
Proof.
  unfold Percentiles_Set. destruct (ParseFloat64 s) as [f|]; [|done].
  exists f, (Replace_dots s). split; [done|]. split; [done|].
  split; [apply Replace_dots_length|]. split; [apply Replace_dots_get|].
  split; [apply Replace_dots_no_dot|].
  apply Replace_dots_id.
Qed.

Lemma percentile_flag_label_witness :
  Percentiles_Set (fun _ => Some 99.5%float) [mkPercentile 90 "90"] "99.5"
  = Some [mkPercentile 90 "90"; mkPercentile 99.5 "99_5"]
  /\ exists f label,
       Some 99.5%float = Some f
       /\ [mkPercentile 90 "90"; mkPercentile 99.5 "99_5"]
          = [mkPercentile 90 "90"] ++ [mkPercentile f label]
       /\ String.length label = String.length "99.5"
       /\ (forall i c, String.get i "99.5" = Some c ->
             (c = "."%char -> String.get i label = Some "_"%char)
             /\ (c <> "."%char -> String.get i label = Some c))
       /\ IndexByte label "." = None
       /\ (IndexByte "99.5" "." = None -> label = "99.5").
Proof.
  split; [reflexivity|].
  exact (percentile_flag_label (fun _ => Some 99.5%float) [mkPercentile 90 "90"] "99.5").
Defined.

(** ** The monitor loop *)

Lemma handle_all_app cfg ps1 ps2 st :
  handle_all cfg (ps1 ++ ps2) st = handle_all cfg ps1 st ≫= handle_all cfg ps2.
Proof.
  revert st. induction ps1 as [|p ps1 IH]; intros st; [done|].
  cbn [app handle_all]. destruct (packetHandler cfg p st) as [st1|]; [apply IH|done].
Qed.

Lemma monitor_packets cfg ps received st flushes :
  monitor cfg ((FromIn <$> ps) ++ received) st flushes
  = handle_all cfg ps st ≫= fun st' => monitor cfg received st' flushes.
Proof.
  revert st. induction ps as [|p ps IH]; intros st; [done|].
  rewrite fmap_cons. cbn [app monitor handle_all].
  destruct (packetHandler cfg p st) as [st1|]; [apply IH|done].
Qed.

Lemma Bytes_app b1 b2 : Bytes (b1 ++ b2) = Bytes b1 +:+ Bytes b2.
Proof.
  unfold Bytes. induction b1 as [|l b1 IH]; [done|].
  cbn [app foldr]. by rewrite IH, str_app_assoc.
Qed.

Lemma render_int k v now :
  render (mkLine tmpl_int [Astr k; Aint v; Aint now]) = int_text k v now.
Proof. reflexivity. Qed.

(** Every line of the counters emitter is "key value now\n". *)
Lemma counters_lines_text cfg now st l :
  l ∈ (processCounters cfg [] now st).1.1 -> exists k v, render l = int_text k v now.
Proof.
  rewrite processCounters_eq. cbn [fst]. rewrite app_nil_l, elem_of_app.
  rewrite list_elem_of_fmap, elem_of_zero_lines.
  intros [[[k w] [-> _]]|(k & p & _ & _ & ->)].
  - by exists k, w.
  - by exists k, 0.
Qed.

Lemma int_text_ends_nl k v now : exists s, int_text k v now = s +:+ nl.
Proof.
  exists (k +:+ " " +:+ pretty v +:+ " " +:+ pretty now).
  unfold int_text. by rewrite !str_app_assoc.
Qed.

(** Lines that each end in a newline leave the bytes empty or ending in
    a newline. *)
Lemma Bytes_ends_nl b :
  (forall l, l ∈ b -> exists s, render l = s +:+ nl) ->
  Bytes b = "" \/ exists s, Bytes b = s +:+ nl.
Proof.
  induction b as [|l b IH]; intros Hall; [by left|]. right.
  change (Bytes (l :: b)) with (render l +:+ Bytes b).
  destruct IH as [->|[s ->]].
  - intros l' Hl'. apply Hall. by apply list_elem_of_further.
  - rewrite str_app_nil_r. apply Hall, list_elem_of_here.
  - exists (render l +:+ s). by rewrite str_app_assoc.
Qed.

Lemma Bytes_holds_line b rest l :
  (forall l', l' ∈ b -> exists s, render l' = s +:+ nl) ->
  l ∈ b -> holds_line (Bytes (b ++ rest)) (render l).
Proof.
  intros Hall (b1 & b2 & ->)%list_elem_of_split.
  exists (Bytes b1), (Bytes (b2 ++ rest)). split.
  - rewrite <- app_assoc, Bytes_app. reflexivity.
  - apply Bytes_ends_nl. intros l' Hl'. apply Hall, elem_of_app. by left.
Qed.

(** The count of a flush is 0 exactly when it has no line. *)
Lemma flush_count_zero cfg now st bt nt stt :
  processTimers [] now (percentThreshold cfg) st = Some (bt, nt, stt) ->
  (processCounters cfg [] now st).1.2 + (processGauges [] now st).1.2 + nt
    + (processSets [] now st).1.2 = 0
  <-> (processCounters cfg [] now st).1.1 ++ (processGauges [] now st).1.1 ++ bt
        ++ (processSets [] now st).1.1 = [].
Proof.
  intros Et.
  destruct (processTimers_count _ _ _ _ _ _ _ Et) as (Hnt & Ht0 & Ht1 & _).
  destruct (processCounters_count cfg now st) as [Hc0 Hc].
  destruct (processGauges_count now st) as [Hg0 Hg].
  destruct (processSets_count now st) as [Hs0 Hs].
  set (bc := (processCounters cfg [] now st).1.1) in *.
  set (nc := (processCounters cfg [] now st).1.2) in *.
  set (bg := (processGauges [] now st).1.1) in *.
  set (ng := (processGauges [] now st).1.2) in *.
  set (bs := (processSets [] now st).1.1) in *.
  set (ns := (processSets [] now st).1.2) in *.
  assert (Hnt0 : 0 <= nt) by lia.
  split.
  - intros H. assert (nc = 0 /\ ng = 0 /\ nt = 0 /\ ns = 0) as (H1 & H2 & H3 & H4) by lia.
    apply Hc in H1. apply Hg in H2. apply Hs in H4. rewrite H1, H2, H4, (Ht0 H3). done.
  - intros H. apply app_eq_nil in H as [H1 H]. apply app_eq_nil in H as [H2 H].
    apply app_eq_nil in H as [H3 H4].
    apply Hc in H1. apply Hg in H2. apply Hs in H4. specialize (Ht1 H3). lia.
Qed.

(** A connected flush that has a counter line writes it. *)
Lemma submit_writes_counter_line cfg net now st o l :
  graphiteAddress cfg <> "-" ->
  dial_err net = None -> deadline_err net = None ->
  submit cfg net now st = Some o ->
  l ∈ (processCounters cfg [] now st).1.1 ->
  exists bytes, written o = Some bytes /\ holds_line bytes (render l).
Proof.
  intros Haddr Hdial Hdead Hsub Hl. unfold submit in Hsub.
  rewrite decide_False, Hdial, Hdead in Hsub by done.
  rewrite run_emitters_eq in Hsub.
  destruct (processTimers _ _ _ _) as [[[bt nt] stt]|] eqn:Et; [|done].
  cbn [mbind option_bind] in Hsub.
  pose proof (flush_count_zero _ _ _ _ _ _ Et) as Hnum.
  assert (Hline : holds_line
                    (Bytes ((processCounters cfg [] now st).1.1
                              ++ (processGauges [] now st).1.1 ++ bt
                              ++ (processSets [] now st).1.1)) (render l)).
  { apply Bytes_holds_line; [|done]. intros l' Hl'.
    destruct (counters_lines_text _ _ _ _ Hl') as (k & v & ->). apply int_text_ends_nl. }
  set (b := _ ++ _ ++ bt ++ _) in *.
  assert (Hin : l ∈ b) by (apply elem_of_app; by left).
  destruct (Z.eqb_spec ((processCounters cfg [] now st).1.2 + (processGauges [] now st).1.2
                        + nt + (processSets [] now st).1.2) 0) as [E|E].
  - apply Hnum in E. rewrite E in Hin. by apply elem_of_nil in Hin.
  - exists (Bytes b). split; [|done].
    destruct (write_err net); by injection Hsub as <-.
Qed.

(** X25: a flush whose dial fails (debug off) loses nothing: the events
    of its window stay in the tables, and the next flush that connects
    writes, for a counter bucket [B] other than the bucket of the receive
    counter that was absent at the start, the line "B v now" where v is
    the int64 sum of the amounts of both windows; the line stands at the
    beginning of the bytes written or right after a newline. *)
Theorem failed_dial_carries_window_over cfg ps1 ps2 net1 net2 now1 now2 st B err r :
  graphiteAddress cfg <> "-" -> debug cfg = false ->
  dial_err net1 = Some err ->
  dial_err net2 = None -> deadline_err net2 = None ->
  receiveCounter cfg <> B -> counters st !! B = None ->
  window_amounts B (ps1 ++ ps2) <> [] ->
  monitor cfg ((FromIn <$> ps1) ++ Tick net1 now1 :: (FromIn <$> ps2) ++ [Tick net2 now2])
    st [] = Some r ->
  exists o1 o2 bytes,
    r.2 = [o1; o2]
    /\ returned o1 = Some (DialFailed (graphiteAddress cfg) err) /\ written o1 = None
    /\ written o2 = Some bytes
    /\ holds_line bytes
         (B +:+ " " +:+ pretty (Int64.wrap (sum_Z (window_amounts B (ps1 ++ ps2))))
            +:+ " " +:+ pretty now2 +:+ nl).
Proof.
  intros Haddr Hdebug Hdial1 Hdial2 Hdead2 Hrc Hfresh Hsome.
  rewrite monitor_packets.
  destruct (handle_all cfg ps1 st) as [st1|] eqn:H1; [|done]. cbn [mbind option_bind monitor].
  unfold submit at 1. rewrite decide_False, Hdial1, Hdebug by done.
  cbn [mbind option_bind tables]. rewrite monitor_packets.
  destruct (handle_all cfg ps2 st1) as [st2|] eqn:H2; [|done]. cbn [mbind option_bind monitor].
  destruct (submit cfg net2 now2 st2) as [o2|] eqn:Hsub; [|done].
  cbn [mbind option_bind]. intros [= <-]. cbn [snd app].
  assert (Hrun : handle_all cfg (ps1 ++ ps2) st = Some st2).
  { by rewrite handle_all_app, H1. }
  pose proof (handle_all_counter _ _ _ _ _ Hrc Hrun) as Hc.
  rewrite Hfresh, accumulate_fresh in Hc by done.
  destruct (submit_writes_counter_line cfg net2 now2 st2 o2
              (mkLine tmpl_int [Astr B; Aint (Int64.wrap (sum_Z (window_amounts B (ps1 ++ ps2))));
                                Aint now2]))
    as (bytes & Hw & Hl); try done.
  { apply processCounters_lines. by left. }
  eexists _, o2, bytes. split; [reflexivity|]. cbn [returned written].
  split; [done|]. split; [done|]. split; [done|].
  exact Hl.
Qed.

Lemma failed_dial_carries_window_over_witness :
  graphiteAddress default_config <> "-" /\ debug default_config = false
  /\ dial_err failing_dial = Some "connection refused"
  /\ dial_err working_net = None /\ deadline_err working_net = None
  /\ receiveCounter default_config <> "stats.foo"
  /\ counters empty_state !! "stats.foo" = None
  /\ window_amounts "stats.foo" (first_window ++ second_window) <> []
  /\ monitor default_config
       ((FromIn <$> first_window) ++ Tick failing_dial 8
          :: (FromIn <$> second_window) ++ [Tick working_net 9]) empty_state []
     = Some (false, mkState ∅ ∅ ∅ {["stats.foo" := 1]} ∅,
             [mkOutcome (Some (DialFailed "127.0.0.1:2003" "connection refused"))
                (mkState {["stats.foo" := 1]} ∅ ∅ ∅ ∅) None;
              mkOutcome None (mkState ∅ ∅ ∅ {["stats.foo" := 1]} ∅)
                (Some ("stats.foo 3 9" +:+ nl))])
  /\ exists o1 o2 bytes,
       [mkOutcome (Some (DialFailed "127.0.0.1:2003" "connection refused"))
          (mkState {["stats.foo" := 1]} ∅ ∅ ∅ ∅) None;
        mkOutcome None (mkState ∅ ∅ ∅ {["stats.foo" := 1]} ∅)
          (Some ("stats.foo 3 9" +:+ nl))] = [o1; o2]
       /\ returned o1 = Some (DialFailed (graphiteAddress default_config) "connection refused")
       /\ written o1 = None
       /\ written o2 = Some bytes
       /\ holds_line bytes
            ("stats.foo" +:+ " "
               +:+ pretty (Int64.wrap (sum_Z (window_amounts "stats.foo"
                                                (first_window ++ second_window))))
               +:+ " " +:+ pretty 9 +:+ nl).
Proof.
  split; [done|]. split; [done|]. split; [done|]. split; [done|]. split; [done|].
  split; [done|]. split; [done|]. split; [by vm_compute|]. split; [by vm_compute|].
  apply (failed_dial_carries_window_over default_config first_window second_window
           failing_dial working_net 8 9 empty_state "stats.foo" "connection refused"
           (false, mkState ∅ ∅ ∅ {["stats.foo" := 1]} ∅,
             [mkOutcome (Some (DialFailed "127.0.0.1:2003" "connection refused"))
                (mkState {["stats.foo" := 1]} ∅ ∅ ∅ ∅) None;
              mkOutcome None (mkState ∅ ∅ ∅ {["stats.foo" := 1]} ∅)
                (Some ("stats.foo 3 9" +:+ nl))]));
    [done|done|done|done|done|done|done|by vm_compute|by vm_compute].
Defined.

Lemma monitor_no_signal cfg received rest st flushes :
  Forall no_signal received ->
  monitor cfg (received ++ rest) st flushes
  = monitor cfg received st flushes ≫= fun r => monitor cfg rest r.1.2 r.2.
Proof.
  revert st flushes. induction received as [|e received IH]; intros st flushes Hall; [done|].
  apply Forall_cons in Hall as [He Hall]. cbn [app].
  destruct e as [net now|net now|s]; [done| |]; cbn [monitor].
  - destruct (submit cfg net now st) as [o|]; [|done]. cbn [mbind option_bind]. by apply IH.
  - destruct (packetHandler cfg s st) as [st'|]; [|done]. cbn [mbind option_bind]. by apply IH.
Qed.

(** X26: a signal ends the loop with one last flush: everything received
    before it is handled, [submit] runs once more on the tables as they
    are then, the function returns, and what is received after the
    signal is never handled. *)
Theorem signal_ends_the_loop cfg received net now later st flushes :
  Forall no_signal received ->
  monitor cfg (received ++ Signal net now :: later) st flushes
  = (r ← monitor cfg received st flushes;
     o ← submit cfg net now r.1.2;
     Some (true, tables o, r.2 ++ [o])).
Proof.
  intros Hall. rewrite monitor_no_signal by done.
  by destruct (monitor cfg received st flushes) as [[[stopped st1] fl1]|].
Qed.

Lemma signal_ends_the_loop_witness :
  Forall no_signal (FromIn <$> first_window)
  /\ monitor disabled_config
       ((FromIn <$> first_window) ++ Signal working_net 9 :: (FromIn <$> second_window))
       empty_state []
     = (r ← monitor disabled_config (FromIn <$> first_window) empty_state [];
        o ← submit disabled_config working_net 9 r.1.2;
        Some (true, tables o, r.2 ++ [o])).
Proof.
  assert (H : Forall no_signal (FromIn <$> first_window)) by (by repeat constructor).
  split; [exact H|].
  exact (signal_ends_the_loop disabled_config (FromIn <$> first_window) working_net 9
           (FromIn <$> second_window) empty_state [] H).
Defined.

(** ** Counter events without a sampling rate *)

Lemma Prim2SF_one : Prim2SF 1 = S754_finite false 4503599627370496 (-52).
Proof. reflexivity. Qed.

Lemma F32_div_one : F32.div 1 1 = 1%float.
Proof. reflexivity. Qed.

(** Multiplying a valid finite number by 1 leaves it as it is. *)
Lemma SFmul_one s m e :
  bounded prec emax m e = true ->
  SF64mul (S754_finite s m e) (S754_finite false 4503599627370496 (-52))
  = S754_finite s m e.
Proof.
  intros Hb. pose proof Hb as [Hc He]%andb_true_iff.
  unfold canonical_mantissa in Hc. apply Z.eqb_eq in Hc.
  unfold SF64mul, SFmul. rewrite xorb_false_r.
  rewrite !Pos.mul_xO_r, Pos.mul_1_r.
  unfold binary_round_aux, shr_fexp. cbn [Zdigits2 digits2_pos shr_record_of_loc].
  rewrite !Pos2Z.inj_succ.
  set (d := Zpos (digits2_pos m)) in *.
  replace (fexp prec emax (Z.succ (Z.succ (Z.succ (Z.succ (Z.succ (Z.succ (Z.succ (Z.succ (Z.succ (Z.succ (Z.succ (Z.succ (Z.succ (Z.succ (Z.succ (Z.succ (Z.succ (Z.succ (Z.succ (Z.succ (Z.succ (Z.succ (Z.succ (Z.succ (Z.succ (Z.succ (Z.succ (Z.succ (Z.succ (Z.succ (Z.succ (Z.succ (Z.succ (Z.succ (Z.succ (Z.succ (Z.succ (Z.succ (Z.succ (Z.succ (Z.succ (Z.succ (Z.succ (Z.succ (Z.succ (Z.succ (Z.succ (Z.succ (Z.succ (Z.succ (Z.succ (Z.succ d))))))))))))))))))))))))))))))))))))))))))))))))))) + (e + -52)) - (e + -52)) with 52.
  2:{ unfold fexp, SpecFloat.emin, prec, emax in *. lia. }
  cbn [shr SpecFloat.iter_pos shr_1 shr_m shr_r shr_s orb loc_of_shr_record round_nearest_even
       Zdigits2 shr_record_of_loc].
  fold d. replace (e + -52 + 52) with e by lia.
  rewrite Hc, Z.sub_diag. cbn [shr shr_m]. by rewrite He.
Qed.

(** float64(v) for an integer v of less than 54 bits: a valid finite
    number of the same value. *)
Lemma of_Z_repr v :
  v <> 0 -> Z.abs v < 2 ^ 53 ->
  exists mz ez,
    Prim2SF (F64.of_Z v) = S754_finite (v <? 0) mz ez
    /\ ez <= 0 /\ Zpos mz = Z.abs v * 2 ^ (- ez)
    /\ bounded prec emax mz ez = true.
Proof.
  intros Hv Hsmall. unfold F64.of_Z.
  destruct v as [|p|p]; [done| |]; cbn [binary_normalize Z.abs Z.ltb Z.compare] in *.
  - destruct (binary_round_small false p Hsmall) as (mz & ez & -> & Hez & Hmz & Hb).
    exists mz, ez. by rewrite Prim2SF_SF2Prim.
  - destruct (binary_round_small true p Hsmall) as (mz & ez & -> & Hez & Hmz & Hb).
    exists mz, ez. by rewrite Prim2SF_SF2Prim.
Qed.

Lemma of_Z_times_one v : Z.abs v < 2 ^ 53 -> (F64.of_Z v * 1)%float = F64.of_Z v.
Proof.
  intros Hsmall. destruct (decide (v = 0)) as [->|Hv]; [reflexivity|].
  destruct (of_Z_repr v Hv Hsmall) as (mz & ez & Hr & _ & _ & Hb).
  apply Prim2SF_inj. rewrite mul_spec, Hr, Prim2SF_one. by apply SFmul_one.
Qed.

Lemma to_int64_of_Z v : Z.abs v < 2 ^ 53 -> F64.to_int64 (F64.of_Z v) = v.
Proof.
  intros Hsmall. destruct (decide (v = 0)) as [->|Hv]; [reflexivity|].
  destruct (of_Z_repr v Hv Hsmall) as (mz & ez & Hr & Hez & Hmz & _).
  assert (Hsh : Z.shiftl (Zpos mz) ez = Z.abs v).
  { rewrite Hmz. replace ez with (- - ez) at 2 by lia. apply shiftl_neg_exact. lia. }
  assert (Hval : cond_Zopp (v <? 0) (Z.abs v) = v).
  { destruct (Z.ltb_spec v 0); cbn [cond_Zopp]; lia. }
  unfold F64.to_int64, F64.truncZ. rewrite Hr, Hsh, Hval.
  assert (2 ^ 53 < 2 ^ 63) by (apply Z.pow_lt_mono_r; lia).
  unfold Int64.min_int, Int64.max_int.
  destruct (Z.leb_spec (- 2 ^ 63) v); [|lia].
  destruct (Z.leb_spec v (2 ^ 63 - 1)); [reflexivity|lia].
Qed.

Lemma counter_delta_unsampled v : Z.abs v < 2 ^ 53 -> counter_delta v 1 = v.
Proof.
  intros Hsmall. unfold counter_delta.
  by rewrite F32_div_one, of_Z_times_one, to_int64_of_Z.
Qed.

Lemma plain_amount B p :
  plain_count B p -> counter_amount B p = counter_value B p.
Proof.
  unfold plain_count, counter_amount, counter_value. intros Hp.
  destruct (decide (Modifier p = "c" /\ Bucket p = B)); [|done].
  destruct (Value p) as [v| | |]; try done.
  destruct (Hp v eq_refl) as [-> Hv]. by rewrite counter_delta_unsampled.
Qed.

Lemma plain_window B ps :
  Forall (plain_count B) ps -> window_amounts B ps = window_values B ps.
Proof.
  unfold window_amounts, window_values.
  induction 1 as [|p ps Hp _ IH]; [done|].
  cbn [omap list_omap].
  change (list_omap _ _ (counter_amount B) ps) with (omap (counter_amount B) ps).
  change (list_omap _ _ (counter_value B) ps) with (omap (counter_value B) ps).
  by rewrite (plain_amount _ _ Hp), IH.
Qed.

(** X27: counter events without a sampling rate count exactly: for a
    counter bucket [B] other than the bucket of the receive counter, that
    is absent when the window opens and whose events in the window have
    the rate 1 and integers of less than 54 bits, the flush emits
    "B v now" with v the int64 sum of these integers (the conversion to
    float64 and back loses nothing). *)
Theorem unsampled_counters_sum_exactly cfg ps st st' B now :
  receiveCounter cfg <> B ->
  counters st !! B = None ->
  handle_all cfg ps st = Some st' ->
  Forall (plain_count B) ps ->
  window_values B ps <> [] ->
  forall v, mkLine tmpl_int [Astr B; Aint v; Aint now] ∈ (processCounters cfg [] now st').1.1
            <-> v = Int64.wrap (sum_Z (window_values B ps)).
Proof.
  intros Hrc Hfresh Hrun Hplain Hsome v.
  pose proof (handle_all_counter _ _ _ _ _ Hrc Hrun) as Hc.
  rewrite (plain_window _ _ Hplain) in Hc.
  rewrite Hfresh, accumulate_fresh in Hc by done.
  rewrite processCounters_lines, reset_tickers_lookup, Hc. split.
  - intros [[= <-]|[_ (p & [= <-] & ?)]]; [done|lia].
  - intros ->. by left.
Qed.

Lemma unsampled_counters_sum_exactly_witness :
  receiveCounter default_config <> "stats.foo"
  /\ counters empty_state !! "stats.foo" = None
  /\ handle_all default_config (first_window ++ second_window) empty_state
     = Some (mkState {["stats.foo" := 3]} ∅ ∅ ∅ ∅)
  /\ Forall (plain_count "stats.foo") (first_window ++ second_window)
  /\ window_values "stats.foo" (first_window ++ second_window) <> []
  /\ (mkLine tmpl_int [Astr "stats.foo"; Aint 3; Aint 7]
        ∈ (processCounters default_config [] 7 (mkState {["stats.foo" := 3]} ∅ ∅ ∅ ∅)).1.1
      <-> 3 = Int64.wrap (sum_Z (window_values "stats.foo" (first_window ++ second_window)))).
Proof.
  assert (H : Forall (plain_count "stats.foo") (first_window ++ second_window)).
  { apply Forall_cons. split; [intros v [= <-]; split; [reflexivity|by vm_compute]|].
    apply Forall_cons. split; [intros v [= <-]; split; [reflexivity|by vm_compute]|].
    apply Forall_nil_2. }
  split; [done|]. split; [done|]. split; [by vm_compute|]. split; [exact H|].
  split; [by vm_compute|].
  apply (unsampled_counters_sum_exactly default_config (first_window ++ second_window)
           empty_state (mkState {["stats.foo" := 3]} ∅ ∅ ∅ ∅) "stats.foo" 7);
    [done|done|by vm_compute|exact H|by vm_compute].
Defined.

(** ** The loop never panics without percentiles *)

Lemma packetHandler_no_empty_bucket cfg p st st' :
  packetHandler cfg p st = Some st' -> no_empty_bucket st -> no_empty_bucket st'.
Proof.
  intros Hp Hst u. rewrite (packetHandler_timer _ _ _ _ u Hp).
  destruct (timer_sample u p); [|apply Hst].
  intros [= H]. by apply app_eq_nil in H as [_ ?].
Qed.

Lemma run_emitters_safe cfg now st :
  percentThreshold cfg = [] -> no_empty_bucket st ->
  exists b n st', run_emitters cfg now st = Some (b, n, st') /\ timers st' = ∅.
Proof.
  intros Hp Hst. rewrite run_emitters_eq, Hp.
  destruct (processTimers_safe [] now [] st) as (bt & -> & _).
  { intros u t0 Hu. unfold bucket_safe. cbn [forallb]. rewrite andb_true_r.
    destruct t0 as [|f t0]; [by destruct (Hst u)|done]. }
  cbn [mbind option_bind]. by eexists _, _, _.
Qed.

Lemma submit_safe cfg net now st :
  percentThreshold cfg = [] -> no_empty_bucket st ->
  exists o, submit cfg net now st = Some o /\ no_empty_bucket (tables o).
Proof.
  intros Hp Hst. unfold submit.
  destruct (run_emitters_safe cfg now st Hp Hst) as (b & n & st' & -> & Ht).
  assert (Hst' : no_empty_bucket st').
  { intros u. by rewrite Ht, lookup_empty. }
  cbn [mbind option_bind].
  destruct (decide (graphiteAddress cfg = "-")); [by eexists|].
  destruct (dial_err net) as [err|].
  { destruct (debug cfg); by eexists. }
  destruct (deadline_err net) as [err|]; [by eexists|].
  destruct (n =? 0); [by eexists|].
  destruct (write_err net); by eexists.
Qed.

Lemma monitor_safe cfg received st flushes :
  percentThreshold cfg = [] ->
  Forall well_typed (packets_of received) ->
  no_empty_bucket st ->
  is_Some (monitor cfg received st flushes).
Proof.
  intros Hp. revert st flushes.
  induction received as [|e received IH]; intros st flushes Hty Hst; [by eexists|].
  destruct e as [net now|net now|s]; cbn [monitor].
  - destruct (submit_safe cfg net now st Hp Hst) as (o & -> & _). by eexists.
  - destruct (submit_safe cfg net now st Hp Hst) as (o & -> & Ho).
    cbn [mbind option_bind]. by apply IH.
  - unfold packets_of in Hty. cbn [omap list_omap] in Hty.
    apply Forall_cons in Hty as [Hs Hty].
    destruct (packetHandler_typed cfg s st Hs) as [st' Hst'].
    rewrite Hst'. cbn [mbind option_bind].
    apply IH; [done|]. by eapply packetHandler_no_empty_bucket.
Qed.

(** X28: with no percentile configured the monitor loop never panics:
    whatever signals, ticks and packets it receives, in whatever order
    and whatever the network does, when every packet carries the value
    type of its modifier (as the packets of the parser do) and no timer
    bucket is empty at the start, every packet is applied and every
    flush returns. *)
Theorem monitor_never_panics cfg received st :
  percentThreshold cfg = [] ->
  Forall well_typed (packets_of received) ->
  no_empty_bucket st ->
  exists stopped st' flushes, monitor cfg received st [] = Some (stopped, st', flushes).
Proof.
  intros Hp Hty Hst.
  destruct (monitor_safe cfg received st [] Hp Hty Hst) as [[[stopped st'] flushes] H].
  by exists stopped, st', flushes.
Qed.

Lemma monitor_never_panics_witness :
  percentThreshold default_config = []
  /\ Forall well_typed
       (packets_of ((FromIn <$> two_timer_events) ++ [Tick failing_write 9]))
  /\ no_empty_bucket empty_state
  /\ exists stopped st' flushes,
       monitor default_config ((FromIn <$> two_timer_events) ++ [Tick failing_write 9])
         empty_state [] = Some (stopped, st', flushes).
Proof.
  assert (Hty : Forall well_typed
                  (packets_of ((FromIn <$> two_timer_events) ++ [Tick failing_write 9]))).
  { apply Forall_cons. split.
    { unfold well_typed. cbn. repeat split; try done. by eexists. }
    apply Forall_cons. split; [|apply Forall_nil_2].
    unfold well_typed. cbn. repeat split; try done. by eexists. }
  assert (Hst : no_empty_bucket empty_state).
  { intros u. cbn [timers empty_state]. by rewrite lookup_empty. }
  split; [done|]. split; [exact Hty|]. split; [exact Hst|].
  exact (monitor_never_panics default_config
           ((FromIn <$> two_timer_events) ++ [Tick failing_write 9]) empty_state
           eq_refl Hty Hst).
Defined.

(** ** The percentile 100 *)











